(** * sqlschema: schema reconciliation for MySQL tables

    A shallow embedding of the Go package [sqlschema] (types [Field],
    [Index], [Schema]; the lookups [Schema.Field] and [Schema.Index]; the
    predicates [Field.Equal] and [Index.Equal]; [ReadFromDB],
    [Schema.Create] and [Schema.Update]) together with the properties of
    the reconciliation algorithm.

    Go strings are byte sequences, so they are modelled by [string] (a list
    of 8-bit [ascii]).  The [*sql.DB] handle is an external collaborator: it
    is modelled by the interface [Database], and every statement passed to
    [ExecContext] is recorded in a trace so that theorems can speak about
    the statements that are emitted and their order. *)

From Stdlib Require Import String Ascii List Bool Arith Lia.
From stdpp Require Import base option list strings gmap.

Import ListNotations.
Local Open Scope string_scope.
Local Open Scope list_scope.

(** ** Data model (sqlscheme.update.go, second part) *)

Record Field := mkField {
  Field_Name          : string;
  Field_Type          : string;
  Field_Nullable      : bool;
  Field_AutoIncrement : bool;
  Field_DefaultValue  : string;
  Field_Comment       : string
}.

Record Index := mkIndex {
  Index_Name    : string;
  Index_Columns : list string;
  Index_Primary : bool;
  Index_Unique  : bool
}.

(** The field holding the indexes is spelled [Indices] in the type
    declaration and [Indexs] in the older bodies of [ReadFromDB] and
    [Update]; both name this one field. *)
Record Schema := mkSchema {
  Schema_Name    : string;
  Schema_Fields  : list Field;
  Schema_Indices : list Index;
  Schema_Engine  : string;
  Schema_Collate : string;
  Schema_Comment : string
}.

(** ** Lookups *)

(** [for _, field := range sc.Fields { if field.Name == name { return &field } }; return nil] *)
Fixpoint Field_loop (fields : list Field) (name : string) : option Field :=
  match fields with
  | [] => None
  | field :: rest =>
      if (Field_Name field =? name)%string then Some field
      else Field_loop rest name
  end.

Definition Schema_Field (sc : Schema) (name : string) : option Field :=
  Field_loop (Schema_Fields sc) name.

(** [index.Name == name || (name == "" && index.Primary)] *)
Definition Index_matches (name : string) (index : Index) : bool :=
  (Index_Name index =? name)%string || ((name =? "")%string && Index_Primary index).

Fixpoint Index_loop (indices : list Index) (name : string) : option Index :=
  match indices with
  | [] => None
  | index :: rest =>
      if Index_matches name index then Some index
      else Index_loop rest name
  end.

Definition Schema_Index (sc : Schema) (name : string) : option Index :=
  let name := if (name =? "PRIMARY")%string then "" else name in
  Index_loop (Schema_Indices sc) name.

(** ** Equality predicates *)

Definition Field_Equal (fd other : Field) : bool :=
  if negb (Field_Name fd =? Field_Name other)%string then false
  else if negb (Field_Type fd =? Field_Type other)%string then false
  else if negb (Bool.eqb (Field_Nullable fd) (Field_Nullable other)) then false
  else if negb (Bool.eqb (Field_AutoIncrement fd) (Field_AutoIncrement other)) then false
  else
    let defVal1 := Field_DefaultValue fd in
    let defVal2 := Field_DefaultValue other in
    let defVal1 := if (defVal1 =? "NULL")%string then "" else defVal1 in
    let defVal2 := if (defVal2 =? "NULL")%string then "" else defVal2 in
    if negb (defVal1 =? defVal2)%string then false
    else if negb (Field_Comment fd =? Field_Comment other)%string then false
    else true.

(** The loop [for i, column := range idx.Columns { if column != other.Columns[i] ... }].
    Indexing [other.Columns[i]] out of range is a run-time panic, rendered
    by [None]. *)
Fixpoint Equal_loop (i : nat) (columns other : list string) : option bool :=
  match columns with
  | [] => Some true
  | column :: rest =>
      match nth_error other i with
      | None => None
      | Some c =>
          if negb (column =? c)%string then Some false
          else Equal_loop (S i) rest other
      end
  end.

Definition Index_Equal (idx other : Index) : option bool :=
  if negb (Bool.eqb (Index_Primary idx) (Index_Primary other)) then Some false
  else if negb (Index_Primary idx) && negb (Index_Name idx =? Index_Name other)%string
       then Some false
  else if negb (Bool.eqb (Index_Unique idx) (Index_Unique other)) then Some false
  else if negb (List.length (Index_Columns idx) =? List.length (Index_Columns other))%nat
       then Some false
  else Equal_loop 0 (Index_Columns idx) (Index_Columns other).

(** ** Errors and results *)

(** Go's [error] values as this package sees them: the sentinel
    [sql.ErrNoRows], any other failure reported by the driver, and
    [errors.Wrap(e, msg)] of github.com/pkg/errors. *)
Inductive error : Type :=
| ErrNoRows
| DriverError (msg : string)
| Wrap (cause : error) (msg : string).

(** What running a piece of Go code yields: a value, a non-nil [error]
    handed back to the caller, or a run-time panic (slice bounds or index
    out of range). *)
Inductive outcome (A : Type) : Type :=
| Value (a : A)
| Failure (e : error)
| Panic.
Arguments Value {A} a.
Arguments Failure {A} e.
Arguments Panic {A}.

Definition bind {A B : Type} (m : outcome A) (k : A -> outcome B) : outcome B :=
  match m with
  | Value a => k a
  | Failure e => Failure e
  | Panic => Panic
  end.

Notation "'let*' x ':=' m 'in' k" := (bind m (fun x => k))
  (at level 10, x name, m at level 100, k at level 200, only parsing).

(** [sql[:len(sql)-1]]: panics on the empty string. *)
Definition trimLast (sql : string) : outcome string :=
  match String.length sql with
  | O => Panic
  | S n => Value (substring 0 n sql)
  end.

(** ** The database handle *)

(** One row of each catalog query of [ReadFromDB], as scanned. *)
Record TablesRow := mkTablesRow {
  ENGINE          : string;
  TABLE_COLLATION : string;
  TABLE_COMMENT   : string
}.

Record ColumnsRow := mkColumnsRow {
  COLUMN_NAME    : string;
  COLUMN_TYPE    : string;
  IS_NULLABLE    : string;
  COLUMN_DEFAULT : option string;   (* sql.NullString *)
  COLUMN_COMMENT : string;
  EXTRA          : string
}.

Record StatisticsRow := mkStatisticsRow {
  INDEX_NAME   : string;
  SEQ_IN_INDEX : Z;
  INDEX_COLUMN : string;
  NON_UNIQUE   : Z
}.

(** What the package uses of [*sql.DB].  The four queries are the four
    catalog probes of [ReadFromDB], each with the result of its [Scan];
    for the two multi-row queries the list holds the result of [rows.Scan]
    for each row that [rows.Next] delivers.  [ExecContext] runs a statement
    and returns the new database and its [error] ([None] is [nil]). *)
Class Database (DB : Type) := {
  QueryRow_DATABASE : DB -> error + string;
  QueryRow_TABLES   : DB -> string -> string -> error + TablesRow;
  Query_COLUMNS     : DB -> string -> string -> error + list (error + ColumnsRow);
  Query_STATISTICS  : DB -> string -> string -> error + list (error + StatisticsRow);
  ExecContext       : DB -> string -> DB * option error
}.

(** ** ReadFromDB (unnamed/part_000) *)

Definition scanColumn (r : ColumnsRow) : Field :=
  {| Field_Name := COLUMN_NAME r;
     Field_Type := COLUMN_TYPE r;
     Field_Nullable := (IS_NULLABLE r =? "YES")%string;
     Field_AutoIncrement := (EXTRA r =? "auto_increment")%string;
     Field_DefaultValue := match COLUMN_DEFAULT r with Some s => s | None => "" end;
     Field_Comment := COLUMN_COMMENT r |}.

Fixpoint columns_loop (rows : list (error + ColumnsRow)) (fields : list Field)
  : outcome (list Field) :=
  match rows with
  | [] => Value fields
  | inl e :: _ => Failure (Wrap e "Scan table columns failed")
  | inr r :: rest => columns_loop rest (fields ++ [scanColumn r])
  end.

Definition newIndex (idxName idxColumn : string) (nonUnique : Z) : Index :=
  let Primary := (idxName =? "PRIMARY")%string in
  {| Index_Name := idxName;
     Index_Columns := [idxColumn];
     Index_Primary := Primary;
     Index_Unique := if Primary then false else (nonUnique =? 0)%Z |}.

Definition appendColumn (idxColumn : string) (index : Index) : Index :=
  {| Index_Name := Index_Name index;
     Index_Columns := Index_Columns index ++ [idxColumn];
     Index_Primary := Index_Primary index;
     Index_Unique := Index_Unique index |}.

(** [idxMap] is the Go map from index name to position in [sc.Indexs];
    [sc.Indexs[i]] out of range would panic. *)
Fixpoint indexs_loop (rows : list (error + StatisticsRow))
    (idxMap : gmap string nat) (indexs : list Index) : outcome (list Index) :=
  match rows with
  | [] => Value indexs
  | inl e :: _ => Failure (Wrap e "Scan table indexs failed")
  | inr r :: rest =>
      match idxMap !! INDEX_NAME r with
      | None =>
          indexs_loop rest (<[INDEX_NAME r := List.length indexs]> idxMap)
            (indexs ++ [newIndex (INDEX_NAME r) (INDEX_COLUMN r) (NON_UNIQUE r)])
      | Some i =>
          match indexs !! i with
          | None => Panic
          | Some index =>
              indexs_loop rest idxMap (<[i := appendColumn (INDEX_COLUMN r) index]> indexs)
          end
      end
  end.

(** [(nil, e)] is [Failure e], [(nil, nil)] is [Value None] and [(sc, nil)]
    is [Value (Some sc)]. *)
Definition ReadFromDB {DB : Type} `{Database DB} (db : DB) (name : string)
  : outcome (option Schema) :=
  match QueryRow_DATABASE db with
  | inl e => Failure (Wrap e "Get database name failed")
  | inr dbName =>
      match QueryRow_TABLES db dbName name with
      | inl ErrNoRows => Value None
      | inl e => Failure (Wrap e "Get table info failed")
      | inr t =>
          match Query_COLUMNS db dbName name with
          | inl e => Failure (Wrap e "Get table columns failed")
          | inr rows =>
              let* fields := columns_loop rows [] in
              match Query_STATISTICS db dbName name with
              | inl e => Failure (Wrap e "Get table indexs failed")
              | inr rows =>
                  let* indexs := indexs_loop rows ∅ [] in
                  Value (Some {| Schema_Name := name;
                                 Schema_Fields := fields;
                                 Schema_Indices := indexs;
                                 Schema_Engine := ENGINE t;
                                 Schema_Collate := TABLE_COLLATION t;
                                 Schema_Comment := TABLE_COMMENT t |})
              end
          end
      end
  end.

(** ** Running statements *)

(** The connection together with the trace of the statements handed to
    [db.ExecContext], oldest first. *)
Record world (DB : Type) := mkWorld {
  conn     : DB;
  executed : list string
}.
Arguments mkWorld {DB} conn executed.
Arguments conn {DB} w.
Arguments executed {DB} w.

Definition action (DB : Type) : Type := world DB -> world DB * outcome unit.

Section Statements.
Context {DB : Type} `{Database DB}.

(** [escape] is a helper of the package that is defined outside the files
    modelled here; the development is parametric in it. *)
Variable escape : string -> string.

Definition skip : action DB := fun w => (w, Value tt).

(** [a; b] where a non-nil error or a panic in [a] ends the function. *)
Definition andThen (a b : action DB) : action DB :=
  fun w =>
    match a w with
    | (w', Value _) => b w'
    | r => r
    end.

(** A pure computation that may panic, followed by its continuation. *)
Definition withValue {A : Type} (m : outcome A) (k : A -> action DB) : action DB :=
  fun w =>
    match m with
    | Value a => k a w
    | Failure e => (w, Failure e)
    | Panic => (w, Panic)
    end.

(** [_, e = db.ExecContext(ctx, sql, args...); if e != nil { return e }] *)
Definition exec (sql : string) : action DB :=
  fun w =>
    let (db', e) := ExecContext (conn w) sql in
    (mkWorld db' (executed w ++ [sql]),
     match e with
     | Some e => Failure e
     | None => Value tt
     end).

(** [for _, x := range l { body }] *)
Fixpoint forRange {A : Type} (l : list A) (body : A -> action DB) : action DB :=
  match l with
  | [] => skip
  | x :: rest => andThen (body x) (forRange rest body)
  end.

(** The nullability, auto-increment, default and comment suffixes of a
    column definition; the same four [if]s stand in [Create] and in
    [Update]. *)
Definition columnOptions (sql : string) (field : Field) : string :=
  let sql := if Field_Nullable field then sql +:+ " NULL" else sql +:+ " NOT NULL" in
  let sql := if Field_AutoIncrement field then sql +:+ " AUTO_INCREMENT" else sql in
  let sql := if negb (Field_DefaultValue field =? "")%string
             then sql +:+ " DEFAULT " +:+ Field_DefaultValue field else sql in
  let sql := if negb (Field_Comment field =? "")%string
             then sql +:+ " COMMENT '" +:+ escape (Field_Comment field) +:+ "'" else sql in
  sql.

(** [for _, column := range index.Columns { sql += "`" + column + "`," }] *)
Definition columns_loop_sql (columns : list string) (sql : string) : string :=
  fold_left (fun sql column => sql +:+ "`" +:+ column +:+ "`,") columns sql.

(** ** Schema.Create (unnamed/part_001) *)

Definition Create_fields (fields : list Field) (sql : string) : string :=
  fold_left
    (fun sql field =>
       columnOptions (sql +:+ "`" +:+ Field_Name field +:+ "` " +:+ Field_Type field) field
         +:+ ",")
    fields sql.

Fixpoint Create_indices (indices : list Index) (sql : string) : outcome string :=
  match indices with
  | [] => Value sql
  | index :: rest =>
      let sql :=
        if Index_Primary index then sql +:+ "PRIMARY KEY ("
        else if Index_Unique index then sql +:+ "UNIQUE KEY `" +:+ Index_Name index +:+ "` ("
        else sql +:+ "KEY `" +:+ Index_Name index +:+ "` (" in
      let sql := columns_loop_sql (Index_Columns index) sql in
      let* sql := trimLast sql in
      Create_indices rest (sql +:+ "),")
  end.

Definition Create_sql (sc : Schema) : outcome string :=
  let sql := "CREATE TABLE IF NOT EXISTS `" +:+ Schema_Name sc +:+ "` (" in
  let sql := Create_fields (Schema_Fields sc) sql in
  let* sql := Create_indices (Schema_Indices sc) sql in
  let* sql := trimLast sql in
  let sql := sql +:+ ")" in
  let sql := if negb (Schema_Engine sc =? "")%string
             then sql +:+ " ENGINE=" +:+ Schema_Engine sc else sql in
  let sql := if negb (Schema_Collate sc =? "")%string
             then sql +:+ " COLLATE=" +:+ Schema_Collate sc else sql in
  let sql := if negb (Schema_Comment sc =? "")%string
             then sql +:+ " COMMENT='" +:+ escape (Schema_Comment sc) +:+ "'" else sql in
  Value sql.

Definition Schema_Create (sc : Schema) : action DB :=
  withValue (Create_sql sc) exec.

(** ** Schema.Update (sqlscheme.update.go) *)

(** Lines 18-39: the table attributes. *)
Definition Update_attributes (sc cur : Schema) : action DB :=
  let sql := "" in
  let sql := if negb (Schema_Engine sc =? Schema_Engine cur)%string
             then sql +:+ " ENGINE = " +:+ Schema_Engine sc else sql in
  let sql := if negb (Schema_Collate sc =? Schema_Collate cur)%string
             then sql +:+ " COLLATE = " +:+ Schema_Collate sc else sql in
  let sql := if negb (Schema_Comment sc =? Schema_Comment cur)%string
             then sql +:+ " COMMENT = '" +:+ escape (Schema_Comment sc) +:+ "'" else sql in
  if negb (sql =? "")%string
  then exec ("ALTER TABLE `" +:+ Schema_Name sc +:+ "`" +:+ sql)
  else skip.

(** Lines 41-49: body of the loop over [cur.Fields]. *)
Definition Update_dropField (sc : Schema) (field : Field) : action DB :=
  match Schema_Field sc (Field_Name field) with
  | None =>
      exec ("ALTER TABLE `" +:+ Schema_Name sc +:+ "` DROP `" +:+ Field_Name field +:+ "`")
  | Some _ => skip
  end.

(** Lines 51-79: body of the loop over [sc.Fields]. *)
Definition Update_field (sc cur : Schema) (field : Field) : action DB :=
  let fd := Schema_Field cur (Field_Name field) in
  let sql := "" in
  let sql :=
    match fd with
    | None =>
        "ALTER TABLE `" +:+ Schema_Name sc +:+ "` ADD `" +:+ Field_Name field +:+ "` "
          +:+ Field_Type field
    | Some fd =>
        if negb (Field_Equal fd field)
        then "ALTER TABLE `" +:+ Schema_Name sc +:+ "` MODIFY `" +:+ Field_Name field +:+ "` "
               +:+ Field_Type field
        else sql
    end in
  if negb (sql =? "")%string
  then exec (columnOptions sql field)
  else skip.

(** Lines 81-89: body of the loop over [cur.Indexs]. *)
Definition Update_dropIndex (sc : Schema) (index : Index) : action DB :=
  match Schema_Index sc (Index_Name index) with
  | None =>
      exec ("ALTER TABLE `" +:+ Schema_Name sc +:+ "` DROP INDEX `" +:+ Index_Name index +:+ "`")
  | Some _ => skip
  end.

(** Lines 92-110: the head of the statement for one index of [sc], or
    the empty string. *)
Definition Update_index_head (sc cur : Schema) (index : Index) : outcome string :=
  let idx := Schema_Index cur (Index_Name index) in
  let sql := "" in
  match idx with
  | None =>
      Value
        (if Index_Primary index then
           "ALTER TABLE `" +:+ Schema_Name sc +:+ "` ADD PRIMARY KEY ("
         else if Index_Unique index then
           "ALTER TABLE `" +:+ Schema_Name sc +:+ "` ADD UNIQUE KEY `" +:+ Index_Name index
             +:+ "` ("
         else
           "ALTER TABLE `" +:+ Schema_Name sc +:+ "` ADD KEY `" +:+ Index_Name index +:+ "` (")
  | Some idx =>
      match Index_Equal idx index with
      | None => Panic
      | Some false =>
          Value
            (if Index_Primary index then
               "ALTER TABLE `" +:+ Schema_Name sc +:+ "` DROP PRIMARY KEY, ADD PRIMARY KEY ("
             else if Index_Unique index then
               "ALTER TABLE `" +:+ Schema_Name sc +:+ "` DROP INDEX `" +:+ Index_Name index
                 +:+ "`, ADD UNIQUE KEY `" +:+ Index_Name index +:+ "` ("
             else
               "ALTER TABLE `" +:+ Schema_Name sc +:+ "` DROP INDEX `" +:+ Index_Name index
                 +:+ "`, ADD KEY `" +:+ Index_Name index +:+ "` (")
      | Some true => Value sql
      end
  end.

(** Lines 91-121: body of the loop over [sc.Indexs]. *)
Definition Update_index (sc cur : Schema) (index : Index) : action DB :=
  withValue (Update_index_head sc cur index) (fun sql =>
    if negb (sql =? "")%string then
      let sql := columns_loop_sql (Index_Columns index) sql in
      withValue (trimLast sql) (fun sql => exec (sql +:+ ")"))
    else skip).

(** Lines 18-123: the reconciliation against an existing table. *)
Definition Update_alter (sc cur : Schema) : action DB :=
  andThen (Update_attributes sc cur)
    (andThen (forRange (Schema_Fields cur) (Update_dropField sc))
       (andThen (forRange (Schema_Fields sc) (Update_field sc cur))
          (andThen (forRange (Schema_Indices cur) (Update_dropIndex sc))
             (forRange (Schema_Indices sc) (Update_index sc cur))))).

Definition Schema_Update (sc : Schema) : action DB :=
  fun w =>
    match ReadFromDB (conn w) (Schema_Name sc) with
    | Failure e => (w, Failure e)
    | Panic => (w, Panic)
    | Value None => Schema_Create sc w
    | Value (Some cur) => Update_alter sc cur w
    end.

End Statements.

(** ** Statement forms

    The statements as the specification describes them: identifiers between
    backticks, free text between single quotes, lists joined by commas.
    They are compared below with the strings that the code accumulates. *)

Definition quote (identifier : string) : string := "`" +:+ identifier +:+ "`".

Definition literal (text : string) : string := "'" +:+ text +:+ "'".

Fixpoint join (sep : string) (items : list string) : string :=
  match items with
  | [] => ""
  | [x] => x
  | x :: rest => x +:+ sep +:+ join sep rest
  end.

(** A comma-separated list between parentheses.  With no item at all the
    code's [sql[:len(sql)-1]] eats the opening parenthesis, and only the
    closing one is left. *)
Definition parenthesised (items : list string) : string :=
  match items with
  | [] => ")"
  | _ => "(" +:+ join "," items +:+ ")"
  end.

(** Every item followed by a comma: what the loops of the code accumulate
    before the last comma is cut off. *)
Definition terminated (items : list string) : string :=
  fold_right (fun item rest => item +:+ "," +:+ rest) "" items.

Definition normalizeDefault (defVal : string) : string :=
  if (defVal =? "NULL")%string then "" else defVal.

(** [PRIMARY KEY], [UNIQUE KEY `name`] or [KEY `name`], with the blank that
    precedes the column list. *)
Definition indexKind (index : Index) : string :=
  if Index_Primary index then "PRIMARY KEY "
  else if Index_Unique index then "UNIQUE KEY " +:+ quote (Index_Name index) +:+ " "
  else "KEY " +:+ quote (Index_Name index) +:+ " ".

Definition indexClause (index : Index) : string :=
  indexKind index +:+ parenthesised (map quote (Index_Columns index)).

Definition dropClause (index : Index) : string :=
  if Index_Primary index then "DROP PRIMARY KEY"
  else "DROP INDEX " +:+ quote (Index_Name index).

(** Equality of indexes as the specification words it. *)
Definition sameIndex (idx other : Index) : Prop :=
  Index_Primary idx = Index_Primary other /\
  (Index_Primary idx = false -> Index_Name idx = Index_Name other) /\
  Index_Unique idx = Index_Unique other /\
  Index_Columns idx = Index_Columns other.

(** Equality of fields as the specification words it. *)
Definition sameField (fd other : Field) : Prop :=
  Field_Name fd = Field_Name other /\
  Field_Type fd = Field_Type other /\
  Field_Nullable fd = Field_Nullable other /\
  Field_AutoIncrement fd = Field_AutoIncrement other /\
  Field_Comment fd = Field_Comment other /\
  normalizeDefault (Field_DefaultValue fd) = normalizeDefault (Field_DefaultValue other).

Definition sameIndexb (idx other : Index) : bool :=
  Bool.eqb (Index_Primary idx) (Index_Primary other)
  && (Index_Primary idx || (Index_Name idx =? Index_Name other)%string)
  && Bool.eqb (Index_Unique idx) (Index_Unique other)
  && bool_decide (Index_Columns idx = Index_Columns other).

Definition hasField (sc : Schema) (name : string) : bool :=
  existsb (fun field => (Field_Name field =? name)%string) (Schema_Fields sc).

(** The name under which [Schema.Index] searches: [PRIMARY] stands for the
    empty name. *)
Definition indexKey (name : string) : string :=
  if (name =? "PRIMARY")%string then "" else name.

Definition hasIndex (sc : Schema) (name : string) : bool :=
  existsb (Index_matches (indexKey name)) (Schema_Indices sc).

Section Plan.
Variable escape : string -> string.

(** Type, then NULL / NOT NULL, then AUTO_INCREMENT, then DEFAULT with
    the default as it stands, then COMMENT with the escaped comment. *)
Definition columnDef (field : Field) : string :=
  Field_Type field
    +:+ (if Field_Nullable field then " NULL" else " NOT NULL")
    +:+ (if Field_AutoIncrement field then " AUTO_INCREMENT" else "")
    +:+ (if (Field_DefaultValue field =? "")%string then ""
         else " DEFAULT " +:+ Field_DefaultValue field)
    +:+ (if (Field_Comment field =? "")%string then ""
         else " COMMENT " +:+ literal (escape (Field_Comment field))).

Definition columnClause (field : Field) : string :=
  quote (Field_Name field) +:+ " " +:+ columnDef field.

Definition tableOptions (sc : Schema) : string :=
  (if (Schema_Engine sc =? "")%string then "" else " ENGINE=" +:+ Schema_Engine sc)
    +:+ (if (Schema_Collate sc =? "")%string then "" else " COLLATE=" +:+ Schema_Collate sc)
    +:+ (if (Schema_Comment sc =? "")%string then ""
         else " COMMENT=" +:+ literal (escape (Schema_Comment sc))).

(** The CREATE statement: column clauses in field order, then index
    clauses in index order, then the table options. *)
Definition createStatement (sc : Schema) : string :=
  "CREATE TABLE IF NOT EXISTS " +:+ quote (Schema_Name sc) +:+ " "
    +:+ parenthesised (map columnClause (Schema_Fields sc)
                         ++ map indexClause (Schema_Indices sc))
    +:+ tableOptions sc.

Definition alter (sc : Schema) : string :=
  "ALTER TABLE " +:+ quote (Schema_Name sc).

(** Phase 1: one statement carrying the attributes that differ. *)
Definition changedAttributes (D A : Schema) : string :=
  (if (Schema_Engine D =? Schema_Engine A)%string then ""
   else " ENGINE = " +:+ Schema_Engine D)
    +:+ (if (Schema_Collate D =? Schema_Collate A)%string then ""
         else " COLLATE = " +:+ Schema_Collate D)
    +:+ (if (Schema_Comment D =? Schema_Comment A)%string then ""
         else " COMMENT = " +:+ literal (escape (Schema_Comment D))).

Definition attributeChange (D A : Schema) : list string :=
  if (Schema_Engine D =? Schema_Engine A)%string
     && (Schema_Collate D =? Schema_Collate A)%string
     && (Schema_Comment D =? Schema_Comment A)%string
  then []
  else [alter D +:+ changedAttributes D A].

(** Phase 2: the fields of [A] that [D] does not name. *)
Definition dropFieldStatement (D : Schema) (field : Field) : string :=
  alter D +:+ " DROP " +:+ quote (Field_Name field).

Definition fieldDrops (D A : Schema) : list string :=
  map (dropFieldStatement D)
    (List.filter (fun field => negb (hasField D (Field_Name field))) (Schema_Fields A)).

(** Phase 3: the fields of [D], added or modified. *)
Definition fieldStatement (D A : Schema) (field : Field) : option string :=
  match Schema_Field A (Field_Name field) with
  | None => Some (alter D +:+ " ADD " +:+ columnClause field)
  | Some fd =>
      if Field_Equal fd field then None
      else Some (alter D +:+ " MODIFY " +:+ columnClause field)
  end.

Definition fieldChanges (D A : Schema) : list string :=
  omap (fieldStatement D A) (Schema_Fields D).

(** Phase 4: the indexes of [A] that have no counterpart in [D]. *)
Definition dropIndexStatement (D : Schema) (index : Index) : string :=
  alter D +:+ " DROP INDEX " +:+ quote (Index_Name index).

Definition indexDrops (D A : Schema) : list string :=
  map (dropIndexStatement D)
    (List.filter (fun index => negb (hasIndex D (Index_Name index))) (Schema_Indices A)).

(** Phase 5: the indexes of [D], added or replaced. *)
Definition addIndexStatement (D : Schema) (index : Index) : string :=
  alter D +:+ " ADD " +:+ indexClause index.

Definition replaceIndexStatement (D : Schema) (index : Index) : string :=
  alter D +:+ " " +:+ dropClause index +:+ ", ADD " +:+ indexClause index.

Definition indexStatement (D A : Schema) (index : Index) : option string :=
  match Schema_Index A (Index_Name index) with
  | None => Some (addIndexStatement D index)
  | Some idx =>
      if sameIndexb idx index then None
      else Some (replaceIndexStatement D index)
  end.

Definition indexChanges (D A : Schema) : list string :=
  omap (indexStatement D A) (Schema_Indices D).

Definition changeList (D A : Schema) : list string :=
  attributeChange D A ++ fieldDrops D A ++ fieldChanges D A
    ++ indexDrops D A ++ indexChanges D A.

(** The statements that [Create] and [Update] may hand to the database
    for the declared schema [sc], given what [ReadFromDB] has returned:
    [None] when the table does not exist, [Some A] when it exists as [A].
    Every statement is built from the two schemas: the CREATE statement of
    [sc]; the attributes of [sc] that differ from those of [A]; a column or
    an index of [A] that is dropped; a column or an index of [sc] that is
    added, modified or replaced.  In each of them every identifier stands
    between backticks, every comment goes through [escape] and stands
    between single quotes, and a default value stands as it is after
    DEFAULT. *)
Inductive statementForm (sc : Schema) : option Schema -> string -> Prop :=
| form_create :
    statementForm sc None (createStatement sc)
| form_attributes (A : Schema) :
    statementForm sc (Some A) (alter sc +:+ changedAttributes sc A)
| form_drop_field (A : Schema) (field : Field) :
    In field (Schema_Fields A) ->
    statementForm sc (Some A) (alter sc +:+ " DROP " +:+ quote (Field_Name field))
| form_add_field (A : Schema) (field : Field) :
    In field (Schema_Fields sc) ->
    statementForm sc (Some A)
      (alter sc +:+ " ADD " +:+ quote (Field_Name field) +:+ " " +:+ columnDef field)
| form_modify_field (A : Schema) (field : Field) :
    In field (Schema_Fields sc) ->
    statementForm sc (Some A)
      (alter sc +:+ " MODIFY " +:+ quote (Field_Name field) +:+ " " +:+ columnDef field)
| form_drop_index (A : Schema) (index : Index) :
    In index (Schema_Indices A) ->
    statementForm sc (Some A) (alter sc +:+ " DROP INDEX " +:+ quote (Index_Name index))
| form_add_index (A : Schema) (index : Index) :
    In index (Schema_Indices sc) ->
    statementForm sc (Some A) (alter sc +:+ " ADD " +:+ indexClause index)
| form_replace_index (A : Schema) (index : Index) :
    In index (Schema_Indices sc) ->
    statementForm sc (Some A)
      (alter sc +:+ " " +:+ dropClause index +:+ ", ADD " +:+ indexClause index).

(** The rendering that escapes default values too, and the one that puts
    the primary key clause before the other index clauses: the two
    readings of the CREATE statement that the code is compared with. *)
Definition columnDef_escaped (field : Field) : string :=
  Field_Type field
    +:+ (if Field_Nullable field then " NULL" else " NOT NULL")
    +:+ (if Field_AutoIncrement field then " AUTO_INCREMENT" else "")
    +:+ (if (Field_DefaultValue field =? "")%string then ""
         else " DEFAULT " +:+ escape (Field_DefaultValue field))
    +:+ (if (Field_Comment field =? "")%string then ""
         else " COMMENT " +:+ literal (escape (Field_Comment field))).

Definition createStatement_escaped (sc : Schema) : string :=
  "CREATE TABLE IF NOT EXISTS " +:+ quote (Schema_Name sc) +:+ " "
    +:+ parenthesised
          (map (fun field => quote (Field_Name field) +:+ " " +:+ columnDef_escaped field)
               (Schema_Fields sc)
             ++ map indexClause (Schema_Indices sc))
    +:+ tableOptions sc.

Definition primaryFirst (indices : list Index) : list Index :=
  List.filter Index_Primary indices
    ++ List.filter (fun index => negb (Index_Primary index)) indices.

Definition createStatement_primaryFirst (sc : Schema) : string :=
  "CREATE TABLE IF NOT EXISTS " +:+ quote (Schema_Name sc) +:+ " "
    +:+ parenthesised (map columnClause (Schema_Fields sc)
                         ++ map indexClause (primaryFirst (Schema_Indices sc)))
    +:+ tableOptions sc.

End Plan.

(** The statements of a list run in order; the first error ends the run. *)
Definition runStatements {DB : Type} `{Database DB} (statements : list string) : action DB :=
  forRange statements exec.

(** ** Well-formed schemas

    Field names are pairwise distinct; index names are pairwise distinct;
    an index that is not primary is named neither [""] nor ["PRIMARY"]; at
    most one index is primary. *)
Definition wellFormed (sc : Schema) : bool :=
  bool_decide (NoDup (map Field_Name (Schema_Fields sc)))
  && bool_decide (NoDup (map Index_Name (Schema_Indices sc)))
  && forallb (fun index =>
                Index_Primary index
                || negb ((Index_Name index =? "")%string
                         || (Index_Name index =? "PRIMARY")%string))
       (Schema_Indices sc)
  && (List.length (List.filter Index_Primary (Schema_Indices sc)) <=? 1)%nat.

(** The invariant of the index loop of [ReadFromDB]: [idxMap] maps each
    name to the position of the index of that name, every index is
    registered in it, and [Primary] is set on the index named [PRIMARY]
    and on no other. *)
Definition indexedBy (idxMap : gmap string nat) (indexs : list Index) : Prop :=
  (forall name i,
      idxMap !! name = Some i <->
      exists index, indexs !! i = Some index /\ Index_Name index = name)
  /\ Forall (fun index => Index_Primary index = (Index_Name index =? "PRIMARY")%string) indexs.

(** ** A scripted database and sample schemas

    The examples run against a database that answers the catalog queries
    from fixed rows for one table and refuses the statements listed in
    [scripted_rejects]. *)
Record Scripted := mkScripted {
  scripted_table      : option (string * TablesRow);
  scripted_columns    : list ColumnsRow;
  scripted_statistics : list StatisticsRow;
  scripted_rejects    : list string
}.

#[global] Instance Scripted_Database : Database Scripted := {|
  QueryRow_DATABASE _ := inr "test";
  QueryRow_TABLES db _ name :=
    match scripted_table db with
    | Some (table, row) => if (table =? name)%string then inr row else inl ErrNoRows
    | None => inl ErrNoRows
    end;
  Query_COLUMNS db _ _ := inr (map inr (scripted_columns db));
  Query_STATISTICS db _ _ := inr (map inr (scripted_statistics db));
  ExecContext db sql :=
    (db, if existsb (String.eqb sql) (scripted_rejects db)
         then Some (DriverError "rejected") else None)
|}.

(** A database without any table, and the start of a run on it. *)
Definition empty_db : Scripted := mkScripted None [] [] [].

Definition start (db : Scripted) : world Scripted := mkWorld db [].

(** One possible [escape]: a backslash before every single quote and
    every backslash.  It only serves the examples; the theorems hold for
    every [escape]. *)
Fixpoint backslashEscape (s : string) : string :=
  match s with
  | EmptyString => EmptyString
  | String c rest =>
      if (c =? "'")%char || (c =? "\")%char
      then String "\" (String c (backslashEscape rest))
      else String c (backslashEscape rest)
  end.

Definition InnoDB : TablesRow := mkTablesRow "InnoDB" "utf8mb4_general_ci" "".

(** The table of the end-to-end scenario: [id] and [name], a primary key
    on [id] and a unique index on [name]. *)
Definition users : Schema :=
  {| Schema_Name := "users";
     Schema_Fields :=
       [ mkField "id" "bigint(20)" false true "" "";
         mkField "name" "varchar(64)" true false "" "" ];
     Schema_Indices :=
       [ mkIndex "PRIMARY" ["id"] true false;
         mkIndex "idx_name" ["name"] false true ];
     Schema_Engine := "InnoDB";
     Schema_Collate := "utf8mb4_general_ci";
     Schema_Comment := "" |}.

Definition users_db : Scripted :=
  mkScripted (Some ("users", InnoDB))
    [ mkColumnsRow "id" "bigint(20)" "NO" None "" "auto_increment";
      mkColumnsRow "name" "varchar(64)" "YES" None "" "" ]
    [ mkStatisticsRow "PRIMARY" 1 "id" 0;
      mkStatisticsRow "idx_name" 1 "name" 0 ]
    [].

(** A table whose second index was left without a name, after a primary
    key and before it. *)
Definition unnamed_index : Index := mkIndex "" ["a"] false false.

Definition primary_id : Index := mkIndex "PRIMARY" ["id"] true false.

Definition unnamed_first : Schema :=
  {| Schema_Name := "t";
     Schema_Fields := [ mkField "id" "int(11)" false true "" "";
                        mkField "a" "int(11)" false false "" "" ];
     Schema_Indices := [ unnamed_index; primary_id ];
     Schema_Engine := "InnoDB";
     Schema_Collate := "utf8mb4_general_ci";
     Schema_Comment := "" |}.

Definition unnamed_last : Schema :=
  {| Schema_Name := "t";
     Schema_Fields := [ mkField "id" "int(11)" false true "" "";
                        mkField "a" "int(11)" false false "" "" ];
     Schema_Indices := [ primary_id; unnamed_index ];
     Schema_Engine := "InnoDB";
     Schema_Collate := "utf8mb4_general_ci";
     Schema_Comment := "" |}.

Definition unnamed_last_db : Scripted :=
  mkScripted (Some ("t", InnoDB))
    [ mkColumnsRow "id" "int(11)" "NO" None "" "auto_increment";
      mkColumnsRow "a" "int(11)" "NO" None "" "" ]
    [ mkStatisticsRow "PRIMARY" 1 "id" 0;
      mkStatisticsRow "" 1 "a" 1 ]
    [].

(** A field declared without default, and the same field as the catalog
    may report it. *)
Definition age_declared : Field := mkField "age" "int(11)" true false "" "".
Definition age_read : Field := mkField "age" "int(11)" true false "NULL" "".

Definition people (age : Field) (pair : list string) : Schema :=
  {| Schema_Name := "people";
     Schema_Fields := [ mkField "a" "int(11)" false false "0" "";
                        mkField "b" "int(11)" false false "0" "";
                        age ];
     Schema_Indices := [ mkIndex "idx_ab" pair false false ];
     Schema_Engine := "InnoDB";
     Schema_Collate := "utf8mb4_general_ci";
     Schema_Comment := "" |}.

(** The rename-like change of the specification: [titleX] gives way to
    [age]; here the comment and the secondary index change as well. *)
Definition rename_actual : Schema :=
  {| Schema_Name := "test";
     Schema_Fields := [ mkField "id" "int(11)" false true "" "";
                        mkField "name" "varchar(255)" true false "" "";
                        mkField "titleX" "varchar(255)" true false "" "" ];
     Schema_Indices := [ primary_id; mkIndex "title_name" ["titleX"] false false ];
     Schema_Engine := "InnoDB";
     Schema_Collate := "utf8mb4_general_ci";
     Schema_Comment := "test" |}.

Definition rename_desired : Schema :=
  {| Schema_Name := "test";
     Schema_Fields := [ mkField "id" "int(11)" false true "" "";
                        mkField "name" "varchar(255)" true false "" "";
                        mkField "age" "int(11)" false false "0" "" ];
     Schema_Indices := [ mkIndex "" ["id"] true false; mkIndex "idx_age" ["age"] false false ];
     Schema_Engine := "InnoDB";
     Schema_Collate := "utf8mb4_general_ci";
     Schema_Comment := "test2" |}.

(** [users] declared without its primary key, with its two indexes in
    the other order, and with an additional index that has no column. *)
Definition users_without_primary : Schema :=
  {| Schema_Name := "users";
     Schema_Fields := Schema_Fields users;
     Schema_Indices := [ mkIndex "idx_name" ["name"] false true ];
     Schema_Engine := "InnoDB";
     Schema_Collate := "utf8mb4_general_ci";
     Schema_Comment := "" |}.

Definition users_unique_first : Schema :=
  {| Schema_Name := "users";
     Schema_Fields := Schema_Fields users;
     Schema_Indices := [ mkIndex "idx_name" ["name"] false true;
                         mkIndex "PRIMARY" ["id"] true false ];
     Schema_Engine := "InnoDB";
     Schema_Collate := "utf8mb4_general_ci";
     Schema_Comment := "" |}.

Definition no_columns : Index := mkIndex "idx_none" [] false false.

Definition users_with_empty_index : Schema :=
  {| Schema_Name := "users";
     Schema_Fields := Schema_Fields users;
     Schema_Indices := Schema_Indices users ++ [ no_columns ];
     Schema_Engine := "InnoDB";
     Schema_Collate := "utf8mb4_general_ci";
     Schema_Comment := "" |}.

(** A column whose default is a string literal and whose comment holds a
    quote. *)
Definition guests : Schema :=
  {| Schema_Name := "guests";
     Schema_Fields := [ mkField "name" "varchar(64)" false false "'guest'" "the guest's name" ];
     Schema_Indices := [];
     Schema_Engine := "";
     Schema_Collate := "";
     Schema_Comment := "" |}.

(** Tables that break one of the conventions of [wellFormed] each: a
    column name used twice, an index name used twice, two primary indexes,
    and an ordinary index named [PRIMARY]. *)
Definition table (fields : list Field) (indices : list Index) : Schema :=
  mkSchema "t" fields indices "InnoDB" "utf8mb4_general_ci" "".

Definition int_column (name : string) : Field := mkField name "int(11)" false false "" "".

Definition column_twice : Schema :=
  table [ int_column "a"; mkField "a" "bigint(20)" false false "" "" ] [].

Definition index_twice : Schema :=
  table [ int_column "a"; int_column "b" ]
    [ mkIndex "k" ["a"] false false; mkIndex "k" ["b"] false false ].

Definition two_primaries : Schema :=
  table [ int_column "a"; int_column "b" ]
    [ mkIndex "PRIMARY" ["a"] true false; mkIndex "" ["b"] true false ].

Definition plain_named_primary : Schema :=
  table [ int_column "a" ] [ mkIndex "PRIMARY" ["a"] false false ].

(** [users_db], but it refuses the statement with the empty column list,
    as a server that parses the statement does. *)
Definition parsing_users_db : Scripted :=
  mkScripted (Some ("users", InnoDB))
    (scripted_columns users_db) (scripted_statistics users_db)
    [ "ALTER TABLE `users` ADD KEY `idx_none` )" ].

(** The catalog of [people] with the index [idx_ab] on [(b, a)]. *)
Definition people_db : Scripted :=
  mkScripted (Some ("people", InnoDB))
    [ mkColumnsRow "a" "int(11)" "NO" (Some "0") "" "";
      mkColumnsRow "b" "int(11)" "NO" (Some "0") "" "";
      mkColumnsRow "age" "int(11)" "YES" None "" "" ]
    [ mkStatisticsRow "idx_ab" 1 "b" 1;
      mkStatisticsRow "idx_ab" 2 "a" 1 ]
    [].

(** ** Struct tags (sqlschema.reflect.go)

    The second half of the package derives a [Schema] from the [db] tags of
    a Go struct.  What the code reads through [reflect] is a struct type:
    for each field its name, the [Kind] of its type, for a slice the
    [Kind] of its elements, whether the field is exported, and the value of
    the [db] key of its tag, if there is one. *)

Inductive Kind : Type :=
| reflect_Invalid | reflect_Bool
| reflect_Int | reflect_Int8 | reflect_Int16 | reflect_Int32 | reflect_Int64
| reflect_Uint | reflect_Uint8 | reflect_Uint16 | reflect_Uint32 | reflect_Uint64
| reflect_Uintptr
| reflect_Float32 | reflect_Float64 | reflect_Complex64 | reflect_Complex128
| reflect_Array | reflect_Chan | reflect_Func | reflect_Interface | reflect_Map
| reflect_Pointer | reflect_Slice | reflect_String | reflect_Struct
| reflect_UnsafePointer.

(** [reflect.StructField]: [field.Name], [field.Type.Kind()],
    [field.Type.Elem().Kind()] (only read for a slice), [field.IsExported()]
    and [field.Tag.Lookup("db")]. *)
Record StructField := mkStructField {
  StructField_Name       : string;
  StructField_Kind       : Kind;
  StructField_Elem       : Kind;
  StructField_IsExported : bool;
  StructField_db         : option string
}.

(** The constants of the package. *)
Definition NONE        : Z := 0.
Definition ARRAY       : Z := 1.
Definition JSON        : Z := 2.
Definition YAML        : Z := 3.
Definition INDEX       : Z := 1.
Definition UNIQUE      : Z := 2.
Definition PRIMARY_KEY : Z := 3.

Record dataSchemaField := mkDataSchemaField {
  Name               : string;
  FieldType          : Kind;
  FieldIndex         : nat;
  ColumnName         : string;
  IsPrimaryKey       : bool;
  IsAutoincrement    : bool;
  IsNullable         : bool;
  DataStoreType      : string;
  DefaultValue       : string;
  SerializeMethod    : Z;
  SerializeDelimiter : string;
  IndexType          : Z;
  indexName          : string;
  Comment            : string
}.

(** [Fields] has one entry per field of the struct, [nil] ([None]) for a
    field without [db] tag.  The three components point to the same
    [dataSchemaField] objects, which are not written to once
    [loadDataSchemaInfo] has returned. *)
Record dataSchemaInfo := mkDataSchemaInfo {
  Fields      : list (option dataSchemaField);
  ByColumName : gmap string dataSchemaField;
  AIField     : option dataSchemaField
}.

(** The assignments [field.X = v]. *)
Definition set_ColumnName (v : string) (f : dataSchemaField) : dataSchemaField :=
  mkDataSchemaField (Name f) (FieldType f) (FieldIndex f) v (IsPrimaryKey f)
    (IsAutoincrement f) (IsNullable f) (DataStoreType f) (DefaultValue f)
    (SerializeMethod f) (SerializeDelimiter f) (IndexType f) (indexName f) (Comment f).

Definition set_IsPrimaryKey (v : bool) (f : dataSchemaField) : dataSchemaField :=
  mkDataSchemaField (Name f) (FieldType f) (FieldIndex f) (ColumnName f) v
    (IsAutoincrement f) (IsNullable f) (DataStoreType f) (DefaultValue f)
    (SerializeMethod f) (SerializeDelimiter f) (IndexType f) (indexName f) (Comment f).

Definition set_IsAutoincrement (v : bool) (f : dataSchemaField) : dataSchemaField :=
  mkDataSchemaField (Name f) (FieldType f) (FieldIndex f) (ColumnName f) (IsPrimaryKey f)
    v (IsNullable f) (DataStoreType f) (DefaultValue f)
    (SerializeMethod f) (SerializeDelimiter f) (IndexType f) (indexName f) (Comment f).

Definition set_IsNullable (v : bool) (f : dataSchemaField) : dataSchemaField :=
  mkDataSchemaField (Name f) (FieldType f) (FieldIndex f) (ColumnName f) (IsPrimaryKey f)
    (IsAutoincrement f) v (DataStoreType f) (DefaultValue f)
    (SerializeMethod f) (SerializeDelimiter f) (IndexType f) (indexName f) (Comment f).

Definition set_DataStoreType (v : string) (f : dataSchemaField) : dataSchemaField :=
  mkDataSchemaField (Name f) (FieldType f) (FieldIndex f) (ColumnName f) (IsPrimaryKey f)
    (IsAutoincrement f) (IsNullable f) v (DefaultValue f)
    (SerializeMethod f) (SerializeDelimiter f) (IndexType f) (indexName f) (Comment f).

Definition set_DefaultValue (v : string) (f : dataSchemaField) : dataSchemaField :=
  mkDataSchemaField (Name f) (FieldType f) (FieldIndex f) (ColumnName f) (IsPrimaryKey f)
    (IsAutoincrement f) (IsNullable f) (DataStoreType f) v
    (SerializeMethod f) (SerializeDelimiter f) (IndexType f) (indexName f) (Comment f).

Definition set_SerializeMethod (v : Z) (f : dataSchemaField) : dataSchemaField :=
  mkDataSchemaField (Name f) (FieldType f) (FieldIndex f) (ColumnName f) (IsPrimaryKey f)
    (IsAutoincrement f) (IsNullable f) (DataStoreType f) (DefaultValue f)
    v (SerializeDelimiter f) (IndexType f) (indexName f) (Comment f).

Definition set_SerializeDelimiter (v : string) (f : dataSchemaField) : dataSchemaField :=
  mkDataSchemaField (Name f) (FieldType f) (FieldIndex f) (ColumnName f) (IsPrimaryKey f)
    (IsAutoincrement f) (IsNullable f) (DataStoreType f) (DefaultValue f)
    (SerializeMethod f) v (IndexType f) (indexName f) (Comment f).

Definition set_IndexType (v : Z) (f : dataSchemaField) : dataSchemaField :=
  mkDataSchemaField (Name f) (FieldType f) (FieldIndex f) (ColumnName f) (IsPrimaryKey f)
    (IsAutoincrement f) (IsNullable f) (DataStoreType f) (DefaultValue f)
    (SerializeMethod f) (SerializeDelimiter f) v (indexName f) (Comment f).

Definition set_indexName (v : string) (f : dataSchemaField) : dataSchemaField :=
  mkDataSchemaField (Name f) (FieldType f) (FieldIndex f) (ColumnName f) (IsPrimaryKey f)
    (IsAutoincrement f) (IsNullable f) (DataStoreType f) (DefaultValue f)
    (SerializeMethod f) (SerializeDelimiter f) (IndexType f) v (Comment f).

Definition set_Comment (v : string) (f : dataSchemaField) : dataSchemaField :=
  mkDataSchemaField (Name f) (FieldType f) (FieldIndex f) (ColumnName f) (IsPrimaryKey f)
    (IsAutoincrement f) (IsNullable f) (DataStoreType f) (DefaultValue f)
    (SerializeMethod f) (SerializeDelimiter f) (IndexType f) (indexName f) v.

(** The loop of [escapeOptionParameter] walks the bytes of [p]; the
    argument of the recursion is what is left of [p] at position [i], and
    the result is what the loop writes to [d] from there on.  A backslash
    that has a byte after it copies that byte and skips it; a closing
    parenthesis ends the loop; any other byte, a last backslash included,
    is copied. *)
Fixpoint escapeOptionParameter (p : string) : string :=
  match p with
  | EmptyString => EmptyString
  | String c rest =>
      match rest with
      | String next after =>
          if (c =? "\")%char then String next (escapeOptionParameter after)
          else if (c =? ")")%char then EmptyString
          else String c (escapeOptionParameter rest)
      | EmptyString =>
          if (c =? ")")%char then EmptyString
          else String c EmptyString
      end
  end.

(** [strings.Index(option, "(")] is [index 0 "(" option], with [None]
    for [-1]; [option[:eox]] and [option[eox+1:]] are substrings. *)
Definition parseOption (option : string) : string * string :=
  match index 0 "(" option with
  | None => (option, "")
  | Some eox =>
      (substring 0 eox option,
       escapeOptionParameter (substring (S eox) (String.length option - S eox) option))
  end.

(** [strings.Split(s, sep)] for a separator of one byte: the pieces of
    [s] between the separators, the empty ones included; one empty piece
    for the empty string. *)
Fixpoint strings_Split (s : string) (sep : ascii) : list string :=
  match s with
  | EmptyString => [EmptyString]
  | String c rest =>
      if (c =? sep)%char then EmptyString :: strings_Split rest sep
      else
        match strings_Split rest sep with
        | part :: parts => String c part :: parts
        | [] => [String c EmptyString]
        end
  end.

(** [field.DataStoreType = name], followed by the parameter between
    parentheses or, without parameter, by the default length. *)
Definition sizedType (name param length : string) : string :=
  if negb (param =? "")%string then name +:+ "(" +:+ param +:+ ")"
  else name +:+ length.

(** The [switch option] of [parseFieldTag]. *)
Definition parseFieldTag_option (field : dataSchemaField) (option param : string)
  : dataSchemaField :=
  if (option =? "pk")%string then
    set_indexName "PRIMARY" (set_IndexType PRIMARY_KEY (set_IsPrimaryKey true field))
  else if (option =? "ai")%string then set_IsAutoincrement true field
  else if (option =? "null")%string then set_IsNullable true field
  else if (option =? "unsigned")%string then
    set_DataStoreType (DataStoreType field +:+ " unsigned") field
  else if (option =? "def")%string then set_DefaultValue param field
  else if (option =? "arr")%string then
    set_SerializeDelimiter param (set_SerializeMethod ARRAY field)
  else if (option =? "json")%string then set_SerializeMethod JSON field
  else if (option =? "yaml")%string then set_SerializeMethod YAML field
  else if (option =? "unique")%string then set_indexName param (set_IndexType UNIQUE field)
  else if (option =? "index")%string then set_indexName param (set_IndexType INDEX field)
  else if (option =? "comment")%string then set_Comment param field
  else if (option =? "tinyint")%string then
    set_DataStoreType (sizedType "tinyint" param "(4)") field
  else if (option =? "int")%string then
    set_DataStoreType (sizedType "int" param "(11)") field
  else if (option =? "bigint")%string then
    set_DataStoreType (sizedType "bigint" param "(20)") field
  else if (option =? "float")%string then set_DataStoreType "float" field
  else if (option =? "double")%string then set_DataStoreType "double" field
  else if (option =? "decimal")%string then
    set_DataStoreType (sizedType "decimal" param "(10,0)") field
  else if (option =? "varchar")%string then
    set_DataStoreType (sizedType "varchar" param "(64)") field
  else if (option =? "text")%string then set_DataStoreType "text" field
  else if (option =? "mediumtext")%string then set_DataStoreType "mediumtext" field
  else if (option =? "longtext")%string then set_DataStoreType "longtext" field
  else if (option =? "blob")%string then set_DataStoreType "blob" field
  else if (option =? "mediumblob")%string then set_DataStoreType "mediumblob" field
  else if (option =? "longblob")%string then set_DataStoreType "longblob" field
  else if (option =? "timestamp")%string then set_DataStoreType "timestamp" field
  else if (option =? "datetime")%string then set_DataStoreType "datetime" field
  else field.

(** The body of [for _, p := range parts]. *)
Definition parseFieldTag_part (field : dataSchemaField) (p : string) : dataSchemaField :=
  if (p =? "")%string then field
  else if (ColumnName field =? "")%string then set_ColumnName p field
  else
    let (option, param) := parseOption p in
    parseFieldTag_option field option param.

(** The last statement of [parseFieldTag]. *)
Definition parseFieldTag_indexName (field : dataSchemaField) : dataSchemaField :=
  if negb (IndexType field =? NONE)%Z && (indexName field =? "")%string
  then set_indexName ("idx_" +:+ Name field) field
  else field.

Definition parseFieldTag (field : dataSchemaField) (tag : string) : dataSchemaField :=
  parseFieldTag_indexName (fold_left parseFieldTag_part (strings_Split tag " ") field).

(** The column type for a field whose tag names none
    ([switch field.Type.Kind()] in [loadDataSchemaInfo]). *)
Definition kindStoreType (kind elem : Kind) : string :=
  match kind with
  | reflect_Int8 | reflect_Int16 | reflect_Int32 => "int(11)"
  | reflect_Int | reflect_Int64 => "bigint(20)"
  | reflect_Uint8 | reflect_Uint16 | reflect_Uint32 => "int(11) unsigned"
  | reflect_Uint | reflect_Uint64 => "bigint(20) unsigned"
  | reflect_Float32 => "float"
  | reflect_Float64 => "double"
  | reflect_String => "varchar(64)"
  | reflect_Slice =>
      match elem with
      | reflect_Uint8 => "blob"
      | _ => "mediumtext"
      end
  | _ => "int"
  end.

(** [&dataSchemaField{Name: field.Name, FieldType: field.Type.Kind(), FieldIndex: i}] *)
Definition newDataSchemaField (i : nat) (field : StructField) : dataSchemaField :=
  mkDataSchemaField (StructField_Name field) (StructField_Kind field) i
    "" false false false "" "" 0 "" 0 "" "".

(** What [loadDataSchemaInfo] stores in [info.Fields[i]] for a field that
    carries the tag [tag]. *)
Definition loadDataSchemaInfo_field (i : nat) (field : StructField) (tag : string)
  : dataSchemaField :=
  let f := parseFieldTag (newDataSchemaField i field) tag in
  let f := if (ColumnName f =? "")%string
           then set_ColumnName (StructField_Name field) f else f in
  let f := if (DataStoreType f =? "")%string
           then set_DataStoreType
                  (kindStoreType (StructField_Kind field) (StructField_Elem field)) f
           else f in
  f.

(** [for i := 0; i < fieldCount; i++], from position [i] on. *)
Fixpoint loadDataSchemaInfo_loop (i : nat) (fields : list StructField)
    (info : dataSchemaInfo) : dataSchemaInfo :=
  match fields with
  | [] => info
  | field :: rest =>
      loadDataSchemaInfo_loop (S i) rest
        match StructField_db field with
        | Some tag =>
            let f := loadDataSchemaInfo_field i field tag in
            {| Fields := <[i := Some f]> (Fields info);
               ByColumName := <[ColumnName f := f]> (ByColumName info);
               AIField := if IsAutoincrement f then Some f else AIField info |}
        | None => info
        end
  end.

(** The description of the struct type [v].  The package keeps the
    descriptions in a cache keyed by the type; a description depends on the
    type alone and is never modified, so that the cached description is the
    one computed here. *)
Definition loadDataSchemaInfo (v : list StructField) : dataSchemaInfo :=
  loadDataSchemaInfo_loop 0 v
    {| Fields := replicate (List.length v) None;
       ByColumName := ∅;
       AIField := None |}.

(** The argument [v any] of [GetSchema], as far as the function looks at
    it: a struct of some type, a pointer that is not nil, a nil pointer, or
    a value of another kind. *)
Inductive any : Type :=
| any_struct (type : list StructField)
| any_pointer (target : any)
| any_nil
| any_other.

(** [if v.Kind() == reflect.Ptr && !v.IsNil() { return followPointer(v.Elem()) }; return v] *)
Fixpoint followPointer (v : any) : any :=
  match v with
  | any_pointer target => followPointer target
  | _ => v
  end.

Definition GetSchema_Field (field : dataSchemaField) : Field :=
  {| Field_Name := ColumnName field;
     Field_Type := DataStoreType field;
     Field_Nullable := IsNullable field;
     Field_AutoIncrement := IsAutoincrement field;
     Field_DefaultValue := DefaultValue field;
     Field_Comment := Comment field |}.

Definition GetSchema_Index (field : dataSchemaField) : Index :=
  {| Index_Name := indexName field;
     Index_Columns := [ColumnName field];
     Index_Primary := (IndexType field =? PRIMARY_KEY)%Z;
     Index_Unique := (IndexType field =? UNIQUE)%Z |}.

(** [for j := 0; j < len(ret.Indices); j++]: the column is appended to the
    first index named [name]; [None] when the loop ends without having
    found one. *)
Fixpoint GetSchema_append (indices : list Index) (name column : string)
  : option (list Index) :=
  match indices with
  | [] => None
  | index :: rest =>
      if (Index_Name index =? name)%string
      then Some (appendColumn column index :: rest)
      else option_map (cons index) (GetSchema_append rest name column)
  end.

(** Lines 333-348: the index of a field that belongs to one is the first
    index of that name, or else a new index at the end. *)
Definition GetSchema_index (indices : list Index) (field : dataSchemaField) : list Index :=
  if negb (IndexType field =? NONE)%Z then
    match GetSchema_append indices (indexName field) (ColumnName field) with
    | Some indices => indices
    | None => indices ++ [GetSchema_Index field]
    end
  else indices.

(** The body of [for i := 0; i < len(schema.Fields); i++]. *)
Definition GetSchema_step (ret : Schema) (field : option dataSchemaField) : Schema :=
  match field with
  | None => ret
  | Some field =>
      {| Schema_Name := Schema_Name ret;
         Schema_Fields := Schema_Fields ret ++ [GetSchema_Field field];
         Schema_Indices := GetSchema_index (Schema_Indices ret) field;
         Schema_Engine := Schema_Engine ret;
         Schema_Collate := Schema_Collate ret;
         Schema_Comment := Schema_Comment ret |}
  end.

(** [nil] is [None]. *)
Definition GetSchema (v : any) : option Schema :=
  match followPointer v with
  | any_struct type =>
      Some (fold_left GetSchema_step (Fields (loadDataSchemaInfo type))
              (mkSchema "" [] [] "" "" ""))
  | _ => None
  end.

(** How a parameter is written between the parentheses of an option: a
    backslash before every closing parenthesis and every backslash. *)
Fixpoint quoteOptionParameter (s : string) : string :=
  match s with
  | EmptyString => EmptyString
  | String c rest =>
      if (c =? ")")%char || (c =? "\")%char
      then String "\" (String c (quoteOptionParameter rest))
      else String c (quoteOptionParameter rest)
  end.

(** Whether the byte [c] occurs in [s], and whether [s] holds nothing
    but blanks. *)
Fixpoint hasByte (c : ascii) (s : string) : bool :=
  match s with
  | EmptyString => false
  | String b rest => (b =? c)%char || hasByte c rest
  end.

Fixpoint blank (s : string) : bool :=
  match s with
  | EmptyString => true
  | String b rest => (b =? " ")%char && blank rest
  end.

(** The last byte of a string. *)
Fixpoint lastByte (s : string) : option ascii :=
  match s with
  | EmptyString => None
  | String c EmptyString => Some c
  | String _ rest => lastByte rest
  end.

(** The tagged fields of a struct type as [loadDataSchemaInfo] describes
    them, in the order of the struct. *)
Definition described (v : list StructField) : list dataSchemaField :=
  omap id (imap (fun i field => option_map (loadDataSchemaInfo_field i field)
                                  (StructField_db field)) v).

(** What the loop of [parseFieldTag] keeps true of a field that started
    as [newDataSchemaField i field]. *)
Definition tagInvariant (i : nat) (field : StructField) (f : dataSchemaField) : Prop :=
  Name f = StructField_Name field
  /\ FieldType f = StructField_Kind field
  /\ FieldIndex f = i
  /\ (IndexType f = NONE \/ IndexType f = INDEX \/ IndexType f = UNIQUE
      \/ IndexType f = PRIMARY_KEY)
  /\ (IndexType f = NONE -> indexName f = "")
  /\ (IndexType f = PRIMARY_KEY -> indexName f = "PRIMARY" /\ IsPrimaryKey f = true)
  /\ (SerializeMethod f = NONE \/ SerializeMethod f = ARRAY \/ SerializeMethod f = JSON
      \/ SerializeMethod f = YAML).

(** The fields that belong to the index named [name]. *)
Definition inIndex (name : string) (f : dataSchemaField) : bool :=
  negb (IndexType f =? NONE)%Z && (indexName f =? name)%string.

(** The invariant of the loop of [GetSchema] once the fields [fs] have
    been visited: the names of the indexes are pairwise distinct; an index
    holds the columns of the fields of [fs] that belong to it, in their
    order, and has its kind from the first of them; and every field of
    [fs] that belongs to an index has its index. *)
Definition grouped (fs : list dataSchemaField) (indices : list Index) : Prop :=
  NoDup (map Index_Name indices)
  /\ (forall index, In index indices ->
        exists first others,
          List.filter (inIndex (Index_Name index)) fs = first :: others
          /\ Index_Columns index = map ColumnName (first :: others)
          /\ Index_Primary index = (IndexType first =? PRIMARY_KEY)%Z
          /\ Index_Unique index = (IndexType first =? UNIQUE)%Z)
  /\ (forall f, In f fs -> IndexType f <> NONE ->
        exists index, In index indices /\ Index_Name index = indexName f).

(** The struct of the package's own test: nine tagged fields. *)
Definition tagged (name : string) (kind : Kind) (tag : string) : StructField :=
  mkStructField name kind reflect_Invalid true (Some tag).

Definition test_struct : list StructField :=
  [ tagged "ID" reflect_Int "id pk ai int(11)";
    tagged "Name" reflect_String "name unique varchar(255)";
    tagged "Age" reflect_Int "age def(0) int(11)";
    tagged "Idx1" reflect_Int "idx1 unique(idx)";
    tagged "Idx2" reflect_Int "idx2 unique(idx)";
    tagged "Comment" reflect_String "comment null";
    mkStructField "Arr" reflect_Slice reflect_String true (Some "arr text arr(,)");
    tagged "Json" reflect_Map "json text json";
    tagged "Yaml" reflect_Map "yaml text yaml" ].

(** The schema that [GetSchema] derives from that struct. *)
Definition test_schema : Schema :=
  {| Schema_Name := "";
     Schema_Fields :=
       [ mkField "id" "int(11)" false true "" "";
         mkField "name" "varchar(255)" false false "" "";
         mkField "age" "int(11)" false false "0" "";
         mkField "idx1" "bigint(20)" false false "" "";
         mkField "idx2" "bigint(20)" false false "" "";
         mkField "comment" "varchar(64)" true false "" "";
         mkField "arr" "text" false false "" "";
         mkField "json" "text" false false "" "";
         mkField "yaml" "text" false false "" "" ];
     Schema_Indices :=
       [ mkIndex "PRIMARY" ["id"] true false;
         mkIndex "idx_Name" ["name"] false true;
         mkIndex "idx" ["idx1"; "idx2"] false true ];
     Schema_Engine := "";
     Schema_Collate := "";
     Schema_Comment := "" |}.

(** ** Rows of a table (Insert and Update of sqlschema.reflect.go)

    [Insert] and [Update] build a statement and its arguments from the
    description of a struct type and from the values of the fields.  The
    statement and the arguments are modelled up to the call of
    [db.ExecContext].  The values of the fields belong to a type [value]
    that is left open, with the type assertion [x.([]string)], the
    conversion of a Go string to an interface value, and the two
    marshalling functions, whose errors the code drops.  The sentinel
    [ErrUnknownColumn] is declared outside the files modelled here. *)

(** [sql[:len(sql)-n]]: panics when [sql] is shorter than [n]. *)
Definition cutLast (n : nat) (sql : string) : outcome string :=
  if (n <=? String.length sql)%nat
  then Value (substring 0 (String.length sql - n) sql)
  else Panic.

Section Rows.
Variable value : Type.
Variable assertStrings : value -> option (list string).
Variable ofString : string -> value.
Variable json_Marshal : value -> outcome string.
Variable yaml_Marshal : value -> outcome string.
Variable ErrUnknownColumn : error.

(** The struct that [followPointer] has reached: its type and the values
    of its fields. *)
Record Struct := mkStruct {
  Struct_Type   : list StructField;
  Struct_Fields : list value
}.

(** [elem.Field(i).Interface()]: panics when there is no field [i] and
    when the field is not exported. *)
Definition Field_Interface (elem : Struct) (i : nat) : outcome value :=
  match Struct_Type elem !! i, Struct_Fields elem !! i with
  | Some field, Some x => if StructField_IsExported field then Value x else Panic
  | _, _ => Panic
  end.

(** [b, _ := Marshal(x); string(b)]: the error is dropped, and [b] is then
    empty. *)
Definition marshalled (m : outcome string) : outcome string :=
  match m with
  | Value b => Value b
  | Failure _ => Value ""
  | Panic => Panic
  end.

(** The [switch field.SerializeMethod] of [Insert] and of [Update]: the
    argument that stands for the field. *)
Definition serialized (elem : Struct) (field : dataSchemaField) : outcome value :=
  if (SerializeMethod field =? NONE)%Z then
    Field_Interface elem (FieldIndex field)
  else if (SerializeMethod field =? ARRAY)%Z then
    let* x := Field_Interface elem (FieldIndex field) in
    match assertStrings x with
    | Some a => Value (ofString (join (SerializeDelimiter field) a))
    | None => Panic
    end
  else if (SerializeMethod field =? JSON)%Z then
    let* x := Field_Interface elem (FieldIndex field) in
    let* b := marshalled (json_Marshal x) in
    Value (ofString b)
  else if (SerializeMethod field =? YAML)%Z then
    let* x := Field_Interface elem (FieldIndex field) in
    let* b := marshalled (yaml_Marshal x) in
    Value (ofString b)
  else Value (ofString "").

(** [Insert], lines 366-387: [field.IsAutoincrement] on a [nil] entry of
    [schema.Fields] is a nil dereference. *)
Fixpoint Insert_loop (elem : Struct) (fields : list (option dataSchemaField))
    (columns values : list string) (args : list value)
  : outcome (list string * list string * list value) :=
  match fields with
  | [] => Value (columns, values, args)
  | None :: _ => Panic
  | Some field :: rest =>
      if IsAutoincrement field then Insert_loop elem rest columns values args
      else
        let* arg := serialized elem field in
        Insert_loop elem rest (columns ++ [ColumnName field]) (values ++ ["?"])
          (args ++ [arg])
  end.

(** The statement and the arguments that [Insert] hands to
    [db.ExecContext] (line 389). *)
Definition Insert_sql (table : string) (elem : Struct) : outcome (string * list value) :=
  let schema := loadDataSchemaInfo (Struct_Type elem) in
  match Insert_loop elem (Fields schema) [] [] [] with
  | Value (columns, values, args) =>
      Value ("INSERT INTO `" +:+ table +:+ "` (`" +:+ join "`,`" columns
               +:+ "`) VALUES (" +:+ join "," values +:+ ")",
             args)
  | Failure e => Failure e
  | Panic => Panic
  end.

(** [Update], lines 417-422: the columns to set when the caller names
    none. *)
Fixpoint Update_columns (fields : list (option dataSchemaField)) (columns : list string)
  : outcome (list string) :=
  match fields with
  | [] => Value columns
  | None :: _ => Panic
  | Some field :: rest =>
      if IsPrimaryKey field || IsAutoincrement field then Update_columns rest columns
      else Update_columns rest (columns ++ [ColumnName field])
  end.

(** Lines 425-430. *)
Fixpoint Update_pks (fields : list (option dataSchemaField)) (pks : list dataSchemaField)
  : outcome (list dataSchemaField) :=
  match fields with
  | [] => Value pks
  | None :: _ => Panic
  | Some field :: rest =>
      if IsPrimaryKey field then Update_pks rest (pks ++ [field])
      else Update_pks rest pks
  end.

(** Lines 434-455. *)
Fixpoint Update_set (schema : dataSchemaInfo) (elem : Struct) (columns : list string)
    (sql : string) (args : list value) : outcome (string * list value) :=
  match columns with
  | [] => Value (sql, args)
  | colName :: rest =>
      let sql := sql +:+ "`" +:+ colName +:+ "`=?," in
      match ByColumName schema !! colName with
      | None => Failure (Wrap ErrUnknownColumn ("Unknown column " +:+ colName))
      | Some field =>
          let* arg := serialized elem field in
          Update_set schema elem rest sql (args ++ [arg])
      end
  end.

(** Lines 458-461. *)
Fixpoint Update_where (elem : Struct) (pks : list dataSchemaField)
    (sql : string) (args : list value) : outcome (string * list value) :=
  match pks with
  | [] => Value (sql, args)
  | pk :: rest =>
      let sql := sql +:+ "`" +:+ ColumnName pk +:+ "`=? and " in
      let* arg := Field_Interface elem (FieldIndex pk) in
      Update_where elem rest sql (args ++ [arg])
  end.

(** The statement and the arguments that [Update] hands to
    [db.ExecContext] (line 464). *)
Definition Update_sql (table : string) (columns : list string) (elem : Struct)
  : outcome (string * list value) :=
  let schema := loadDataSchemaInfo (Struct_Type elem) in
  let* columns :=
    if (List.length columns =? 0)%nat then Update_columns (Fields schema) []
    else Value columns in
  let* pks := Update_pks (Fields schema) [] in
  let sql := "update `" +:+ table +:+ "` set " in
  let* set := Update_set schema elem columns sql [] in
  let* sql := trimLast (fst set) in
  let sql := sql +:+ " where " in
  let* found := Update_where elem pks sql (snd set) in
  let* sql := cutLast 5 (fst found) in
  Value (sql, snd found).

End Rows.

Arguments mkStruct {value}.
Arguments Struct_Type {value}.
Arguments Struct_Fields {value}.
Arguments Field_Interface {value}.
Arguments Update_where {value}.

(** The statements of [Insert] and [Update] as they read: every column
    between backticks, a question mark for every argument.  Without any
    column [Insert] writes a pair of backticks; [Update] without primary
    key cuts the five last bytes off [ where ], which leaves [ w]. *)
Definition assignment (column : string) : string := quote column +:+ "=?".

Definition insertStatement (table : string) (columns : list string) : string :=
  "INSERT INTO " +:+ quote table +:+ " ("
    +:+ match columns with
        | [] => "``"
        | _ => join "," (map quote columns)
        end
    +:+ ") VALUES (" +:+ join "," (map (fun _ => "?") columns) +:+ ")".

Definition updateStatement (table : string) (columns pks : list string) : string :=
  "update " +:+ quote table +:+ " set"
    +:+ match columns with
        | [] => ""
        | _ => " " +:+ join "," (map assignment columns)
        end
    +:+ match pks with
        | [] => " w"
        | _ => " where " +:+ join " and " (map assignment pks)
        end.

(** [ScanRrow], line 518: [a := strings.Split(sfi.data, sfi.field.SerializeDelimiter)],
    for a delimiter of one byte ([None] stands for the other delimiters,
    which are not modelled). *)
Definition ScanRrow_Split (field : dataSchemaField) (data : string) : option (list string) :=
  match SerializeDelimiter field with
  | String sep EmptyString => Some (strings_Split data sep)
  | _ => None
  end.

(** Every item followed by the separator. *)
Definition followed (sep : string) (items : list string) : string :=
  fold_right (fun item rest => item +:+ sep +:+ rest) "" items.

(** A struct of the type [test_struct] whose fields hold strings, and the
    operations on its values. *)
Definition test_row : Struct string :=
  mkStruct test_struct ["1"; "foo"; "10"; "1"; "2"; ""; "a,b,c"; "{}"; "{}"].

Definition test_strings (x : string) : option (list string) := Some (strings_Split x ",").

Definition test_Marshal (x : string) : outcome string := Value x.

Definition test_ErrUnknownColumn : error := DriverError "unknown column".

(** A struct in which two fields share the column [x] and two fields are
    marked [ai]. *)
Definition shadowed_struct : list StructField :=
  [ tagged "A" reflect_Int "x";
    tagged "B" reflect_Int "x ai";
    tagged "C" reflect_Int "y ai" ].

(** ** What the index loop of ReadFromDB has built

    Once the catalog rows [seen] have been scanned, every index holds the
    columns of the rows of [seen] that carry its name, in their order,
    and is unique when it is not the primary key and its first row says
    so; and every row of [seen] has its index. *)
Definition rowsGrouped (seen : list StatisticsRow) (indexs : list Index) : Prop :=
  (forall index, In index indexs ->
     exists first others,
       List.filter (fun r => (INDEX_NAME r =? Index_Name index)%string) seen = first :: others
       /\ Index_Columns index = map INDEX_COLUMN (first :: others)
       /\ Index_Unique index
          = negb (Index_Name index =? "PRIMARY")%string && (NON_UNIQUE first =? 0)%Z)
  /\ (forall r, In r seen -> exists index, In index indexs /\ Index_Name index = INDEX_NAME r).

(** A database that cannot be reached: every call fails. *)
Inductive Offline : Type := offline.

#[global] Instance Offline_Database : Database Offline := {|
  QueryRow_DATABASE _ := inl (DriverError "connection refused");
  QueryRow_TABLES _ _ _ := inl (DriverError "connection refused");
  Query_COLUMNS _ _ _ := inl (DriverError "connection refused");
  Query_STATISTICS _ _ _ := inl (DriverError "connection refused");
  ExecContext db _ := (db, Some (DriverError "connection refused"))
|}.

(** [users_db], but it refuses the statement that adds the column [age]. *)
Definition users_with_age : Schema :=
  {| Schema_Name := "users";
     Schema_Fields := Schema_Fields users ++ [ mkField "age" "int(11)" false false "0" "";
                                               mkField "city" "varchar(64)" true false "" "" ];
     Schema_Indices := Schema_Indices users;
     Schema_Engine := "InnoDB";
     Schema_Collate := "utf8mb4_general_ci";
     Schema_Comment := "members" |}.

Definition strict_users_db : Scripted :=
  mkScripted (Some ("users", InnoDB))
    (scripted_columns users_db) (scripted_statistics users_db)
    [ "ALTER TABLE `users` ADD `age` int(11) NOT NULL DEFAULT 0" ].

(** * Properties *)

(** ** Strings *)

Lemma append_nil_l (t : string) : "" +:+ t = t.
Proof. reflexivity. Qed.

Lemma append_String (c : ascii) (s t : string) : String c s +:+ t = String c (s +:+ t).
Proof. reflexivity. Qed.

Lemma append_nil_r (s : string) : s +:+ "" = s.
Proof. induction s as [|c s IH]; [reflexivity|]. rewrite append_String, IH. reflexivity. Qed.

Lemma append_assoc (s t u : string) : (s +:+ t) +:+ u = s +:+ (t +:+ u).
Proof.
  induction s as [|c s IH]; [reflexivity|].
  rewrite !append_String, IH. reflexivity.
Qed.

Create Rewrite HintDb str.
#[global] Hint Rewrite append_assoc append_String append_nil_l append_nil_r : str.

(** Both sides are brought to the same right-nested form. *)
Ltac str_eq := autorewrite with str; reflexivity.

Lemma eqb_String_nil (c : ascii) (s : string) : (String c s =? "")%string = false.
Proof. reflexivity. Qed.

Lemma substring_0_length (s t : string) : substring 0 (String.length s) (s +:+ t) = s.
Proof.
  induction s as [|c s IH].
  - destruct t; reflexivity.
  - rewrite append_String. simpl. rewrite IH. reflexivity.
Qed.

Lemma length_append (s t : string) :
  String.length (s +:+ t) = (String.length s + String.length t)%nat.
Proof.
  induction s as [|c s IH]; [reflexivity|].
  rewrite append_String. simpl. rewrite IH. reflexivity.
Qed.

(** [sql[:len(sql)-1]] takes back the last byte appended. *)
Lemma trimLast_snoc (s : string) (c : ascii) : trimLast (s +:+ String c "") = Value s.
Proof.
  unfold trimLast. rewrite length_append. simpl.
  replace (String.length s + 1)%nat with (S (String.length s)) by lia.
  rewrite substring_0_length. reflexivity.
Qed.

(** ** Lookups *)

Lemma Field_loop_find (fields : list Field) (name : string) :
  Field_loop fields name = find (fun field => (Field_Name field =? name)%string) fields.
Proof.
  induction fields as [|field rest IH]; simpl; [reflexivity|].
  destruct (Field_Name field =? name)%string; [reflexivity|exact IH].
Qed.

Lemma Index_loop_find (indices : list Index) (name : string) :
  Index_loop indices name = find (Index_matches name) indices.
Proof.
  induction indices as [|index rest IH]; simpl; [reflexivity|].
  destruct (Index_matches name index); [reflexivity|exact IH].
Qed.

Lemma find_None_existsb {A : Type} (p : A -> bool) (l : list A) :
  find p l = None <-> existsb p l = false.
Proof.
  induction l as [|x l IH]; simpl; [tauto|].
  destruct (p x); simpl; [split; discriminate|exact IH].
Qed.

Lemma Schema_Field_None (sc : Schema) (name : string) :
  Schema_Field sc name = None <-> hasField sc name = false.
Proof. unfold Schema_Field, hasField. rewrite Field_loop_find. apply find_None_existsb. Qed.

Lemma Schema_Index_None (sc : Schema) (name : string) :
  Schema_Index sc name = None <-> hasIndex sc name = false.
Proof.
  unfold Schema_Index, hasIndex, indexKey. rewrite Index_loop_find. apply find_None_existsb.
Qed.

(** With pairwise distinct names, a field is found under its own name. *)
Lemma Field_loop_self (fields : list Field) (field : Field) :
  NoDup (map Field_Name fields) -> In field fields ->
  Field_loop fields (Field_Name field) = Some field.
Proof.
  induction fields as [|f rest IH]; simpl; intros ND HIn; [contradiction|].
  apply NoDup_cons in ND as [Hnot ND].
  destruct HIn as [->|HIn].
  - rewrite String.eqb_refl. reflexivity.
  - destruct (String.eqb_spec (Field_Name f) (Field_Name field)) as [E|_].
    + exfalso. apply Hnot. rewrite E. apply list_elem_of_In, in_map, HIn.
    + apply IH; assumption.
Qed.

(** ** Field.Equal *)

Lemma Field_Equal_sameField (fd other : Field) :
  Field_Equal fd other = true <-> sameField fd other.
Proof.
  unfold Field_Equal, sameField, normalizeDefault.
  destruct (String.eqb_spec (Field_Name fd) (Field_Name other)); simpl;
    [|split; [discriminate|tauto]].
  destruct (String.eqb_spec (Field_Type fd) (Field_Type other)); simpl;
    [|split; [discriminate|tauto]].
  destruct (Bool.eqb_spec (Field_Nullable fd) (Field_Nullable other)); simpl;
    [|split; [discriminate|tauto]].
  destruct (Bool.eqb_spec (Field_AutoIncrement fd) (Field_AutoIncrement other)); simpl;
    [|split; [discriminate|tauto]].
  destruct (String.eqb_spec
              (if (Field_DefaultValue fd =? "NULL")%string then "" else Field_DefaultValue fd)
              (if (Field_DefaultValue other =? "NULL")%string then ""
               else Field_DefaultValue other)); simpl;
    [|split; [discriminate|tauto]].
  destruct (String.eqb_spec (Field_Comment fd) (Field_Comment other)); simpl;
    [tauto|split; [discriminate|tauto]].
Qed.

Lemma Field_Equal_refl (field : Field) : Field_Equal field field = true.
Proof. apply Field_Equal_sameField. unfold sameField. tauto. Qed.

(** ** Index.Equal *)

Lemma Equal_loop_from (columns other before : list string) :
  List.length columns = List.length other ->
  Equal_loop (List.length before) columns (before ++ other)
  = Some (bool_decide (columns = other)).
Proof.
  revert other before.
  induction columns as [|column rest IH]; intros [|c other] before Hlen;
    simpl in Hlen; try discriminate.
  - reflexivity.
  - simpl. rewrite nth_error_app2 by lia. rewrite Nat.sub_diag. simpl.
    destruct (String.eqb_spec column c) as [->|Hne]; simpl.
    + replace (before ++ c :: other) with ((before ++ [c]) ++ other)
        by (rewrite <- app_assoc; reflexivity).
      replace (S (List.length before)) with (List.length (before ++ [c]))
        by (rewrite length_app; simpl; lia).
      rewrite IH by lia.
      f_equal. apply bool_decide_ext. split; intros E; [f_equal; exact E|].
      injection E as E. exact E.
    + f_equal. symmetry. apply bool_decide_eq_false. intros E. injection E as E _.
      contradiction.
Qed.

Lemma Index_Equal_sameIndexb (idx other : Index) :
  Index_Equal idx other = Some (sameIndexb idx other).
Proof.
  unfold Index_Equal, sameIndexb.
  destruct (Bool.eqb (Index_Primary idx) (Index_Primary other)); simpl; [|reflexivity].
  destruct (Index_Primary idx); simpl.
  - destruct (Bool.eqb (Index_Unique idx) (Index_Unique other)); simpl; [|reflexivity].
    destruct (Nat.eqb_spec (List.length (Index_Columns idx))
                (List.length (Index_Columns other))) as [Hlen|Hlen]; simpl.
    + apply (Equal_loop_from _ _ [] Hlen).
    + f_equal. symmetry. apply bool_decide_eq_false. intros E. rewrite E in Hlen.
      contradiction.
  - destruct (Index_Name idx =? Index_Name other)%string; simpl; [|reflexivity].
    destruct (Bool.eqb (Index_Unique idx) (Index_Unique other)); simpl; [|reflexivity].
    destruct (Nat.eqb_spec (List.length (Index_Columns idx))
                (List.length (Index_Columns other))) as [Hlen|Hlen]; simpl.
    + apply (Equal_loop_from _ _ [] Hlen).
    + f_equal. symmetry. apply bool_decide_eq_false. intros E. rewrite E in Hlen.
      contradiction.
Qed.

Lemma sameIndexb_sameIndex (idx other : Index) :
  sameIndexb idx other = true <-> sameIndex idx other.
Proof.
  unfold sameIndexb, sameIndex.
  rewrite !andb_true_iff, orb_true_iff, !Bool.eqb_true_iff, String.eqb_eq,
    bool_decide_eq_true.
  destruct (Index_Primary idx); intuition congruence.
Qed.

Lemma sameIndexb_refl (index : Index) : sameIndexb index index = true.
Proof. apply sameIndexb_sameIndex. unfold sameIndex. tauto. Qed.

(** ** Comma-separated lists *)

Lemma terminated_app (xs ys : list string) :
  terminated (xs ++ ys) = terminated xs +:+ terminated ys.
Proof.
  induction xs as [|x xs IH]; simpl; [reflexivity|].
  rewrite IH. str_eq.
Qed.

Lemma terminated_join (x : string) (xs : list string) :
  terminated (x :: xs) = join "," (x :: xs) +:+ ",".
Proof.
  revert x. induction xs as [|y ys IH]; intros x.
  - simpl. str_eq.
  - change (terminated (x :: y :: ys)) with (x +:+ "," +:+ terminated (y :: ys)).
    rewrite IH. simpl. str_eq.
Qed.

(** Cutting the last byte after the loop leaves the comma-joined list, or
    eats the opening parenthesis when the list is empty. *)
Lemma trimLast_terminated (head : string) (items : list string) :
  exists body,
    trimLast (head +:+ "(" +:+ terminated items) = Value (head +:+ body)
    /\ body +:+ ")" = parenthesised items.
Proof.
  destruct items as [|x xs].
  - exists "". split; [|reflexivity].
    simpl. autorewrite with str. apply trimLast_snoc.
  - exists ("(" +:+ join "," (x :: xs)). split; [|reflexivity].
    rewrite terminated_join.
    replace (head +:+ "(" +:+ join "," (x :: xs) +:+ ",")
      with ((head +:+ "(" +:+ join "," (x :: xs)) +:+ ",") by str_eq.
    apply trimLast_snoc.
Qed.

Lemma columns_loop_sql_terminated (columns : list string) (sql : string) :
  columns_loop_sql columns sql = sql +:+ terminated (map quote columns).
Proof.
  unfold columns_loop_sql. revert sql.
  induction columns as [|column rest IH]; intros sql; simpl.
  - rewrite append_nil_r. reflexivity.
  - rewrite IH. unfold quote. str_eq.
Qed.

(** The column loop followed by [sql[:len(sql)-1]], for a statement head
    that ends with the opening parenthesis. *)
Lemma columns_trimmed (head : string) (columns : list string) :
  exists body,
    trimLast (columns_loop_sql columns (head +:+ "(")) = Value (head +:+ body)
    /\ body +:+ ")" = parenthesised (map quote columns).
Proof.
  rewrite columns_loop_sql_terminated.
  destruct (trimLast_terminated head (map quote columns)) as (body & E & Hbody).
  exists body. split; [|exact Hbody].
  rewrite <- E. f_equal. str_eq.
Qed.

(** ** The text of the statements *)

Section Text.
Variable escape : string -> string.

Lemma columnOptions_columnDef (head : string) (field : Field) :
  columnOptions escape (head +:+ Field_Type field) field = head +:+ columnDef escape field.
Proof.
  unfold columnOptions, columnDef, literal.
  destruct (Field_Nullable field), (Field_AutoIncrement field),
    (Field_DefaultValue field =? "")%string, (Field_Comment field =? "")%string;
    simpl; str_eq.
Qed.

Lemma Create_fields_terminated (fields : list Field) (sql : string) :
  Create_fields escape fields sql = sql +:+ terminated (map (columnClause escape) fields).
Proof.
  unfold Create_fields. revert sql.
  induction fields as [|field rest IH]; intros sql; simpl.
  - rewrite append_nil_r. reflexivity.
  - rewrite IH.
    replace (sql +:+ "`" +:+ Field_Name field +:+ "` " +:+ Field_Type field)
      with ((sql +:+ "`" +:+ Field_Name field +:+ "` ") +:+ Field_Type field) by str_eq.
    rewrite columnOptions_columnDef. unfold columnClause, quote. str_eq.
Qed.

Lemma Create_index_head (index : Index) (sql : string) :
  (if Index_Primary index then sql +:+ "PRIMARY KEY ("
   else if Index_Unique index then sql +:+ "UNIQUE KEY `" +:+ Index_Name index +:+ "` ("
   else sql +:+ "KEY `" +:+ Index_Name index +:+ "` (")
  = (sql +:+ indexKind index) +:+ "(".
Proof.
  unfold indexKind, quote.
  destruct (Index_Primary index), (Index_Unique index); str_eq.
Qed.

Lemma Create_indices_terminated (indices : list Index) (sql : string) :
  Create_indices indices sql = Value (sql +:+ terminated (map indexClause indices)).
Proof.
  revert sql.
  induction indices as [|index rest IH]; intros sql; simpl.
  - rewrite append_nil_r. reflexivity.
  - rewrite Create_index_head.
    destruct (columns_trimmed (sql +:+ indexKind index) (Index_Columns index))
      as (body & E & Hbody).
    rewrite E. unfold bind. rewrite IH. f_equal.
    unfold indexClause. rewrite <- Hbody. str_eq.
Qed.

Lemma tableOptions_appended (sql : string) (sc : Schema) :
  (let sql := if negb (Schema_Engine sc =? "")%string
              then sql +:+ " ENGINE=" +:+ Schema_Engine sc else sql in
   let sql := if negb (Schema_Collate sc =? "")%string
              then sql +:+ " COLLATE=" +:+ Schema_Collate sc else sql in
   let sql := if negb (Schema_Comment sc =? "")%string
              then sql +:+ " COMMENT='" +:+ escape (Schema_Comment sc) +:+ "'" else sql in
   sql) = sql +:+ tableOptions escape sc.
Proof.
  unfold tableOptions, literal.
  destruct (Schema_Engine sc =? "")%string, (Schema_Collate sc =? "")%string,
    (Schema_Comment sc =? "")%string; simpl; str_eq.
Qed.

(** [Create] builds exactly the statement of the specification, and its
    two [sql[:len(sql)-1]] never panic. *)
Lemma Create_sql_createStatement (sc : Schema) :
  Create_sql escape sc = Value (createStatement escape sc).
Proof.
  unfold Create_sql.
  rewrite Create_fields_terminated, Create_indices_terminated.
  destruct (trimLast_terminated ("CREATE TABLE IF NOT EXISTS " +:+ quote (Schema_Name sc) +:+ " ")
              (map (columnClause escape) (Schema_Fields sc)
                 ++ map indexClause (Schema_Indices sc))) as (body & E & Hbody).
  rewrite terminated_app in E.
  unfold bind at 1.
  replace ((("CREATE TABLE IF NOT EXISTS `" +:+ Schema_Name sc +:+ "` (")
              +:+ terminated (map (columnClause escape) (Schema_Fields sc)))
             +:+ terminated (map indexClause (Schema_Indices sc)))
    with (("CREATE TABLE IF NOT EXISTS " +:+ quote (Schema_Name sc) +:+ " ") +:+ "("
            +:+ terminated (map (columnClause escape) (Schema_Fields sc))
            +:+ terminated (map indexClause (Schema_Indices sc)))
    by (unfold quote; str_eq).
  rewrite E. unfold bind. f_equal.
  rewrite tableOptions_appended. unfold createStatement. rewrite <- Hbody. str_eq.
Qed.

End Text.

Lemma eqb_append_nonempty (c : ascii) (s t : string) :
  (String c s +:+ t =? "")%string = false.
Proof. reflexivity. Qed.

(** ** Running statements *)

Section Run.
Context {DB : Type} `{Database DB}.
Variable escape : string -> string.

Lemma andThen_skip_r (a : action DB) (w : world DB) : andThen a skip w = a w.
Proof.
  unfold andThen, skip. destruct (a w) as [w' [[]| |]]; reflexivity.
Qed.

Lemma andThen_assoc (a b c : action DB) (w : world DB) :
  andThen (andThen a b) c w = andThen a (andThen b c) w.
Proof.
  unfold andThen. destruct (a w) as [w' [[]| |]]; reflexivity.
Qed.

Lemma andThen_ext (a a' b b' : action DB) :
  (forall w, a w = a' w) -> (forall w, b w = b' w) ->
  forall w, andThen a b w = andThen a' b' w.
Proof.
  intros Ha Hb w. unfold andThen. rewrite Ha.
  destruct (a' w) as [w' [[]| |]]; [apply Hb|reflexivity|reflexivity].
Qed.

Lemma runStatements_one (s : string) (w : world DB) : runStatements [s] w = exec s w.
Proof. unfold runStatements. simpl. apply andThen_skip_r. Qed.

Lemma runStatements_app (l1 l2 : list string) (w : world DB) :
  runStatements (l1 ++ l2) w = andThen (runStatements l1) (runStatements l2) w.
Proof.
  revert w. induction l1 as [|s l1 IH]; intros w; [reflexivity|].
  change (andThen (exec s) (runStatements (l1 ++ l2)) w
          = andThen (andThen (exec s) (runStatements l1)) (runStatements l2) w).
  rewrite andThen_assoc. apply andThen_ext; [reflexivity|exact IH].
Qed.

(** A loop whose body runs at most one statement runs, in order, the
    statements of the elements that have one. *)
Lemma forRange_omap {A : Type} (statement : A -> option string)
    (body : A -> action DB) (l : list A) :
  (forall x w, body x w = runStatements (option_list (statement x)) w) ->
  forall w, forRange l body w = runStatements (omap statement l) w.
Proof.
  intros Hbody. induction l as [|x l IH]; intros w; [reflexivity|].
  simpl. destruct (statement x) as [s|] eqn:E.
  - change (andThen (body x) (forRange l body) w
            = andThen (exec s) (runStatements (omap statement l)) w).
    apply andThen_ext; [|exact IH].
    intros w0. rewrite Hbody, E. apply runStatements_one.
  - transitivity (andThen skip (forRange l body) w); [|apply IH].
    apply andThen_ext; [|reflexivity].
    intros w0. rewrite Hbody, E. reflexivity.
Qed.

Lemma forRange_filter {A : Type} (keep : A -> bool) (statement : A -> string)
    (body : A -> action DB) (l : list A) :
  (forall x w, body x w = if keep x then exec (statement x) w else skip w) ->
  forall w, forRange l body w = runStatements (map statement (List.filter keep l)) w.
Proof.
  intros Hbody. induction l as [|x l IH]; intros w; [reflexivity|].
  simpl. destruct (keep x) eqn:E.
  - change (andThen (body x) (forRange l body) w
            = andThen (exec (statement x))
                (runStatements (map statement (List.filter keep l))) w).
    apply andThen_ext; [|exact IH].
    intros w0. rewrite Hbody, E. reflexivity.
  - transitivity (andThen skip (forRange l body) w); [|apply IH].
    apply andThen_ext; [|reflexivity].
    intros w0. rewrite Hbody, E. reflexivity.
Qed.

(** What a run leaves in the trace: the statements up to the first one
    that fails, all of them when none fails; a run never panics. *)
Lemma runStatements_trace (l : list string) (w : world DB) :
  exists done rest,
    l = done ++ rest
    /\ executed (fst (runStatements l w)) = executed w ++ done
    /\ snd (runStatements l w) <> Panic
    /\ (snd (runStatements l w) = Value tt -> rest = []).
Proof.
  revert w. induction l as [|s l IH]; intros w.
  - exists [], []. simpl. rewrite app_nil_r.
    split; [reflexivity|]. split; [reflexivity|]. split; [discriminate|reflexivity].
  - assert (runStatements (s :: l) w
            = match ExecContext (conn w) s with
              | (db', Some e) => (mkWorld db' (executed w ++ [s]), Failure e)
              | (db', None) => runStatements l (mkWorld db' (executed w ++ [s]))
              end) as ->.
    { unfold runStatements. simpl. unfold andThen, exec.
      destruct (ExecContext (conn w) s) as [db' [e|]]; reflexivity. }
    destruct (ExecContext (conn w) s) as [db' [e|]]; simpl.
    + exists [s], l.
      split; [reflexivity|]. split; [reflexivity|]. split; discriminate.
    + destruct (IH (mkWorld db' (executed w ++ [s]))) as (done & rest & -> & Ht & Hp & Hv).
      exists (s :: done), rest. simpl in Ht.
      split; [reflexivity|]. split; [|split; [exact Hp|exact Hv]].
      rewrite Ht, <- app_assoc. reflexivity.
Qed.

(** A run fails only with an error that [ExecContext] returned for one of
    its statements. *)
Lemma runStatements_failure (l : list string) (w : world DB) (e : error) :
  snd (runStatements l w) = Failure e ->
  exists db sql, In sql l /\ snd (ExecContext db sql) = Some e.
Proof.
  revert w. induction l as [|s l IH]; intros w; [discriminate|].
  unfold runStatements. simpl. unfold andThen, exec.
  destruct (ExecContext (conn w) s) as [db' [e'|]] eqn:E; simpl.
  - intros [= <-]. exists (conn w), s. split; [left; reflexivity|]. rewrite E. reflexivity.
  - intros Hrest. destruct (IH _ Hrest) as (db & sql & HIn & Hsql).
    exists db, sql. split; [right; exact HIn|exact Hsql].
Qed.

(** ** The steps of Update *)

Lemma Update_attributes_attributeChange (D A : Schema) (w : world DB) :
  Update_attributes escape D A w = runStatements (attributeChange escape D A) w.
Proof.
  unfold Update_attributes, attributeChange, changedAttributes, alter, literal, quote.
  destruct (Schema_Engine D =? Schema_Engine A)%string,
    (Schema_Collate D =? Schema_Collate A)%string,
    (Schema_Comment D =? Schema_Comment A)%string;
    cbn [negb andb]; try reflexivity;
    autorewrite with str; rewrite eqb_String_nil; cbn [negb];
    rewrite runStatements_one; f_equal; str_eq.
Qed.

Lemma Update_dropField_fieldDrop (D : Schema) (field : Field) (w : world DB) :
  Update_dropField D field w
  = if negb (hasField D (Field_Name field))
    then exec (dropFieldStatement D field) w else skip w.
Proof.
  unfold Update_dropField.
  destruct (Schema_Field D (Field_Name field)) as [fd|] eqn:E.
  - destruct (hasField D (Field_Name field)) eqn:Hh; [reflexivity|].
    apply Schema_Field_None in Hh. congruence.
  - apply Schema_Field_None in E. rewrite E. simpl.
    f_equal. unfold dropFieldStatement, alter, quote. str_eq.
Qed.

Lemma Update_field_fieldStatement (D A : Schema) (field : Field) (w : world DB) :
  Update_field escape D A field w
  = runStatements (option_list (fieldStatement escape D A field)) w.
Proof.
  unfold Update_field, fieldStatement.
  destruct (Schema_Field A (Field_Name field)) as [fd|].
  - destruct (Field_Equal fd field); cbn [negb]; [reflexivity|].
    rewrite eqb_append_nonempty. cbn [negb option_list option_rect].
    rewrite runStatements_one. f_equal.
    replace ("ALTER TABLE `" +:+ Schema_Name D +:+ "` MODIFY `" +:+ Field_Name field +:+ "` "
               +:+ Field_Type field)
      with ((alter D +:+ " MODIFY " +:+ quote (Field_Name field) +:+ " ") +:+ Field_Type field)
      by (unfold alter, quote; str_eq).
    rewrite columnOptions_columnDef. unfold columnClause. str_eq.
  - rewrite eqb_append_nonempty. cbn [negb option_list option_rect].
    rewrite runStatements_one. f_equal.
    replace ("ALTER TABLE `" +:+ Schema_Name D +:+ "` ADD `" +:+ Field_Name field +:+ "` "
               +:+ Field_Type field)
      with ((alter D +:+ " ADD " +:+ quote (Field_Name field) +:+ " ") +:+ Field_Type field)
      by (unfold alter, quote; str_eq).
    rewrite columnOptions_columnDef. unfold columnClause. str_eq.
Qed.

Lemma Update_dropIndex_indexDrop (D : Schema) (index : Index) (w : world DB) :
  Update_dropIndex D index w
  = if negb (hasIndex D (Index_Name index))
    then exec (dropIndexStatement D index) w else skip w.
Proof.
  unfold Update_dropIndex.
  destruct (Schema_Index D (Index_Name index)) as [idx|] eqn:E.
  - destruct (hasIndex D (Index_Name index)) eqn:Hh; [reflexivity|].
    apply Schema_Index_None in Hh. congruence.
  - apply Schema_Index_None in E. rewrite E. simpl.
    f_equal. unfold dropIndexStatement, alter, quote. str_eq.
Qed.

End Run.

Section Reconcile.
Context {DB : Type} `{Database DB}.
Variable escape : string -> string.

Lemma add_index_head (D : Schema) (index : Index) :
  (if Index_Primary index then
     "ALTER TABLE `" +:+ Schema_Name D +:+ "` ADD PRIMARY KEY ("
   else if Index_Unique index then
     "ALTER TABLE `" +:+ Schema_Name D +:+ "` ADD UNIQUE KEY `" +:+ Index_Name index +:+ "` ("
   else
     "ALTER TABLE `" +:+ Schema_Name D +:+ "` ADD KEY `" +:+ Index_Name index +:+ "` (")
  = alter D +:+ (" ADD " +:+ indexKind index) +:+ "(".
Proof.
  unfold alter, indexKind, quote.
  destruct (Index_Primary index), (Index_Unique index); str_eq.
Qed.

Lemma replace_index_head (D : Schema) (index : Index) :
  (if Index_Primary index then
     "ALTER TABLE `" +:+ Schema_Name D +:+ "` DROP PRIMARY KEY, ADD PRIMARY KEY ("
   else if Index_Unique index then
     "ALTER TABLE `" +:+ Schema_Name D +:+ "` DROP INDEX `" +:+ Index_Name index
       +:+ "`, ADD UNIQUE KEY `" +:+ Index_Name index +:+ "` ("
   else
     "ALTER TABLE `" +:+ Schema_Name D +:+ "` DROP INDEX `" +:+ Index_Name index
       +:+ "`, ADD KEY `" +:+ Index_Name index +:+ "` (")
  = alter D +:+ (" " +:+ dropClause index +:+ ", ADD " +:+ indexKind index) +:+ "(".
Proof.
  unfold alter, indexKind, dropClause, quote.
  destruct (Index_Primary index), (Index_Unique index); str_eq.
Qed.

Lemma alter_nonempty (D : Schema) (t : string) : (alter D +:+ t =? "")%string = false.
Proof. unfold alter. autorewrite with str. reflexivity. Qed.

(** Lines 111-120 for a statement head [alter D +:+ middle +:+ "("]. *)
Lemma Update_index_columns (D : Schema) (middle : string) (index : Index) (w : world DB) :
  withValue (Value (alter D +:+ middle +:+ "(")) (fun sql =>
    if negb (sql =? "")%string then
      let sql := columns_loop_sql (Index_Columns index) sql in
      withValue (trimLast sql) (fun sql => exec (sql +:+ ")"))
    else skip) w
  = exec (alter D +:+ middle +:+ parenthesised (map quote (Index_Columns index))) w.
Proof.
  unfold withValue at 1. rewrite alter_nonempty. cbn [negb]. cbv zeta.
  destruct (columns_trimmed (alter D +:+ middle) (Index_Columns index)) as (body & E & Hb).
  replace (alter D +:+ middle +:+ "(") with ((alter D +:+ middle) +:+ "(") by str_eq.
  rewrite E. unfold withValue. f_equal. rewrite <- Hb. str_eq.
Qed.

Lemma Update_index_indexStatement (D A : Schema) (index : Index) (w : world DB) :
  Update_index D A index w
  = runStatements (option_list (indexStatement D A index)) w.
Proof.
  unfold Update_index, Update_index_head, indexStatement.
  destruct (Schema_Index A (Index_Name index)) as [idx|].
  - rewrite Index_Equal_sameIndexb. destruct (sameIndexb idx index).
    + reflexivity.
    + rewrite replace_index_head, Update_index_columns.
      cbn [option_list option_rect]. rewrite runStatements_one. f_equal.
      unfold replaceIndexStatement, indexClause. str_eq.
  - rewrite add_index_head, Update_index_columns.
    cbn [option_list option_rect]. rewrite runStatements_one. reflexivity.
Qed.

(** [Update], once the table is known to exist, runs the change list:
    the code's five loops amount to the five phases, in this order. *)
Lemma Update_alter_changeList (D A : Schema) (w : world DB) :
  Update_alter escape D A w = runStatements (changeList escape D A) w.
Proof.
  unfold Update_alter, changeList. revert w.
  repeat (let w := fresh "w" in
          intros w; rewrite runStatements_app; revert w; apply andThen_ext).
  - apply Update_attributes_attributeChange.
  - apply forRange_filter. apply Update_dropField_fieldDrop.
  - apply forRange_omap. apply Update_field_fieldStatement.
  - apply forRange_filter. apply Update_dropIndex_indexDrop.
  - apply forRange_omap. apply Update_index_indexStatement.
Qed.

Lemma exec_trace (sql : string) (w : world DB) :
  executed (fst (exec sql w)) = executed w ++ [sql].
Proof. unfold exec. destruct (ExecContext (conn w) sql) as [db' e]. reflexivity. Qed.

Lemma exec_no_panic (sql : string) (w : world DB) : snd (exec sql w) <> Panic.
Proof.
  unfold exec. destruct (ExecContext (conn w) sql) as [db' [e|]]; simpl; discriminate.
Qed.

(** [Create] executes the CREATE statement and nothing else. *)
Lemma Schema_Create_createStatement (sc : Schema) (w : world DB) :
  Schema_Create escape sc w = exec (createStatement escape sc) w.
Proof. unfold Schema_Create. rewrite Create_sql_createStatement. reflexivity. Qed.

End Reconcile.

Example ReadFromDB_users : ReadFromDB users_db "users" = Value (Some users).
Proof. vm_compute. reflexivity. Qed.

(** ** ReadFromDB never panics *)

Lemma columns_loop_no_panic (rows : list (error + ColumnsRow)) (fields : list Field) :
  columns_loop rows fields <> Panic.
Proof.
  revert fields. induction rows as [|[e|r] rows IH]; intros fields; simpl.
  - discriminate.
  - discriminate.
  - apply IH.
Qed.

(** Every position that [idxMap] holds lies within [sc.Indexs], so
    [sc.Indexs[i]] is in range. *)
Lemma indexs_loop_no_panic (rows : list (error + StatisticsRow))
    (idxMap : gmap string nat) (indexs : list Index) :
  (forall name i, idxMap !! name = Some i -> (i < List.length indexs)%nat) ->
  indexs_loop rows idxMap indexs <> Panic.
Proof.
  revert idxMap indexs.
  induction rows as [|[e|r] rows IH]; intros idxMap indexs Hrange; simpl.
  - discriminate.
  - discriminate.
  - destruct (idxMap !! INDEX_NAME r) as [i|] eqn:Hi.
    + destruct (lookup_lt_is_Some_2 indexs i (Hrange _ _ Hi)) as [index Hindex].
      rewrite Hindex. apply IH.
      intros name j Hj. rewrite length_insert. apply (Hrange name j Hj).
    + apply IH. intros name j Hj. rewrite length_app. simpl.
      destruct (decide (INDEX_NAME r = name)) as [<-|Hne].
      * rewrite lookup_insert_eq in Hj. injection Hj as <-. lia.
      * rewrite lookup_insert_ne in Hj by exact Hne.
        pose proof (Hrange name j Hj). lia.
Qed.

Lemma ReadFromDB_no_panic {DB : Type} `{Database DB} (db : DB) (name : string) :
  ReadFromDB db name <> Panic.
Proof.
  unfold ReadFromDB.
  destruct (QueryRow_DATABASE db) as [e|dbName]; [discriminate|].
  destruct (QueryRow_TABLES db dbName name) as [[| |]|t]; try discriminate.
  destruct (Query_COLUMNS db dbName name) as [e|rows]; [discriminate|].
  pose proof (columns_loop_no_panic rows []) as Hcolumns.
  destruct (columns_loop rows []) as [fields|e|]; simpl; [|discriminate|contradiction].
  destruct (Query_STATISTICS db dbName name) as [e|stats]; [discriminate|].
  assert (indexs_loop stats ∅ [] <> Panic) as Hindexs.
  { apply indexs_loop_no_panic. intros n i Hi. rewrite lookup_empty in Hi. discriminate. }
  destruct (indexs_loop stats ∅ []) as [indexs|e|]; simpl;
    [discriminate|discriminate|contradiction].
Qed.

(** ** What Update has executed *)

Section Traces.
Context {DB : Type} `{Database DB}.
Variable escape : string -> string.

(** When [Update] returns [nil] on an existing table, the trace has grown
    by the whole change list. *)
Lemma Update_alter_trace (D A : Schema) (w : world DB) :
  snd (Update_alter escape D A w) = Value tt ->
  executed (fst (Update_alter escape D A w)) = executed w ++ changeList escape D A.
Proof.
  rewrite Update_alter_changeList. intros Hv.
  destruct (runStatements_trace (changeList escape D A) w) as (done & rest & E & Ht & _ & Hr).
  rewrite Ht. specialize (Hr Hv). subst rest. rewrite app_nil_r in E. rewrite <- E.
  reflexivity.
Qed.

Lemma indexStatement_in_changeList (D A : Schema) (index : Index) (s : string) :
  In index (Schema_Indices D) -> indexStatement D A index = Some s ->
  In s (changeList escape D A).
Proof.
  intros HIn E. unfold changeList. rewrite !in_app_iff. do 4 right.
  apply list_elem_of_In. unfold indexChanges. apply list_elem_of_omap.
  exists index. split; [apply list_elem_of_In, HIn|exact E].
Qed.

End Traces.

Lemma attributeChange_nil (escape : string -> string) (D A : Schema) :
  attributeChange escape D A = [] <->
  Schema_Engine D = Schema_Engine A /\ Schema_Collate D = Schema_Collate A
  /\ Schema_Comment D = Schema_Comment A.
Proof.
  unfold attributeChange.
  destruct (String.eqb_spec (Schema_Engine D) (Schema_Engine A)),
    (String.eqb_spec (Schema_Collate D) (Schema_Collate A)),
    (String.eqb_spec (Schema_Comment D) (Schema_Comment A)); simpl;
    split; try discriminate; tauto.
Qed.


(** ** Well-formed schemas and self-lookup *)

Lemma find_first {A : Type} (p : A -> bool) (before : list A) (x : A) (after : list A) :
  (forall y, In y before -> p y = false) -> p x = true ->
  find p (before ++ x :: after) = Some x.
Proof.
  intros Hbefore Hx. induction before as [|y before IH]; simpl.
  - rewrite Hx. reflexivity.
  - rewrite (Hbefore y) by (left; reflexivity).
    apply IH. intros z Hz. apply Hbefore. right. exact Hz.
Qed.

Lemma single_primary (before : list Index) (index : Index) (after : list Index) :
  (List.length (List.filter Index_Primary (before ++ index :: after)) <= 1)%nat ->
  Index_Primary index = true ->
  forall other, In other before -> Index_Primary other = false.
Proof.
  intros Hlen Hp other HIn.
  rewrite List.filter_app, length_app in Hlen. simpl in Hlen. rewrite Hp in Hlen.
  simpl in Hlen.
  destruct (Index_Primary other) eqn:E; [|reflexivity].
  assert (In other (List.filter Index_Primary before)) as Hf
    by (apply filter_In; split; assumption).
  destruct (List.filter Index_Primary before); [contradiction|simpl in Hlen; lia].
Qed.

Lemma distinct_names (before : list Index) (index : Index) (after : list Index) :
  NoDup (map Index_Name (before ++ index :: after)) ->
  forall other, In other before -> Index_Name other <> Index_Name index.
Proof.
  intros ND other HIn E.
  rewrite map_app in ND. apply NoDup_app in ND as (_ & Hdisjoint & _).
  apply (Hdisjoint (Index_Name other)).
  - apply list_elem_of_In, in_map, HIn.
  - rewrite E. simpl. left.
Qed.

(** In a well-formed schema every index is found under its own name. *)
Lemma Schema_Index_self (sc : Schema) (index : Index) :
  wellFormed sc = true -> In index (Schema_Indices sc) ->
  Schema_Index sc (Index_Name index) = Some index.
Proof.
  unfold wellFormed. rewrite !andb_true_iff.
  intros [[[_ Hnames] Hplain] Hone] HIn.
  apply bool_decide_eq_true in Hnames. apply Nat.leb_le in Hone.
  assert (Hnamed : forall i, In i (Schema_Indices sc) -> Index_Primary i = false ->
                     Index_Name i <> "" /\ Index_Name i <> "PRIMARY").
  { intros i Hi Hp. rewrite forallb_forall in Hplain. specialize (Hplain i Hi).
    rewrite Hp in Hplain. simpl in Hplain. apply negb_true_iff, orb_false_iff in Hplain.
    destruct Hplain as [H1 H2]. split; apply String.eqb_neq; assumption. }
  destruct (in_split _ _ HIn) as (before & after & Hsplit).
  rewrite Hsplit in Hnames, Hone.
  assert (Hbefore : forall i, In i before -> In i (Schema_Indices sc))
    by (intros i Hi; rewrite Hsplit; apply in_or_app; left; exact Hi).
  unfold Schema_Index. rewrite Index_loop_find, Hsplit.
  apply find_first.
  - intros other Hother. unfold Index_matches.
    pose proof (distinct_names before index after Hnames other Hother) as Hdiff.
    destruct (String.eqb_spec (Index_Name index) "PRIMARY") as [Ekey|Nkey].
    + (* the key is the empty name: [index] must be the primary key *)
      assert (Index_Primary index = true) as Hp.
      { destruct (Index_Primary index) eqn:E; [reflexivity|].
        destruct (Hnamed index HIn E) as [_ Hn]. contradiction. }
      pose proof (single_primary before index after Hone Hp other Hother) as Ho.
      rewrite Ho, andb_false_r, orb_false_r. apply String.eqb_neq.
      destruct (Hnamed other (Hbefore other Hother) Ho) as [Hn _]. exact Hn.
    + apply orb_false_iff. split; [apply String.eqb_neq; exact Hdiff|].
      destruct (String.eqb_spec (Index_Name index) "") as [Eempty|_]; [|reflexivity].
      assert (Index_Primary index = true) as Hp.
      { destruct (Index_Primary index) eqn:E; [reflexivity|].
        destruct (Hnamed index HIn E) as [Hn _]. contradiction. }
      rewrite (single_primary before index after Hone Hp other Hother). reflexivity.
  - unfold Index_matches.
    destruct (String.eqb_spec (Index_Name index) "PRIMARY") as [Ekey|Nkey].
    + destruct (Index_Primary index) eqn:E; [apply orb_true_r|].
      destruct (Hnamed index HIn E) as [_ Hn]. contradiction.
    + rewrite String.eqb_refl. reflexivity.
Qed.

Lemma Schema_Field_self (sc : Schema) (field : Field) :
  wellFormed sc = true -> In field (Schema_Fields sc) ->
  Schema_Field sc (Field_Name field) = Some field.
Proof.
  unfold wellFormed. rewrite !andb_true_iff. intros [[[Hnames _] _] _] HIn.
  apply bool_decide_eq_true in Hnames. apply Field_loop_self; assumption.
Qed.

Lemma omap_none {A B : Type} (f : A -> option B) (l : list A) :
  (forall x, In x l -> f x = None) -> omap f l = [].
Proof.
  induction l as [|x l IH]; intros Hf; [reflexivity|].
  simpl. rewrite (Hf x) by (left; reflexivity).
  apply IH. intros y Hy. apply Hf. right. exact Hy.
Qed.

Lemma filter_none {A : Type} (p : A -> bool) (l : list A) :
  (forall x, In x l -> p x = false) -> List.filter p l = [].
Proof.
  induction l as [|x l IH]; intros Hp; [reflexivity|].
  simpl. rewrite (Hp x) by (left; reflexivity).
  apply IH. intros y Hy. apply Hp. right. exact Hy.
Qed.

(** The change list of a well-formed schema against itself is empty. *)
Lemma changeList_self (escape : string -> string) (D : Schema) :
  wellFormed D = true -> changeList escape D D = [].
Proof.
  intros Hwf. unfold changeList.
  assert (attributeChange escape D D = []) as -> by (apply attributeChange_nil; tauto).
  assert (fieldDrops D D = []) as ->.
  { unfold fieldDrops. rewrite filter_none; [reflexivity|].
    intros field HIn. apply negb_false_iff.
    destruct (hasField D (Field_Name field)) eqn:E; [reflexivity|].
    apply Schema_Field_None in E. rewrite Schema_Field_self in E by assumption.
    discriminate. }
  assert (fieldChanges escape D D = []) as ->.
  { unfold fieldChanges. apply omap_none. intros field HIn.
    unfold fieldStatement. rewrite Schema_Field_self by assumption.
    rewrite Field_Equal_refl. reflexivity. }
  assert (indexDrops D D = []) as ->.
  { unfold indexDrops. rewrite filter_none; [reflexivity|].
    intros index HIn. apply negb_false_iff.
    destruct (hasIndex D (Index_Name index)) eqn:E; [reflexivity|].
    apply Schema_Index_None in E. rewrite Schema_Index_self in E by assumption.
    discriminate. }
  assert (indexChanges D D = []) as ->.
  { unfold indexChanges. apply omap_none. intros index HIn.
    unfold indexStatement. rewrite Schema_Index_self by assumption.
    rewrite sameIndexb_refl. reflexivity. }
  reflexivity.
Qed.

Lemma wellFormed_replaced_index (D A : Schema) (before : list Index)
    (index idx : Index) (after : list Index) :
  Schema_Fields A = Schema_Fields D ->
  Schema_Indices D = before ++ index :: after ->
  Schema_Indices A = before ++ idx :: after ->
  Index_Name idx = Index_Name index ->
  Index_Primary idx = Index_Primary index ->
  wellFormed D = true -> wellFormed A = true.
Proof.
  unfold wellFormed. intros -> -> -> Hn Hp.
  rewrite !map_app, !forallb_app, !List.filter_app, !length_app. simpl.
  rewrite Hn, Hp. destruct (Index_Primary index); simpl; tauto.
Qed.

(** Two well-formed schemas that differ in one index only, which keeps its
    name and its [Primary] flag: the change list is the replacement of
    that index, or nothing when the two indexes are equal. *)
Lemma changeList_one_index (escape : string -> string) (D A : Schema)
    (before : list Index) (index idx : Index) (after : list Index) :
  Schema_Fields A = Schema_Fields D ->
  Schema_Engine A = Schema_Engine D ->
  Schema_Collate A = Schema_Collate D ->
  Schema_Comment A = Schema_Comment D ->
  Schema_Indices D = before ++ index :: after ->
  Schema_Indices A = before ++ idx :: after ->
  Index_Name idx = Index_Name index ->
  Index_Primary idx = Index_Primary index ->
  wellFormed D = true ->
  changeList escape D A
  = option_list (if sameIndexb idx index then None else Some (replaceIndexStatement D index)).
Proof.
  intros Hf He Hc Hm HD HA Hn Hp Hwf.
  pose proof (wellFormed_replaced_index D A before index idx after Hf HD HA Hn Hp Hwf) as HwfA.
  assert (Hidx : In idx (Schema_Indices A))
    by (rewrite HA; apply in_or_app; right; left; reflexivity).
  assert (Hindex : In index (Schema_Indices D))
    by (rewrite HD; apply in_or_app; right; left; reflexivity).
  unfold changeList.
  assert (attributeChange escape D A = []) as ->
    by (apply attributeChange_nil; repeat split; symmetry; assumption).
  assert (fieldDrops D A = []) as ->.
  { unfold fieldDrops. rewrite filter_none; [reflexivity|].
    intros field HIn. rewrite Hf in HIn. apply negb_false_iff.
    destruct (hasField D (Field_Name field)) eqn:E; [reflexivity|].
    apply Schema_Field_None in E. rewrite Schema_Field_self in E by assumption.
    discriminate. }
  assert (fieldChanges escape D A = []) as ->.
  { unfold fieldChanges. apply omap_none. intros field HIn.
    unfold fieldStatement. rewrite <- Hf in HIn.
    rewrite Schema_Field_self by assumption.
    rewrite Field_Equal_refl. reflexivity. }
  assert (indexDrops D A = []) as ->.
  { unfold indexDrops. rewrite filter_none; [reflexivity|].
    intros other HIn. apply negb_false_iff.
    assert (exists mine, In mine (Schema_Indices D) /\ Index_Name mine = Index_Name other)
      as (mine & Hmine & <-).
    { rewrite HA in HIn. rewrite HD. apply in_app_or in HIn as [HIn|[<-|HIn]].
      - exists other. split; [apply in_or_app; left; exact HIn|reflexivity].
      - exists index. split; [apply in_or_app; right; left; reflexivity|].
        symmetry. exact Hn.
      - exists other. split; [apply in_or_app; right; right; exact HIn|reflexivity]. }
    destruct (hasIndex D (Index_Name mine)) eqn:E; [reflexivity|].
    apply Schema_Index_None in E. rewrite Schema_Index_self in E by assumption.
    discriminate. }
  assert (Hkept : forall kept, In kept before \/ In kept after ->
                    indexStatement D A kept = None).
  { intros kept HIn. unfold indexStatement.
    rewrite Schema_Index_self.
    - rewrite sameIndexb_refl. reflexivity.
    - exact HwfA.
    - rewrite HA. apply in_or_app. destruct HIn as [HIn|HIn]; [left|right; right]; exact HIn. }
  unfold indexChanges. rewrite HD, omap_app. simpl.
  rewrite (omap_none _ before) by (intros kept HIn; apply Hkept; left; exact HIn).
  rewrite (omap_none _ after) by (intros kept HIn; apply Hkept; right; exact HIn).
  unfold indexStatement. rewrite <- Hn, Schema_Index_self by assumption.
  destruct (sameIndexb idx index); reflexivity.
Qed.

(** ** What ReadFromDB returns *)

Lemma columns_loop_scanned (rows : list (error + ColumnsRow)) (fields result : list Field) :
  columns_loop rows fields = Value result ->
  exists scanned, rows = map inr scanned /\ result = fields ++ map scanColumn scanned.
Proof.
  revert fields. induction rows as [|[e|r] rows IH]; intros fields; simpl.
  - intros [= <-]. exists []. rewrite app_nil_r. split; reflexivity.
  - discriminate.
  - intros Hloop. destruct (IH _ Hloop) as (scanned & -> & ->).
    exists (r :: scanned). rewrite <- app_assoc. split; reflexivity.
Qed.

Lemma indexedBy_new (idxMap : gmap string nat) (indexs : list Index)
    (name column : string) (nonUnique : Z) :
  indexedBy idxMap indexs -> idxMap !! name = None ->
  indexedBy (<[name := List.length indexs]> idxMap)
    (indexs ++ [newIndex name column nonUnique]).
Proof.
  intros [Hmap Hprimary] Hfresh. split.
  - intros n i. split.
    + intros Hi. destruct (decide (name = n)) as [<-|Hne].
      * rewrite lookup_insert_eq in Hi. injection Hi as <-.
        exists (newIndex name column nonUnique).
        rewrite lookup_app_r, Nat.sub_diag by lia. split; reflexivity.
      * rewrite lookup_insert_ne in Hi by exact Hne.
        apply Hmap in Hi as (index & Hindex & Hname). exists index.
        rewrite lookup_app_l by (eapply lookup_lt_Some; exact Hindex).
        split; assumption.
    + intros (index & Hindex & Hname).
      destruct (decide (i < List.length indexs)%nat) as [Hlt|Hge].
      * rewrite lookup_app_l in Hindex by exact Hlt.
        assert (idxMap !! n = Some i) as Hi by (apply Hmap; exists index; split; assumption).
        rewrite lookup_insert_ne; [exact Hi|]. intros <-. congruence.
      * rewrite lookup_app_r in Hindex by lia.
        destruct (i - List.length indexs)%nat as [|k] eqn:Hk; [|destruct k; discriminate].
        injection Hindex as <-. simpl in Hname. subst n.
        replace i with (List.length indexs) by lia. apply lookup_insert_eq.
  - apply Forall_app. split; [exact Hprimary|].
    apply Forall_singleton. reflexivity.
Qed.

Lemma indexedBy_append (idxMap : gmap string nat) (indexs : list Index)
    (i : nat) (index : Index) (column : string) :
  indexedBy idxMap indexs -> indexs !! i = Some index ->
  indexedBy idxMap (<[i := appendColumn column index]> indexs).
Proof.
  intros [Hmap Hprimary] Hindex.
  assert (Hnames : forall j other,
             <[i := appendColumn column index]> indexs !! j = Some other ->
             exists old, indexs !! j = Some old /\ Index_Name old = Index_Name other).
  { intros j other Hj. destruct (decide (i = j)) as [<-|Hne].
    - rewrite list_lookup_insert_eq in Hj by (eapply lookup_lt_Some; exact Hindex).
      injection Hj as <-. exists index. split; [exact Hindex|reflexivity].
    - rewrite list_lookup_insert_ne in Hj by exact Hne.
      exists other. split; [exact Hj|reflexivity]. }
  split.
  - intros n j. rewrite Hmap. split.
    + intros (old & Hold & Hname). destruct (decide (i = j)) as [<-|Hne].
      * exists (appendColumn column index).
        rewrite list_lookup_insert_eq by (eapply lookup_lt_Some; exact Hindex).
        split; [reflexivity|]. simpl. congruence.
      * exists old. rewrite list_lookup_insert_ne by exact Hne. split; assumption.
    + intros (other & Hother & Hname).
      destruct (Hnames j other Hother) as (old & Hold & Hsame).
      exists old. split; [exact Hold|congruence].
  - apply Forall_insert; [exact Hprimary|].
    rewrite Forall_forall in Hprimary. simpl.
    apply Hprimary, list_elem_of_lookup. exists i. exact Hindex.
Qed.

(** The loop keeps the invariant, and the names of the indexes it returns
    are names of indexes it started with or names of catalog rows. *)
Lemma indexs_loop_indexedBy (rows : list (error + StatisticsRow))
    (idxMap : gmap string nat) (indexs result : list Index) :
  indexedBy idxMap indexs ->
  indexs_loop rows idxMap indexs = Value result ->
  (exists idxMap', indexedBy idxMap' result)
  /\ (forall index, In index result ->
        (exists old, In old indexs /\ Index_Name old = Index_Name index)
        \/ (exists r, In (inr r) rows /\ INDEX_NAME r = Index_Name index)).
Proof.
  revert idxMap indexs.
  induction rows as [|[e|r] rows IH]; intros idxMap indexs Hinv; simpl.
  - intros [= <-]. split; [exists idxMap; exact Hinv|].
    intros index HIn. left. exists index. split; [exact HIn|reflexivity].
  - discriminate.
  - destruct (idxMap !! INDEX_NAME r) as [i|] eqn:Hi.
    + destruct (indexs !! i) as [index|] eqn:Hindex; [|discriminate].
      intros Hloop.
      destruct (IH _ _ (indexedBy_append idxMap indexs i index (INDEX_COLUMN r) Hinv Hindex)
                  Hloop) as [Hresult Hfrom].
      split; [exact Hresult|].
      intros found HIn. destruct (Hfrom found HIn) as [(old & Hold & Hname)|(r' & Hr' & Hname)].
      * left. apply list_elem_of_In, list_elem_of_lookup in Hold as [j Hj].
        destruct (decide (i = j)) as [<-|Hne].
        -- rewrite list_lookup_insert_eq in Hj by (eapply lookup_lt_Some; exact Hindex).
           injection Hj as <-. exists index.
           split; [|exact Hname].
           apply list_elem_of_In, list_elem_of_lookup. exists i. exact Hindex.
        -- rewrite list_lookup_insert_ne in Hj by exact Hne. exists old.
           split; [|exact Hname].
           apply list_elem_of_In, list_elem_of_lookup. exists j. exact Hj.
      * right. exists r'. split; [right; exact Hr'|exact Hname].
    + intros Hloop.
      destruct (IH _ _ (indexedBy_new idxMap indexs (INDEX_NAME r) (INDEX_COLUMN r)
                          (NON_UNIQUE r) Hinv Hi) Hloop) as [Hresult Hfrom].
      split; [exact Hresult|].
      intros found HIn. destruct (Hfrom found HIn) as [(old & Hold & Hname)|(r' & Hr' & Hname)].
      * apply in_app_or in Hold as [Hold|[<-|[]]].
        -- left. exists old. split; assumption.
        -- right. exists r. split; [left; reflexivity|exact Hname].
      * right. exists r'. split; [right; exact Hr'|exact Hname].
Qed.

Lemma indexedBy_NoDup (idxMap : gmap string nat) (indexs : list Index) :
  indexedBy idxMap indexs -> NoDup (map Index_Name indexs).
Proof.
  intros [Hmap _]. apply NoDup_alt. intros i j name Hi Hj.
  change (map Index_Name indexs) with (Index_Name <$> indexs) in Hi, Hj.
  rewrite list_lookup_fmap in Hi, Hj.
  destruct (indexs !! i) as [a|] eqn:Ha; [|discriminate].
  destruct (indexs !! j) as [b|] eqn:Hb; [|discriminate].
  simpl in Hi, Hj. injection Hi as Hi. injection Hj as Hj.
  assert (idxMap !! name = Some i) as Hmi by (apply Hmap; exists a; split; assumption).
  assert (idxMap !! name = Some j) as Hmj by (apply Hmap; exists b; split; assumption).
  congruence.
Qed.

Lemma one_of_a_name {A : Type} (name : A -> string) (p : A -> bool) (c : string)
    (l : list A) :
  NoDup (map name l) -> (forall x, In x l -> p x = true -> name x = c) ->
  (List.length (List.filter p l) <= 1)%nat.
Proof.
  induction l as [|x l IH]; intros ND Hc; simpl; [lia|].
  apply NoDup_cons in ND as [Hx ND].
  assert (Hl : forall y, In y l -> p y = true -> name y = c)
    by (intros y Hy; apply Hc; right; exact Hy).
  destruct (p x) eqn:Hp; [|apply IH; assumption].
  rewrite filter_none; [simpl; lia|].
  intros y Hy. destruct (p y) eqn:Hpy; [|reflexivity].
  exfalso. apply Hx. rewrite (Hc x (or_introl eq_refl) Hp), <- (Hl y Hy Hpy).
  apply list_elem_of_In, in_map, Hy.
Qed.

Lemma same_name_same_index (indices : list Index) (x y : Index) :
  NoDup (map Index_Name indices) -> In x indices -> In y indices ->
  Index_Name x = Index_Name y -> x = y.
Proof.
  induction indices as [|z indices IH]; simpl; intros ND Hx Hy E; [contradiction|].
  apply NoDup_cons in ND as [Hz ND].
  destruct Hx as [->|Hx], Hy as [->|Hy].
  - reflexivity.
  - exfalso. apply Hz. rewrite E. apply list_elem_of_In, in_map, Hy.
  - exfalso. apply Hz. rewrite <- E. apply list_elem_of_In, in_map, Hx.
  - apply IH; assumption.
Qed.

(** Whatever the catalog holds, the indexes that [ReadFromDB] returns have
    pairwise distinct names, and exactly the one named [PRIMARY] is
    primary. *)
Lemma ReadFromDB_indexes {DB : Type} `{Database DB} (db : DB) (name : string) (A : Schema) :
  ReadFromDB db name = Value (Some A) ->
  NoDup (map Index_Name (Schema_Indices A))
  /\ (forall index, In index (Schema_Indices A) ->
        Index_Primary index = (Index_Name index =? "PRIMARY")%string).
Proof.
  unfold ReadFromDB.
  destruct (QueryRow_DATABASE db) as [e|dbName]; [discriminate|].
  destruct (QueryRow_TABLES db dbName name) as [[| |]|t]; try discriminate.
  destruct (Query_COLUMNS db dbName name) as [e|rows]; [discriminate|].
  destruct (columns_loop rows []) as [fields|e|]; simpl; try discriminate.
  destruct (Query_STATISTICS db dbName name) as [e|stats]; [discriminate|].
  destruct (indexs_loop stats ∅ []) as [indexs|e|] eqn:Hindexs; simpl; try discriminate.
  intros [= <-]. simpl.
  assert (indexedBy ∅ []) as Hempty.
  { split; [|apply Forall_nil_2]. intros n i. rewrite lookup_empty. split; [discriminate|].
    intros (index & Hindex & _). discriminate. }
  destruct (indexs_loop_indexedBy stats ∅ [] indexs Hempty Hindexs) as [[idxMap Hinv] _].
  split; [apply (indexedBy_NoDup idxMap), Hinv|].
  destruct Hinv as [_ Hprimary]. rewrite Forall_forall in Hprimary.
  intros index HIn. apply Hprimary, list_elem_of_In, HIn.
Qed.

(** Among indexes with distinct names of which only [PRIMARY] is primary,
    the lookup of a declared index whose counterpart differs from it can
    only end in a replacement. *)
Lemma counterpart_replaced (D A : Schema) (index idx : Index) :
  NoDup (map Index_Name (Schema_Indices A)) ->
  (forall i, In i (Schema_Indices A) -> Index_Primary i = (Index_Name i =? "PRIMARY")%string) ->
  In idx (Schema_Indices A) ->
  Index_Name idx = Index_Name index ->
  Index_Primary idx = Index_Primary index ->
  sameIndexb idx index = false ->
  indexStatement D A index = Some (replaceIndexStatement D index).
Proof.
  intros ND Hprimary Hidx Hname Hflag Hdiff. unfold indexStatement, Schema_Index.
  rewrite Index_loop_find.
  destruct (find _ (Schema_Indices A)) as [found|] eqn:Hfind.
  - apply find_some in Hfind as [Hfound _].
    destruct (sameIndexb found index) eqn:Hsame; [exfalso|reflexivity].
    assert (found = idx) as E; [|rewrite E in Hsame; congruence].
    apply sameIndexb_sameIndex in Hsame as (Hp & Hn & _).
    apply (same_name_same_index (Schema_Indices A)); try assumption.
    destruct (Index_Primary found) eqn:Hpf.
    + rewrite (Hprimary found Hfound) in Hpf. apply String.eqb_eq in Hpf.
      assert (Index_Primary idx = true) as Hpi by congruence.
      rewrite (Hprimary idx Hidx) in Hpi. apply String.eqb_eq in Hpi. congruence.
    + rewrite Hn by reflexivity. symmetry. exact Hname.
  - exfalso. apply find_none with (x := idx) in Hfind; [|exact Hidx].
    unfold Index_matches in Hfind. rewrite <- Hname in Hfind.
    pose proof (Hprimary idx Hidx) as Hpi.
    destruct (String.eqb_spec (Index_Name idx) "PRIMARY") as [E|_].
    + rewrite Hpi in Hfind. simpl in Hfind. rewrite orb_true_r in Hfind. discriminate.
    + rewrite String.eqb_refl in Hfind. discriminate.
Qed.

(** When the catalog lists no column name twice and no index without a
    name, the schema that [ReadFromDB] returns is well formed. *)
Lemma ReadFromDB_wellFormed {DB : Type} `{Database DB} (db : DB) (name : string)
    (A : Schema) :
  (forall dbName rows,
      Query_COLUMNS db dbName name = inr (map inr rows) -> NoDup (map COLUMN_NAME rows)) ->
  (forall dbName rows r,
      Query_STATISTICS db dbName name = inr rows -> In (inr r) rows -> INDEX_NAME r <> "") ->
  ReadFromDB db name = Value (Some A) ->
  Schema_Name A = name /\ wellFormed A = true.
Proof.
  intros Hcolumns Hstatistics. unfold ReadFromDB.
  destruct (QueryRow_DATABASE db) as [e|dbName]; [discriminate|].
  destruct (QueryRow_TABLES db dbName name) as [[| |]|t]; try discriminate.
  destruct (Query_COLUMNS db dbName name) as [e|rows] eqn:Hrows; [discriminate|].
  destruct (columns_loop rows []) as [fields|e|] eqn:Hfields; simpl; try discriminate.
  destruct (Query_STATISTICS db dbName name) as [e|stats] eqn:Hstats; [discriminate|].
  destruct (indexs_loop stats ∅ []) as [indexs|e|] eqn:Hindexs; simpl; try discriminate.
  intros [= <-]. split; [reflexivity|].
  apply columns_loop_scanned in Hfields as (scanned & -> & ->).
  assert (indexedBy ∅ []) as Hempty.
  { split; [|apply Forall_nil_2]. intros n i. rewrite lookup_empty. split; [discriminate|].
    intros (index & Hindex & _). discriminate. }
  destruct (indexs_loop_indexedBy stats ∅ [] indexs Hempty Hindexs) as [[idxMap Hinv] Hfrom].
  pose proof (indexedBy_NoDup idxMap indexs Hinv) as Hnames.
  destruct Hinv as [_ Hprimary]. rewrite Forall_forall in Hprimary.
  unfold wellFormed. simpl. rewrite !andb_true_iff. repeat split.
  - apply bool_decide_eq_true. rewrite map_map. simpl.
    apply (Hcolumns dbName scanned Hrows).
  - apply bool_decide_eq_true. exact Hnames.
  - apply forallb_forall. intros index HIn.
    rewrite (Hprimary index) by (apply list_elem_of_In; exact HIn).
    destruct (String.eqb_spec (Index_Name index) "PRIMARY") as [_|_]; [reflexivity|].
    simpl. rewrite orb_false_r. apply negb_true_iff, String.eqb_neq.
    destruct (Hfrom index HIn) as [(old & [] & _)|(r & Hr & <-)].
    apply (Hstatistics dbName stats r Hstats Hr).
  - apply Nat.leb_le. apply (one_of_a_name Index_Name Index_Primary "PRIMARY"); [exact Hnames|].
    intros index HIn Hp. rewrite (Hprimary index) in Hp by (apply list_elem_of_In; exact HIn).
    apply String.eqb_eq, Hp.
Qed.

(** Declaring a table exactly as such a catalog reports it changes
    nothing. *)
Lemma Update_read_back {DB : Type} `{Database DB}
    (escape : string -> string) (A : Schema) (w : world DB) :
  (forall dbName rows,
      Query_COLUMNS (conn w) dbName (Schema_Name A) = inr (map inr rows) ->
      NoDup (map COLUMN_NAME rows)) ->
  (forall dbName rows r,
      Query_STATISTICS (conn w) dbName (Schema_Name A) = inr rows -> In (inr r) rows ->
      INDEX_NAME r <> "") ->
  ReadFromDB (conn w) (Schema_Name A) = Value (Some A) ->
  Schema_Update escape A w = (w, Value tt).
Proof.
  intros Hcolumns Hstatistics Hread.
  destruct (ReadFromDB_wellFormed (conn w) (Schema_Name A) A Hcolumns Hstatistics Hread)
    as [_ Hwf].
  unfold Schema_Update. rewrite Hread, Update_alter_changeList, changeList_self by exact Hwf.
  reflexivity.
Qed.

(** The end-to-end scenario of the specification: the declared table has
    the column [name] and the unique index [idx_name] in addition to what
    exists, and [Update] adds the one, then the other. *)
Example Update_adds_field_then_index :
  Schema_Update backslashEscape users
    (start (mkScripted (Some ("users", InnoDB))
              [ mkColumnsRow "id" "bigint(20)" "NO" None "" "auto_increment" ]
              [ mkStatisticsRow "PRIMARY" 1 "id" 0 ] []))
  = (mkWorld (mkScripted (Some ("users", InnoDB))
                [ mkColumnsRow "id" "bigint(20)" "NO" None "" "auto_increment" ]
                [ mkStatisticsRow "PRIMARY" 1 "id" 0 ] [])
       [ "ALTER TABLE `users` ADD `name` varchar(64) NULL";
         "ALTER TABLE `users` ADD UNIQUE KEY `idx_name` (`name`)" ],
     Value tt).
Proof. vm_compute. reflexivity. Qed.

(** The rows of a composite index are gathered under its name, in the
    order in which the catalog delivers them. *)
Example ReadFromDB_composite_index :
  ReadFromDB
    (mkScripted (Some ("people", InnoDB))
       [ mkColumnsRow "a" "int(11)" "NO" (Some "0") "" "";
         mkColumnsRow "b" "int(11)" "NO" (Some "0") "" "";
         mkColumnsRow "age" "int(11)" "YES" None "" "" ]
       [ mkStatisticsRow "idx_ab" 1 "a" 1;
         mkStatisticsRow "idx_ab" 2 "b" 1 ] [])
    "people"
  = Value (Some (people age_declared ["a"; "b"])).
Proof. vm_compute. reflexivity. Qed.

(** ** Where a run of statements fails *)

Lemma runStatements_first_failure {DB : Type} `{Database DB} (l : list string) :
  forall (w w' : world DB) (e : error),
    runStatements l w = (w', Failure e) ->
    exists done sql rest db,
      l = done ++ sql :: rest
      /\ runStatements done w = (mkWorld db (executed w ++ done), Value tt)
      /\ ExecContext db sql = (conn w', Some e)
      /\ executed w' = executed w ++ done ++ [sql].
Proof.
  induction l as [|s l IH]; intros w w' e; [discriminate|].
  unfold runStatements. cbn [forRange]. unfold andThen, exec at 1.
  destruct (ExecContext (conn w) s) as [db' [e'|]] eqn:Hexec.
  - intros [= <- <-]. exists [], s, l, (conn w). cbn [app conn executed].
    rewrite app_nil_r. repeat split; [|exact Hexec].
    destruct w; reflexivity.
  - intros Hrest. fold (runStatements l) in Hrest.
    destruct (IH _ _ _ Hrest) as (done & sql & rest & db & -> & Hdone & Hsql & Htrace).
    cbn [executed] in Hdone, Htrace.
    exists (s :: done), sql, rest, db. repeat split.
    + unfold runStatements. cbn [forRange app]. unfold andThen, exec at 1. rewrite Hexec.
      fold (runStatements done). rewrite Hdone, <- app_assoc. reflexivity.
    + exact Hsql.
    + rewrite Htrace, <- !app_assoc. reflexivity.
Qed.

(** * The claims of the specification *)

(** C1 (amended).  Let [D] and [A] have the same name, fields, indexes,
    engine, collation and comment, and let the schema be well formed: field
    names pairwise distinct, index names pairwise distinct, no index that
    is not primary named [""] or ["PRIMARY"], at most one primary index.
    Then the change list of [D] against [A] is empty, and [Update], on
    reading [A] from the database, executes no statement and returns
    [nil]. *)
Theorem Update_idempotent {DB : Type} `{Database DB}
    (escape : string -> string) (D A : Schema) (w : world DB) :
  Schema_Name A = Schema_Name D ->
  Schema_Fields A = Schema_Fields D ->
  Schema_Indices A = Schema_Indices D ->
  Schema_Engine A = Schema_Engine D ->
  Schema_Collate A = Schema_Collate D ->
  Schema_Comment A = Schema_Comment D ->
  wellFormed D = true ->
  changeList escape D A = []
  /\ Update_alter escape D A w = (w, Value tt)
  /\ (ReadFromDB (conn w) (Schema_Name D) = Value (Some A) ->
      Schema_Update escape D w = (w, Value tt)).
Proof.
  intros Hn Hf Hi He Hc Hm Hwf.
  assert (A = D) as -> by (destruct A, D; simpl in *; subst; reflexivity).
  assert (Update_alter escape D D w = (w, Value tt)) as Hrun
    by (rewrite Update_alter_changeList, changeList_self by exact Hwf; reflexivity).
  split; [apply changeList_self, Hwf|]. split; [exact Hrun|].
  intros Hread. unfold Schema_Update. rewrite Hread. exact Hrun.
Qed.

Lemma Update_idempotent_witness :
  changeList backslashEscape users users = []
  /\ Update_alter backslashEscape users users (start users_db) = (start users_db, Value tt)
  /\ Schema_Update backslashEscape users (start users_db) = (start users_db, Value tt).
Proof.
  destruct (Update_idempotent backslashEscape users users (start users_db))
    as (Hlist & Hrun & Hupdate); [reflexivity..|].
  split; [exact Hlist|]. split; [exact Hrun|]. apply Hupdate. vm_compute. reflexivity.
Defined.

(** C1 as stated fails: take the table with a primary key on [id] and an
    index on [a] that has no name.  Compared with itself it has a change
    list that is not empty; and when the database reports the table
    exactly as it is declared, [Update] still executes a statement,
    because the lookup of the empty name finds the primary key.  The same
    happens, for one's own change list, with a column name used twice,
    an index name used twice, two primary indexes, and an ordinary index
    named [PRIMARY]. *)
Lemma Update_not_idempotent_unnamed_index :
  changeList backslashEscape unnamed_last unnamed_last
  = [ "ALTER TABLE `t` DROP INDEX ``, ADD KEY `` (`a`)" ]
  /\ executed (fst (Update_alter backslashEscape unnamed_last unnamed_last (start empty_db)))
     = [ "ALTER TABLE `t` DROP INDEX ``, ADD KEY `` (`a`)" ]
  /\ ReadFromDB unnamed_last_db (Schema_Name unnamed_last) = Value (Some unnamed_last)
  /\ executed (fst (Schema_Update backslashEscape unnamed_last (start unnamed_last_db)))
     = [ "ALTER TABLE `t` DROP INDEX ``, ADD KEY `` (`a`)" ]
  /\ executed (fst (Schema_Update backslashEscape unnamed_last (start unnamed_last_db))) <> []
  /\ changeList backslashEscape column_twice column_twice
     = [ "ALTER TABLE `t` MODIFY `a` bigint(20) NOT NULL" ]
  /\ changeList backslashEscape index_twice index_twice
     = [ "ALTER TABLE `t` DROP INDEX `k`, ADD KEY `k` (`b`)" ]
  /\ changeList backslashEscape two_primaries two_primaries
     = [ "ALTER TABLE `t` DROP PRIMARY KEY, ADD PRIMARY KEY (`b`)" ]
  /\ changeList backslashEscape plain_named_primary plain_named_primary
     = [ "ALTER TABLE `t` DROP INDEX `PRIMARY`"; "ALTER TABLE `t` ADD KEY `PRIMARY` (`a`)" ].
Proof.
  split; [vm_compute; reflexivity|]. split; [vm_compute; reflexivity|].
  split; [vm_compute; reflexivity|]. split; [vm_compute; reflexivity|].
  split; [vm_compute; discriminate|].
  repeat split; vm_compute; reflexivity.
Qed.



(** C3.  Two fields with the same name, type, nullability, auto-increment
    flag and comment, whose default values agree once the text ["NULL"] is
    replaced by the empty default on both sides, are [Equal]; and when the
    field that [Update] finds in the existing table under the name of a
    declared field differs from it in this way only, the step for that
    field runs no statement: no MODIFY is issued. *)
Theorem Field_Equal_default_normalization {DB : Type} `{Database DB}
    (escape : string -> string) (D A : Schema) (fd field : Field) (w : world DB) :
  Field_Name fd = Field_Name field ->
  Field_Type fd = Field_Type field ->
  Field_Nullable fd = Field_Nullable field ->
  Field_AutoIncrement fd = Field_AutoIncrement field ->
  Field_Comment fd = Field_Comment field ->
  normalizeDefault (Field_DefaultValue fd) = normalizeDefault (Field_DefaultValue field) ->
  Field_Equal fd field = true
  /\ (Schema_Field A (Field_Name field) = Some fd ->
      Update_field escape D A field w = (w, Value tt)).
Proof.
  intros Hn Ht Hnull Hai Hc Hd.
  assert (Field_Equal fd field = true) as Heq
    by (apply Field_Equal_sameField; unfold sameField; tauto).
  split; [exact Heq|].
  intros Hfound. unfold Update_field. rewrite Hfound, Heq. reflexivity.
Qed.

Lemma Field_Equal_default_normalization_witness :
  Field_Equal age_read age_declared = true
  /\ Update_field backslashEscape (people age_declared ["a"; "b"]) (people age_read ["a"; "b"])
       age_declared (start empty_db)
     = (start empty_db, Value tt).
Proof.
  destruct (Field_Equal_default_normalization backslashEscape
              (people age_declared ["a"; "b"]) (people age_read ["a"; "b"])
              age_read age_declared (start empty_db)) as [Hequal Hstep];
    [reflexivity..|].
  split; [exact Hequal|apply Hstep; reflexivity].
Defined.

(** C4.  [Index.Equal] never panics and answers [true] exactly when the
    [Primary] flags agree, the names agree unless the index is primary, the
    [Unique] flags agree and the column lists are the same list, in length
    and in order.  So an index on [[a,b]] is not equal to the index of the
    same name and flags on [[b,a]].  For the reconciliation this means:
    - when the index that [Update] finds in the existing table under the
      name of a declared index is that reordering of it, the step for the
      index runs the single statement that drops and adds it again, which
      is then part of what [Update] has executed;
    - when the declared schema differs from the schema that [ReadFromDB]
      returns by that reordering of one index, this statement is in the
      change list and [Update], if it returns [nil], has executed it;
    - for two well-formed schemas that differ in that reordering only,
      this statement is all that [Update] executes. *)
Theorem Index_Equal_column_order :
  (forall idx other,
      exists b, Index_Equal idx other = Some b
                /\ (b = true <->
                    Index_Primary idx = Index_Primary other
                    /\ (Index_Primary idx = false -> Index_Name idx = Index_Name other)
                    /\ Index_Unique idx = Index_Unique other
                    /\ Index_Columns idx = Index_Columns other))
  /\ (forall name a b primary unique,
         a <> b ->
         Index_Equal (mkIndex name [a; b] primary unique) (mkIndex name [b; a] primary unique)
         = Some false)
  /\ (forall (DB : Type) (H : Database DB) (escape : string -> string)
             (D A : Schema) (index idx : Index) (a b : string) (w : world DB),
         a <> b ->
         In index (Schema_Indices D) ->
         Index_Columns index = [a; b] ->
         Schema_Index A (Index_Name index) = Some idx ->
         idx = mkIndex (Index_Name index) [b; a] (Index_Primary index) (Index_Unique index) ->
         let replace :=
           alter D +:+ " " +:+ dropClause index +:+ ", ADD " +:+ indexKind index
             +:+ "(" +:+ quote a +:+ "," +:+ quote b +:+ ")" in
         Update_index D A index w = exec replace w
         /\ (snd (Update_alter escape D A w) = Value tt ->
             In replace (executed (fst (Update_alter escape D A w)))))
  /\ (forall (DB : Type) (H : Database DB) (escape : string -> string)
             (D A : Schema) (before after : list Index) (name a b : string)
             (primary unique : bool) (w : world DB),
         a <> b ->
         ReadFromDB (conn w) (Schema_Name D) = Value (Some A) ->
         Schema_Indices D = before ++ mkIndex name [a; b] primary unique :: after ->
         Schema_Indices A = before ++ mkIndex name [b; a] primary unique :: after ->
         let index := mkIndex name [a; b] primary unique in
         let replace :=
           alter D +:+ " " +:+ dropClause index +:+ ", ADD " +:+ indexKind index
             +:+ "(" +:+ quote a +:+ "," +:+ quote b +:+ ")" in
         In replace (changeList escape D A)
         /\ (snd (Schema_Update escape D w) = Value tt ->
             In replace (executed (fst (Schema_Update escape D w)))))
  /\ (forall (DB : Type) (H : Database DB) (escape : string -> string)
             (D A : Schema) (before after : list Index) (name a b : string)
             (primary unique : bool) (w : world DB),
         a <> b ->
         Schema_Name A = Schema_Name D ->
         Schema_Fields A = Schema_Fields D ->
         Schema_Engine A = Schema_Engine D ->
         Schema_Collate A = Schema_Collate D ->
         Schema_Comment A = Schema_Comment D ->
         Schema_Indices D = before ++ mkIndex name [a; b] primary unique :: after ->
         Schema_Indices A = before ++ mkIndex name [b; a] primary unique :: after ->
         wellFormed D = true ->
         let index := mkIndex name [a; b] primary unique in
         Update_alter escape D A w
         = exec (alter D +:+ " " +:+ dropClause index +:+ ", ADD " +:+ indexKind index
                   +:+ "(" +:+ quote a +:+ "," +:+ quote b +:+ ")") w).
Proof.
  assert (Hswap : forall name a b primary unique, a <> b ->
             sameIndexb (mkIndex name [b; a] primary unique)
               (mkIndex name [a; b] primary unique) = false).
  { intros name a b primary unique Hab.
    destruct (sameIndexb _ _) eqn:E; [|reflexivity].
    apply sameIndexb_sameIndex in E as (_ & _ & _ & E). simpl in E.
    injection E as E _. symmetry in E. contradiction. }
  assert (Hreplace : forall D name a b primary unique,
             replaceIndexStatement D (mkIndex name [a; b] primary unique)
             = alter D +:+ " " +:+ dropClause (mkIndex name [a; b] primary unique)
                 +:+ ", ADD " +:+ indexKind (mkIndex name [a; b] primary unique)
                 +:+ "(" +:+ quote a +:+ "," +:+ quote b +:+ ")").
  { intros D name a b primary unique.
    unfold replaceIndexStatement, indexClause, parenthesised.
    cbn [Index_Columns map join]. str_eq. }
  repeat apply conj.
  - intros idx other. exists (sameIndexb idx other).
    split; [apply Index_Equal_sameIndexb|apply sameIndexb_sameIndex].
  - intros name a b primary unique Hab.
    rewrite Index_Equal_sameIndexb, (Hswap name b a)
      by (intros E; apply Hab; symmetry; exact E).
    reflexivity.
  - intros DB H escape D A index idx a b w Hab HIn Hcols Hfound -> replace.
    assert (indexStatement D A index = Some replace) as Hstmt.
    { unfold indexStatement. rewrite Hfound. subst replace.
      destruct index as [name columns primary unique]. simpl in Hcols. subst columns.
      cbn [Index_Name Index_Primary Index_Unique].
      rewrite Hswap by exact Hab. f_equal. apply Hreplace. }
    split.
    + rewrite Update_index_indexStatement, Hstmt. apply runStatements_one.
    + intros Hv. rewrite (Update_alter_trace escape D A w Hv).
      apply in_or_app. right.
      apply indexStatement_in_changeList with (A := A) (index := index); assumption.
  - intros DB H escape D A before after name a b primary unique w Hab Hread HD HA
      index replace.
    destruct (ReadFromDB_indexes _ _ _ Hread) as [Hnames Hprimary].
    assert (In replace (changeList escape D A)) as Hreplaced.
    { apply indexStatement_in_changeList with (A := A) (index := index).
      - rewrite HD. apply in_or_app. right. left. reflexivity.
      - subst replace index. rewrite <- Hreplace.
        apply counterpart_replaced with (idx := mkIndex name [b; a] primary unique);
          try assumption; try reflexivity.
        + rewrite HA. apply in_or_app. right. left. reflexivity.
        + apply Hswap, Hab. }
    split; [exact Hreplaced|].
    unfold Schema_Update. rewrite Hread. intros Hv.
    rewrite (Update_alter_trace escape D A w Hv). apply in_or_app. right. exact Hreplaced.
  - intros DB H escape D A before after name a b primary unique w
      Hab _ Hf He Hc Hm HD HA Hwf index.
    rewrite Update_alter_changeList.
    rewrite (changeList_one_index escape D A before index
               (mkIndex name [b; a] primary unique) after Hf He Hc Hm HD HA)
      by (reflexivity || exact Hwf).
    rewrite Hswap by exact Hab.
    cbn [option_list option_rect]. rewrite runStatements_one.
    f_equal. apply Hreplace.
Qed.

Lemma Index_Equal_column_order_witness :
  let declared := people age_declared ["a"; "b"] in
  let existing := people age_declared ["b"; "a"] in
  let replace := "ALTER TABLE `people` DROP INDEX `idx_ab`, ADD KEY `idx_ab` (`a`,`b`)" in
  Update_index declared existing (mkIndex "idx_ab" ["a"; "b"] false false) (start empty_db)
  = exec replace (start empty_db)
  /\ In replace (executed (fst (Update_alter backslashEscape declared existing
                                  (start empty_db))))
  /\ In replace (changeList backslashEscape declared existing)
  /\ In replace (executed (fst (Schema_Update backslashEscape declared (start people_db))))
  /\ Update_alter backslashEscape declared existing (start empty_db)
     = exec replace (start empty_db).
Proof.
  intros declared existing replace.
  destruct Index_Equal_column_order as (_ & _ & Hstep & Hread & Hall).
  destruct (Hstep Scripted Scripted_Database backslashEscape declared existing
              (mkIndex "idx_ab" ["a"; "b"] false false)
              (mkIndex "idx_ab" ["b"; "a"] false false) "a" "b" (start empty_db))
    as [Hindex Htrace];
    [discriminate|simpl; tauto|reflexivity|reflexivity|reflexivity|].
  destruct (Hread Scripted Scripted_Database backslashEscape declared existing
              [] [] "idx_ab" "a" "b" false false (start people_db))
    as [Hlist Hupdate];
    [discriminate|vm_compute; reflexivity|reflexivity|reflexivity|].
  repeat apply conj.
  - exact Hindex.
  - apply Htrace. reflexivity.
  - exact Hlist.
  - apply Hupdate. vm_compute. reflexivity.
  - apply (Hall Scripted Scripted_Database backslashEscape declared existing
             [] [] "idx_ab" "a" "b" false false (start empty_db));
      [discriminate|reflexivity..].
Defined.

(** C5 (amended).  When the existing table has a primary index for which
    the lookup in the declared schema finds nothing, [Update] drops it with
    the general statement [ALTER TABLE `t` DROP INDEX `name`], [name] being
    the name of that index ([PRIMARY] when it was read from the catalog);
    every statement of the index-drop phase has this form.  (The form
    [DROP PRIMARY KEY] only occurs in the replacement of a primary index in
    the last phase.) *)
Theorem primary_key_drop_form {DB : Type} `{Database DB}
    (escape : string -> string) (D A : Schema) (index : Index) (w : world DB) :
  In index (Schema_Indices A) ->
  Index_Primary index = true ->
  Schema_Index D (Index_Name index) = None ->
  let drop := "ALTER TABLE " +:+ quote (Schema_Name D)
                +:+ " DROP INDEX " +:+ quote (Index_Name index) in
  Update_dropIndex D index w = exec drop w
  /\ In drop (indexDrops D A)
  /\ (forall s, In s (indexDrops D A) ->
        exists dropped, In dropped (Schema_Indices A)
          /\ s = "ALTER TABLE " +:+ quote (Schema_Name D)
                   +:+ " DROP INDEX " +:+ quote (Index_Name dropped))
  /\ (snd (Update_alter escape D A w) = Value tt ->
      In drop (executed (fst (Update_alter escape D A w)))).
Proof.
  intros HIn Hp Hnone drop.
  assert (In drop (indexDrops D A)) as Hdrop.
  { unfold indexDrops. apply in_map_iff. exists index. split; [reflexivity|].
    apply filter_In. split; [exact HIn|].
    apply Schema_Index_None in Hnone. rewrite Hnone. reflexivity. }
  split; [|split; [exact Hdrop|split]].
  - rewrite Update_dropIndex_indexDrop.
    apply Schema_Index_None in Hnone. rewrite Hnone. reflexivity.
  - intros s Hs. unfold indexDrops in Hs. apply in_map_iff in Hs as (dropped & <- & Hd).
    apply filter_In in Hd as [Hd _]. exists dropped. split; [exact Hd|reflexivity].
  - intros Hv. rewrite (Update_alter_trace escape D A w Hv).
    apply in_or_app. right. unfold changeList. rewrite !in_app_iff. tauto.
Qed.

Lemma primary_key_drop_form_witness :
  let drop := "ALTER TABLE `users` DROP INDEX `PRIMARY`" in
  Update_dropIndex users_without_primary primary_id (start users_db)
  = exec drop (start users_db)
  /\ In drop (executed (fst (Update_alter backslashEscape users_without_primary users
                               (start users_db)))).
Proof.
  destruct (primary_key_drop_form backslashEscape users_without_primary users primary_id
              (start users_db)) as (Hstep & _ & _ & Htrace);
    [simpl; tauto|reflexivity|reflexivity|].
  split; [exact Hstep|apply Htrace; reflexivity].
Defined.

(** C5 as stated fails: the declared schema has no primary key, the table
    has one, and [Update] executes [DROP INDEX `PRIMARY`], not
    [DROP PRIMARY KEY]. *)
Lemma primary_key_dropped_by_name :
  ReadFromDB users_db (Schema_Name users_without_primary) = Value (Some users)
  /\ executed (fst (Schema_Update backslashEscape users_without_primary (start users_db)))
     = [ "ALTER TABLE `users` DROP INDEX `PRIMARY`" ]
  /\ ~ In "ALTER TABLE `users` DROP PRIMARY KEY"
         (executed (fst (Schema_Update backslashEscape users_without_primary
                           (start users_db)))).
Proof.
  split; [vm_compute; reflexivity|]. split; [vm_compute; reflexivity|].
  vm_compute. intros [E|[]]. discriminate E.
Qed.

(** C6 (amended).  [Create] hands one statement to the database:
    [CREATE TABLE IF NOT EXISTS], the quoted table name, then between
    parentheses and separated by commas the column clauses in field order
    followed by the index clauses in index order, then the table options
    that are not empty.  The primary key clause stands where the primary
    index stands among the indexes; it is the first index clause only when
    the primary index is the first index. *)
Theorem Create_statement_layout {DB : Type} `{Database DB}
    (escape : string -> string) (sc : Schema) (w : world DB) :
  let clauses :=
    map (columnClause escape) (Schema_Fields sc) ++ map indexClause (Schema_Indices sc) in
  let create :=
    "CREATE TABLE IF NOT EXISTS " +:+ quote (Schema_Name sc) +:+ " "
      +:+ parenthesised clauses +:+ tableOptions escape sc in
  Schema_Create escape sc w = exec create w
  /\ executed (fst (Schema_Create escape sc w)) = executed w ++ [create]
  /\ (clauses <> [] -> parenthesised clauses = "(" +:+ join "," clauses +:+ ")")
  /\ (forall before primary after,
         Schema_Indices sc = before ++ primary :: after ->
         clauses = map (columnClause escape) (Schema_Fields sc)
                     ++ map indexClause before
                     ++ indexClause primary :: map indexClause after).
Proof.
  intros clauses create. repeat apply conj.
  - apply Schema_Create_createStatement.
  - rewrite Schema_Create_createStatement. apply exec_trace.
  - destruct clauses; [contradiction|reflexivity].
  - intros before primary after Hsplit. subst clauses.
    rewrite Hsplit, map_app. reflexivity.
Qed.

Lemma Create_statement_layout_witness :
  parenthesised (map (columnClause backslashEscape) (Schema_Fields users_unique_first)
                   ++ map indexClause (Schema_Indices users_unique_first))
  = "(`id` bigint(20) NOT NULL AUTO_INCREMENT,`name` varchar(64) NULL,UNIQUE KEY `idx_name` (`name`),PRIMARY KEY (`id`))"
  /\ map (columnClause backslashEscape) (Schema_Fields users_unique_first)
       ++ map indexClause (Schema_Indices users_unique_first)
     = map (columnClause backslashEscape) (Schema_Fields users_unique_first)
         ++ map indexClause [ mkIndex "idx_name" ["name"] false true ]
         ++ [ indexClause primary_id ].
Proof.
  destruct (Create_statement_layout backslashEscape users_unique_first (start empty_db))
    as (_ & _ & Hjoin & Hposition).
  split.
  - rewrite Hjoin; [reflexivity|discriminate].
  - apply (Hposition [ mkIndex "idx_name" ["name"] false true ] primary_id []). reflexivity.
Defined.

(** C6 as stated fails: with the unique index declared before the primary
    key, the UNIQUE KEY clause is rendered before the PRIMARY KEY clause. *)
Lemma Create_keeps_index_order :
  executed (fst (Schema_Create backslashEscape users_unique_first (start empty_db)))
  = [ "CREATE TABLE IF NOT EXISTS `users` (`id` bigint(20) NOT NULL AUTO_INCREMENT,`name` varchar(64) NULL,UNIQUE KEY `idx_name` (`name`),PRIMARY KEY (`id`)) ENGINE=InnoDB COLLATE=utf8mb4_general_ci" ]
  /\ executed (fst (Schema_Create backslashEscape users_unique_first (start empty_db)))
     <> [ createStatement_primaryFirst backslashEscape users_unique_first ].
Proof.
  split; [vm_compute; reflexivity|]. vm_compute. discriminate.
Qed.

(** C7 (amended).  An index without columns is not rejected: the package
    does not look at the number of columns of an index and has no error of
    its own.  For such an index that the existing table lacks, or has in
    another shape, [Update] hands one statement to the database, as for
    any other index, and [Create] builds and hands over its statement with
    such an index among the declared ones.  Neither [Update] nor [Create]
    panics, whatever the schemas and the database.  An error that [Update]
    returns is either the error of [ReadFromDB], and then nothing has been
    executed, or the error with which the database has refused the last
    statement it was handed, the statements of the plan before it having
    been executed; an error that [Create] returns is the one with which
    the database has refused its statement. *)
Theorem zero_column_index_emitted {DB : Type} `{Database DB}
    (escape : string -> string) (D A : Schema) (index : Index) (w : world DB) :
  Index_Columns index = [] ->
  (Schema_Index A (Index_Name index) = None
   \/ (exists idx, Schema_Index A (Index_Name index) = Some idx
                   /\ Index_Equal idx index = Some false) ->
   exists sql,
     indexStatement D A index = Some sql
     /\ Update_index D A index w = exec sql w
     /\ executed (fst (Update_index D A index w)) = executed w ++ [sql]
     /\ (In index (Schema_Indices D) ->
         In sql (changeList escape D A)
         /\ (snd (Update_alter escape D A w) = Value tt ->
             In sql (executed (fst (Update_alter escape D A w))))))
  /\ (In index (Schema_Indices D) ->
      exists sql,
        Create_sql escape D = Value sql
        /\ Schema_Create escape D w = exec sql w
        /\ executed (fst (Schema_Create escape D w)) = executed w ++ [sql])
  /\ snd (Update_alter escape D A w) <> Panic
  /\ snd (Schema_Create escape D w) <> Panic
  /\ snd (Schema_Update escape D w) <> Panic
  /\ (forall w' e,
         Update_alter escape D A w = (w', Failure e) ->
         exists done sql rest db,
           changeList escape D A = done ++ sql :: rest
           /\ runStatements done w = (mkWorld db (executed w ++ done), Value tt)
           /\ ExecContext db sql = (conn w', Some e)
           /\ executed w' = executed w ++ done ++ [sql])
  /\ (forall w' e,
         Schema_Create escape D w = (w', Failure e) ->
         exists sql,
           Create_sql escape D = Value sql
           /\ ExecContext (conn w) sql = (conn w', Some e)
           /\ executed w' = executed w ++ [sql])
  /\ (forall w' e,
         Schema_Update escape D w = (w', Failure e) ->
         (ReadFromDB (conn w) (Schema_Name D) = Failure e /\ w' = w)
         \/ exists plan done sql rest db,
              (ReadFromDB (conn w) (Schema_Name D) = Value None
               /\ Create_sql escape D = Value sql /\ plan = [sql]
               \/ exists cur, ReadFromDB (conn w) (Schema_Name D) = Value (Some cur)
                              /\ plan = changeList escape D cur)
              /\ plan = done ++ sql :: rest
              /\ runStatements done w = (mkWorld db (executed w ++ done), Value tt)
              /\ ExecContext db sql = (conn w', Some e)
              /\ executed w' = executed w ++ done ++ [sql]).
Proof.
  intros Hcols.
  assert (Halter : forall cur, snd (Update_alter escape D cur w) <> Panic).
  { intros cur. rewrite Update_alter_changeList.
    destruct (runStatements_trace (changeList escape D cur) w) as (_ & _ & _ & _ & Hp & _).
    exact Hp. }
  assert (Hcreate : snd (Schema_Create escape D w) <> Panic)
    by (rewrite Schema_Create_createStatement; apply exec_no_panic).
  assert (Hrefused : forall w' e,
             Schema_Create escape D w = (w', Failure e) ->
             ExecContext (conn w) (createStatement escape D) = (conn w', Some e)
             /\ executed w' = executed w ++ [createStatement escape D]).
  { intros w' e. rewrite Schema_Create_createStatement. unfold exec.
    destruct (ExecContext (conn w) (createStatement escape D)) as [db' [e'|]];
      [|discriminate].
    intros [= <- <-]. split; reflexivity. }
  repeat apply conj.
  - intros Hdiffers.
    assert (exists sql, indexStatement D A index = Some sql) as (sql & Hsql).
    { unfold indexStatement. destruct Hdiffers as [->|(idx & -> & Hdiff)].
      - eexists. reflexivity.
      - rewrite Index_Equal_sameIndexb in Hdiff. injection Hdiff as ->.
        eexists. reflexivity. }
    exists sql. split; [exact Hsql|].
    rewrite Update_index_indexStatement, Hsql.
    cbn [option_list option_rect]. rewrite runStatements_one.
    split; [reflexivity|]. split; [apply exec_trace|].
    intros Hdeclared.
    assert (In sql (changeList escape D A)) as Hplanned
      by (apply indexStatement_in_changeList with (index := index); assumption).
    split; [exact Hplanned|].
    intros Hdone. rewrite Update_alter_trace by exact Hdone.
    apply in_or_app. right. exact Hplanned.
  - intros _. exists (createStatement escape D).
    split; [apply Create_sql_createStatement|].
    rewrite Schema_Create_createStatement. split; [reflexivity|apply exec_trace].
  - apply Halter.
  - exact Hcreate.
  - unfold Schema_Update.
    pose proof (ReadFromDB_no_panic (conn w) (Schema_Name D)) as Hread.
    destruct (ReadFromDB (conn w) (Schema_Name D)) as [[cur|]|e|];
      [apply Halter|exact Hcreate|discriminate|contradiction].
  - intros w' e. rewrite Update_alter_changeList. apply runStatements_first_failure.
  - intros w' e Hfailed. destruct (Hrefused w' e Hfailed) as [Hexec Htrace].
    exists (createStatement escape D).
    split; [apply Create_sql_createStatement|split; [exact Hexec|exact Htrace]].
  - intros w' e. unfold Schema_Update.
    destruct (ReadFromDB (conn w) (Schema_Name D)) as [[cur|]|e'|] eqn:Hread.
    + rewrite Update_alter_changeList. intros Hrun. right.
      destruct (runStatements_first_failure _ _ _ _ Hrun)
        as (done & sql & rest & db & Hplan & Hdone & Hsql & Htrace).
      exists (changeList escape D cur), done, sql, rest, db.
      split; [right; exists cur; split; reflexivity|].
      split; [exact Hplan|split; [exact Hdone|split; [exact Hsql|exact Htrace]]].
    + intros Hfailed. destruct (Hrefused w' e Hfailed) as [Hexec Htrace]. right.
      exists [createStatement escape D], [], (createStatement escape D), [], (conn w).
      split; [left; split; [reflexivity|split; [apply Create_sql_createStatement|reflexivity]]|].
      cbn [app]. rewrite app_nil_r.
      split; [reflexivity|split; [destruct w; reflexivity|split; [exact Hexec|exact Htrace]]].
    + intros [= <- <-]. left. split; reflexivity.
    + discriminate.
Qed.

Lemma zero_column_index_emitted_witness :
  (exists sql,
      indexStatement users_with_empty_index users no_columns = Some sql
      /\ Update_index users_with_empty_index users no_columns (start users_db)
         = exec sql (start users_db)
      /\ executed (fst (Update_index users_with_empty_index users no_columns (start users_db)))
         = executed (start users_db) ++ [sql]
      /\ In sql (executed (fst (Update_alter backslashEscape users_with_empty_index users
                                  (start users_db)))))
  /\ snd (Update_alter backslashEscape users_with_empty_index users (start users_db)) <> Panic
  /\ snd (Schema_Update backslashEscape users_with_empty_index (start parsing_users_db))
     <> Panic.
Proof.
  destruct (zero_column_index_emitted backslashEscape users_with_empty_index users no_columns
              (start users_db) eq_refl) as (Hadd & _ & Halter & _).
  destruct (zero_column_index_emitted backslashEscape users_with_empty_index users no_columns
              (start parsing_users_db) eq_refl) as (_ & _ & _ & _ & Hupdate & _).
  split; [|split; [exact Halter|exact Hupdate]].
  destruct Hadd as (sql & Hsql & Hexec & Htrace & Hplan); [left; reflexivity|].
  exists sql. split; [exact Hsql|]. split; [exact Hexec|]. split; [exact Htrace|].
  apply Hplan; [right; right; left; reflexivity|reflexivity].
Defined.

(** C7 as stated fails: the declared index [idx_none] has no column, and
    [Update] does not reject it; it executes a statement whose column list
    is a lone closing parenthesis.  With a database that accepts what it
    is given [Update] returns [nil]; with one that refuses the statement,
    [Update] returns the error of the database, after the statement went
    out. *)
Lemma zero_column_index_not_rejected :
  Schema_Update backslashEscape users_with_empty_index (start users_db)
  = (mkWorld users_db [ "ALTER TABLE `users` ADD KEY `idx_none` )" ], Value tt)
  /\ Schema_Update backslashEscape users_with_empty_index (start parsing_users_db)
     = (mkWorld parsing_users_db [ "ALTER TABLE `users` ADD KEY `idx_none` )" ],
        Failure (DriverError "rejected")).
Proof. split; vm_compute; reflexivity. Qed.

(** C8.  When the database name is resolved and the query for the table
    metadata yields no row, [ReadFromDB] returns no schema and no error,
    and [Update] does what [Create] does: it executes a single statement,
    which begins with [CREATE TABLE IF NOT EXISTS] and is therefore not an
    ALTER statement. *)
Theorem absent_table_is_created {DB : Type} `{Database DB}
    (escape : string -> string) (sc : Schema) (w : world DB) (dbName : string) :
  QueryRow_DATABASE (conn w) = inr dbName ->
  QueryRow_TABLES (conn w) dbName (Schema_Name sc) = inl ErrNoRows ->
  ReadFromDB (conn w) (Schema_Name sc) = Value None
  /\ Schema_Update escape sc w = Schema_Create escape sc w
  /\ executed (fst (Schema_Update escape sc w)) = executed w ++ [createStatement escape sc]
  /\ String.prefix "CREATE TABLE IF NOT EXISTS " (createStatement escape sc) = true
  /\ String.prefix "ALTER" (createStatement escape sc) = false.
Proof.
  intros Hdb Htable.
  assert (ReadFromDB (conn w) (Schema_Name sc) = Value None) as Hread
    by (unfold ReadFromDB; rewrite Hdb, Htable; reflexivity).
  assert (Schema_Update escape sc w = Schema_Create escape sc w) as Hupdate
    by (unfold Schema_Update; rewrite Hread; reflexivity).
  split; [exact Hread|]. split; [exact Hupdate|].
  rewrite Hupdate, Schema_Create_createStatement.
  split; [apply exec_trace|]. split; reflexivity.
Qed.

Lemma absent_table_is_created_witness :
  ReadFromDB empty_db "users" = Value None
  /\ Schema_Update backslashEscape users (start empty_db)
     = Schema_Create backslashEscape users (start empty_db)
  /\ executed (fst (Schema_Update backslashEscape users (start empty_db)))
     = [ "CREATE TABLE IF NOT EXISTS `users` (`id` bigint(20) NOT NULL AUTO_INCREMENT,`name` varchar(64) NULL,PRIMARY KEY (`id`),UNIQUE KEY `idx_name` (`name`)) ENGINE=InnoDB COLLATE=utf8mb4_general_ci" ]
  /\ String.prefix "CREATE TABLE IF NOT EXISTS " (createStatement backslashEscape users) = true
  /\ String.prefix "ALTER" (createStatement backslashEscape users) = false.
Proof.
  apply (absent_table_is_created backslashEscape users (start empty_db) "test"); reflexivity.
Defined.

(** ** The form of the statements *)

Lemma changeList_forms (escape : string -> string) (D A : Schema) (s : string) :
  In s (changeList escape D A) -> statementForm escape D (Some A) s.
Proof.
  unfold changeList. rewrite !in_app_iff. intros [Hs|[Hs|[Hs|[Hs|Hs]]]].
  - unfold attributeChange in Hs. destruct (_ && _); [contradiction|].
    destruct Hs as [<-|[]]. apply form_attributes.
  - unfold fieldDrops in Hs. apply in_map_iff in Hs as (field & <- & Hfield).
    apply List.filter_In in Hfield as [Hfield _].
    apply form_drop_field. exact Hfield.
  - unfold fieldChanges in Hs. apply list_elem_of_In, list_elem_of_omap in Hs.
    destruct Hs as (field & Hfield & Hs). apply list_elem_of_In in Hfield.
    unfold fieldStatement in Hs.
    destruct (Schema_Field A (Field_Name field)) as [fd|].
    + destruct (Field_Equal fd field); [discriminate|].
      injection Hs as <-. apply form_modify_field. exact Hfield.
    + injection Hs as <-. apply form_add_field. exact Hfield.
  - unfold indexDrops in Hs. apply in_map_iff in Hs as (index & <- & Hindex).
    apply List.filter_In in Hindex as [Hindex _].
    apply form_drop_index. exact Hindex.
  - unfold indexChanges in Hs. apply list_elem_of_In, list_elem_of_omap in Hs.
    destruct Hs as (index & Hindex & Hs). apply list_elem_of_In in Hindex.
    unfold indexStatement in Hs.
    destruct (Schema_Index A (Index_Name index)) as [idx|].
    + destruct (sameIndexb idx index); [discriminate|].
      injection Hs as <-. apply form_replace_index. exact Hindex.
    + injection Hs as <-. apply form_add_index. exact Hindex.
Qed.

(** C9 (amended).  Every statement that [Update] executes, be it the
    CREATE statement or an ALTER statement, belongs to the plan that
    [Update] derives from the declared schema and from what [ReadFromDB]
    has returned, and has one of the forms of [statementForm] for these
    two: it is built from a field or an index of the declared schema, or
    from the name of a field or an index of the existing table; the table,
    column and index names stand between backticks, the comments of the
    table and of the fields go through [escape] and stand between single
    quotes, and a default value is written after DEFAULT as it stands,
    without going through [escape]. *)
Theorem emitted_statement_forms {DB : Type} `{Database DB}
    (escape : string -> string) (sc : Schema) (w : world DB) (s : string) :
  In s (executed (fst (Schema_Update escape sc w))) ->
  In s (executed w)
  \/ exists cur,
       ReadFromDB (conn w) (Schema_Name sc) = Value cur
       /\ In s (match cur with
                | None => [createStatement escape sc]
                | Some A => changeList escape sc A
                end)
       /\ statementForm escape sc cur s.
Proof.
  unfold Schema_Update.
  destruct (ReadFromDB (conn w) (Schema_Name sc)) as [[cur|]|e|]; simpl.
  - rewrite Update_alter_changeList.
    destruct (runStatements_trace (changeList escape sc cur) w) as (done & rest & E & Ht & _).
    rewrite Ht, in_app_iff. intros [Hs|Hs]; [left; exact Hs|right].
    assert (In s (changeList escape sc cur)) as Hplan
      by (rewrite E; apply in_or_app; left; exact Hs).
    exists (Some cur). split; [reflexivity|]. split; [exact Hplan|].
    apply changeList_forms. exact Hplan.
  - rewrite Schema_Create_createStatement, exec_trace, in_app_iff.
    intros [Hs|[<-|[]]]; [left; exact Hs|right].
    exists None. split; [reflexivity|]. split; [left; reflexivity|apply form_create].
  - tauto.
  - tauto.
Qed.

Lemma emitted_statement_forms_witness :
  let create := "CREATE TABLE IF NOT EXISTS `guests` (`name` varchar(64) NOT NULL DEFAULT 'guest' COMMENT 'the guest\'s name')" in
  In create (executed (fst (Schema_Update backslashEscape guests (start empty_db))))
  /\ ReadFromDB empty_db "guests" = Value None
  /\ statementForm backslashEscape guests None create.
Proof.
  intros create.
  assert (In create (executed (fst (Schema_Update backslashEscape guests (start empty_db)))))
    as Hexecuted by (vm_compute; left; reflexivity).
  split; [exact Hexecuted|]. split; [reflexivity|].
  destruct (emitted_statement_forms backslashEscape guests (start empty_db) create Hexecuted)
    as [[]|(cur & Hread & _ & Hform)].
  assert (cur = None) as <-; [|exact Hform].
  change (ReadFromDB empty_db "guests" = Value cur) in Hread.
  assert (ReadFromDB empty_db "guests" = Value None) as Hnone by reflexivity.
  congruence.
Defined.

(** C9 as stated fails for default values: with an [escape] that puts a
    backslash before quotes, the comment of the column reaches the
    statement escaped, but the quotes of its default value do not, in the
    CREATE statement as in the ALTER statement that adds the column. *)
Lemma default_value_not_escaped :
  executed (fst (Schema_Update backslashEscape guests (start empty_db)))
  = [ "CREATE TABLE IF NOT EXISTS `guests` (`name` varchar(64) NOT NULL DEFAULT 'guest' COMMENT 'the guest\'s name')" ]
  /\ createStatement_escaped backslashEscape guests
     = "CREATE TABLE IF NOT EXISTS `guests` (`name` varchar(64) NOT NULL DEFAULT \'guest\' COMMENT 'the guest\'s name')"
  /\ executed (fst (Schema_Update backslashEscape guests (start empty_db)))
     <> [ createStatement_escaped backslashEscape guests ]
  /\ executed (fst (Update_alter backslashEscape guests (mkSchema "guests" [] [] "" "" "")
                      (start empty_db)))
     = [ "ALTER TABLE `guests` ADD `name` varchar(64) NOT NULL DEFAULT 'guest' COMMENT 'the guest\'s name'" ].
Proof.
  split; [vm_compute; reflexivity|]. split; [vm_compute; reflexivity|].
  split; [vm_compute; discriminate|vm_compute; reflexivity].
Qed.

(** C10.  [Schema.Index] gives the names ["PRIMARY"] and [""] the same
    answer: the first index, in index order, whose name is empty or whose
    [Primary] flag is set.  Hence an index without name that is not primary
    and stands before every primary index is returned instead of the
    primary key, and an index named ["PRIMARY"] whose [Primary] flag is
    unset is returned by neither lookup. *)
Theorem Schema_Index_primary_overload (sc : Schema) :
  Schema_Index sc "PRIMARY" = Schema_Index sc ""
  /\ Schema_Index sc ""
     = find (fun index => (Index_Name index =? "")%string || Index_Primary index)
         (Schema_Indices sc)
  /\ (forall before unnamed after,
         Schema_Indices sc = before ++ unnamed :: after ->
         Index_Name unnamed = "" -> Index_Primary unnamed = false ->
         forallb (fun index => negb (Index_Name index =? "")%string
                               && negb (Index_Primary index)) before = true ->
         Schema_Index sc "PRIMARY" = Some unnamed /\ Schema_Index sc "" = Some unnamed)
  /\ (forall name found,
         name = "PRIMARY" \/ name = "" ->
         Schema_Index sc name = Some found ->
         ~ (Index_Name found = "PRIMARY" /\ Index_Primary found = false)).
Proof.
  assert (Hfind : Schema_Index sc ""
                  = find (fun index => (Index_Name index =? "")%string || Index_Primary index)
                      (Schema_Indices sc)).
  { unfold Schema_Index. simpl. rewrite Index_loop_find. reflexivity. }
  assert (Hsame : Schema_Index sc "PRIMARY" = Schema_Index sc "") by reflexivity.
  split; [exact Hsame|]. split; [exact Hfind|]. split.
  - intros before unnamed after Hsplit Hname Hprim Hbefore.
    rewrite Hsame, Hfind, Hsplit. clear Hsplit.
    cut (find (fun index => (Index_Name index =? "")%string || Index_Primary index)
           (before ++ unnamed :: after) = Some unnamed); [intros ->; split; reflexivity|].
    induction before as [|index before IH]; simpl.
    + rewrite Hname. reflexivity.
    + simpl in Hbefore. apply andb_true_iff in Hbefore as [Hindex Hbefore].
      apply andb_true_iff in Hindex as [Hn Hp].
      apply negb_true_iff in Hn, Hp. rewrite Hn, Hp. simpl. apply IH, Hbefore.
  - intros name found Hname E [Hn Hp].
    assert (Schema_Index sc "" = Some found) as E' by (destruct Hname; subst; exact E).
    rewrite Hfind in E'. apply find_some in E' as [_ Hm].
    rewrite Hn, Hp in Hm. discriminate.
Qed.

Lemma Schema_Index_primary_overload_witness :
  Schema_Index unnamed_first "PRIMARY" = Some unnamed_index
  /\ Schema_Index unnamed_first "" = Some unnamed_index.
Proof.
  apply (proj1 (proj2 (proj2 (Schema_Index_primary_overload unnamed_first)))
           [] unnamed_index [primary_id]); reflexivity.
Defined.

(** * Further properties of the code *)

(** ** Option parameters *)

Lemma escapeOptionParameter_copy (c : ascii) (rest : string) :
  (c =? "\")%char = false -> (c =? ")")%char = false ->
  escapeOptionParameter (String c rest) = String c (escapeOptionParameter rest).
Proof.
  intros Hb Hp. destruct rest as [|next after]; simpl; rewrite ?Hb, Hp; reflexivity.
Qed.

Lemma escapeOptionParameter_quoted (s rest : string) :
  escapeOptionParameter (quoteOptionParameter s +:+ String ")" rest) = s.
Proof.
  induction s as [|c s IH].
  - rewrite append_nil_l. destruct rest; reflexivity.
  - cbn [quoteOptionParameter].
    destruct (c =? ")")%char eqn:Hp; [|destruct (c =? "\")%char eqn:Hb]; cbn [orb].
    + rewrite !append_String. cbn [escapeOptionParameter]. cbn. rewrite IH. reflexivity.
    + rewrite !append_String. cbn. rewrite IH. reflexivity.
    + rewrite append_String, escapeOptionParameter_copy, IH by assumption. reflexivity.
Qed.

Lemma index_paren_cons (c b : ascii) (s : string) :
  index 0 (String c "") (String b s)
  = if (b =? c)%char then Some 0%nat
    else option_map S (index 0 (String c "") s).
Proof.
  change (index 0 (String c "") (String b s))
    with (if (if ascii_dec c b then String.prefix "" s else false)
          then Some 0%nat
          else match index 0 (String c "") s with
               | Some n => Some (S n)
               | None => None
               end).
  destruct (ascii_dec c b) as [->|Hne].
  - rewrite Ascii.eqb_refl. destruct s; reflexivity.
  - destruct (Ascii.eqb_spec b c) as [->|_]; [contradiction|].
    destruct (index 0 (String c "") s); reflexivity.
Qed.

Lemma index_hasByte (c : ascii) (s : string) :
  index 0 (String c "") s = None <-> hasByte c s = false.
Proof.
  induction s as [|b s IH]; [split; reflexivity|].
  rewrite index_paren_cons. cbn [hasByte].
  destruct (b =? c)%char; cbn [orb]; [split; discriminate|].
  rewrite <- IH. destruct (index 0 (String c "") s); cbn; split; congruence.
Qed.

Lemma index_first (c : ascii) (s t : string) :
  hasByte c s = false ->
  index 0 (String c "") (s +:+ String c t) = Some (String.length s).
Proof.
  induction s as [|b s IH]; intros Hs.
  - rewrite append_nil_l, index_paren_cons, Ascii.eqb_refl. reflexivity.
  - cbn [hasByte] in Hs. apply orb_false_iff in Hs as [Hb Hs].
    rewrite append_String, index_paren_cons, Hb, IH by exact Hs. reflexivity.
Qed.

Lemma substring_from_length (s t : string) :
  substring (String.length s) (String.length t) (s +:+ t) = t.
Proof.
  induction s as [|b s IH].
  - rewrite append_nil_l. cbn [String.length].
    induction t as [|c t IHt]; [reflexivity|]. cbn. rewrite IHt. reflexivity.
  - rewrite append_String. cbn. exact IH.
Qed.

Lemma escapeOptionParameter_plain (s : string) :
  hasByte ")" s = false -> hasByte "\" s = false -> escapeOptionParameter s = s.
Proof.
  induction s as [|c s IH]; [reflexivity|].
  cbn [hasByte]. intros Hp Hb.
  apply orb_false_iff in Hp as [Hp Hp'], Hb as [Hb Hb'].
  rewrite escapeOptionParameter_copy, IH by assumption. reflexivity.
Qed.

Lemma parseOption_split (name rest : string) :
  hasByte "(" name = false ->
  parseOption (name +:+ String "(" rest) = (name, escapeOptionParameter rest).
Proof.
  intros Hname. unfold parseOption.
  rewrite index_first by exact Hname.
  rewrite substring_0_length. f_equal. f_equal.
  rewrite length_append. cbn [String.length].
  replace (String.length name + S (String.length rest) - S (String.length name))%nat
    with (String.length rest) by lia.
  replace (name +:+ String "(" rest) with ((name +:+ "(") +:+ rest) by str_eq.
  replace (S (String.length name)) with (String.length (name +:+ "("))
    by (rewrite length_append; cbn [String.length]; lia).
  apply substring_from_length.
Qed.

(** ** Struct tags, word by word *)

Lemma strings_Split_word (sep : ascii) (first rest : string) :
  hasByte sep first = false ->
  strings_Split (first +:+ String sep rest) sep = first :: strings_Split rest sep.
Proof.
  induction first as [|b first IH]; intros Hfirst.
  - rewrite append_nil_l. cbn [strings_Split]. rewrite Ascii.eqb_refl. reflexivity.
  - cbn [hasByte] in Hfirst. apply orb_false_iff in Hfirst as [Hb Hfirst].
    rewrite append_String. cbn [strings_Split]. rewrite Hb, IH by exact Hfirst.
    reflexivity.
Qed.

Lemma strings_Split_plain (sep : ascii) (s : string) :
  hasByte sep s = false -> strings_Split s sep = [s].
Proof.
  induction s as [|b s IH]; intros Hs; [reflexivity|].
  cbn [hasByte] in Hs. apply orb_false_iff in Hs as [Hb Hs].
  cbn [strings_Split]. rewrite Hb, IH by exact Hs. reflexivity.
Qed.

Lemma strings_Split_blank (s : string) :
  blank s = true -> Forall (fun p => p = "") (strings_Split s " ").
Proof.
  induction s as [|b s IH]; intros Hs.
  - repeat constructor.
  - cbn [blank] in Hs. apply andb_true_iff in Hs as [Hb Hs].
    cbn [strings_Split]. rewrite Hb. constructor; [reflexivity|apply IH, Hs].
Qed.

Lemma parseFieldTag_parts_empty (parts : list string) (field : dataSchemaField) :
  Forall (fun p => p = "") parts -> fold_left parseFieldTag_part parts field = field.
Proof.
  induction 1 as [|p parts -> _ IH]; [reflexivity|exact IH].
Qed.

Lemma set_ColumnName_ColumnName (v : string) (field : dataSchemaField) :
  ColumnName (set_ColumnName v field) = v.
Proof. reflexivity. Qed.

Lemma parseFieldTag_option_ColumnName (field : dataSchemaField) (option param : string) :
  ColumnName (parseFieldTag_option field option param) = ColumnName field.
Proof.
  unfold parseFieldTag_option.
  repeat match goal with
         | |- context [if ?b then _ else _] => destruct b; [reflexivity|]
         end.
  reflexivity.
Qed.

Lemma parseFieldTag_part_ColumnName (field : dataSchemaField) (p : string) :
  ColumnName field <> "" -> ColumnName (parseFieldTag_part field p) = ColumnName field.
Proof.
  intros Hnamed. unfold parseFieldTag_part.
  destruct (p =? "")%string; [reflexivity|].
  destruct (String.eqb_spec (ColumnName field) "") as [E|_]; [contradiction|].
  destruct (parseOption p) as [option param]. apply parseFieldTag_option_ColumnName.
Qed.

Lemma parseFieldTag_parts_ColumnName (parts : list string) (field : dataSchemaField) :
  ColumnName field <> "" ->
  ColumnName (fold_left parseFieldTag_part parts field) = ColumnName field.
Proof.
  revert field. induction parts as [|p parts IH]; intros field Hnamed; [reflexivity|].
  cbn [fold_left]. rewrite IH by (rewrite parseFieldTag_part_ColumnName; assumption).
  apply parseFieldTag_part_ColumnName, Hnamed.
Qed.

Lemma parseFieldTag_indexName_ColumnName (field : dataSchemaField) :
  ColumnName (parseFieldTag_indexName field) = ColumnName field.
Proof.
  unfold parseFieldTag_indexName. destruct (_ && _); reflexivity.
Qed.

Lemma parseFieldTag_first_word (field : dataSchemaField) (first rest : string) :
  ColumnName field = "" -> first <> "" -> hasByte " " first = false ->
  parseFieldTag field (first +:+ String " " rest)
  = parseFieldTag (set_ColumnName first field) rest.
Proof.
  intros Hunnamed Hfirst Hword. unfold parseFieldTag.
  rewrite strings_Split_word by exact Hword. cbn [fold_left].
  unfold parseFieldTag_part at 2. rewrite Hunnamed.
  destruct (String.eqb_spec first "") as [E|_]; [contradiction|].
  reflexivity.
Qed.

Lemma parseFieldTag_one_word (field : dataSchemaField) (word : string) :
  ColumnName field = "" -> word <> "" -> hasByte " " word = false ->
  parseFieldTag field word = parseFieldTag_indexName (set_ColumnName word field).
Proof.
  intros Hunnamed Hword Hplain. unfold parseFieldTag.
  rewrite strings_Split_plain by exact Hplain. cbn [fold_left].
  unfold parseFieldTag_part. rewrite Hunnamed.
  destruct (String.eqb_spec word "") as [E|_]; [contradiction|].
  reflexivity.
Qed.

Lemma kindStoreType_nonempty (kind elem : Kind) : kindStoreType kind elem <> "".
Proof. destruct kind; try discriminate. destruct elem; discriminate. Qed.

Lemma parseFieldTag_part_option (field : dataSchemaField) (p : string) :
  ColumnName field <> "" -> p <> "" ->
  parseFieldTag_part field p
  = parseFieldTag_option field (fst (parseOption p)) (snd (parseOption p)).
Proof.
  intros Hnamed Hp. unfold parseFieldTag_part.
  destruct (String.eqb_spec p "") as [E|_]; [contradiction|].
  destruct (String.eqb_spec (ColumnName field) "") as [E|_]; [contradiction|].
  destruct (parseOption p); reflexivity.
Qed.

Lemma tagInvariant_new (i : nat) (field : StructField) :
  tagInvariant i field (newDataSchemaField i field).
Proof.
  unfold tagInvariant. cbn. repeat split; auto; discriminate.
Qed.

Lemma tagInvariant_option (i : nat) (field : StructField) (f : dataSchemaField)
    (option param : string) :
  tagInvariant i field f -> tagInvariant i field (parseFieldTag_option f option param).
Proof.
  intros (HN & HT & HI & Hrange & Hnone & Hpk & Hser).
  unfold parseFieldTag_option, tagInvariant.
  repeat lazymatch goal with
         | |- context [if ?b then _ else _] =>
             destruct b;
             [cbn; unfold NONE, ARRAY, JSON, YAML, INDEX, UNIQUE, PRIMARY_KEY in *;
              repeat split; auto; try discriminate; try tauto|]
         end.
  repeat split; auto; tauto.
Qed.

Lemma tagInvariant_part (i : nat) (field : StructField) (f : dataSchemaField) (p : string) :
  tagInvariant i field f -> tagInvariant i field (parseFieldTag_part f p).
Proof.
  intros Hinv. unfold parseFieldTag_part.
  destruct (p =? "")%string; [exact Hinv|].
  destruct (ColumnName f =? "")%string; [exact Hinv|].
  destruct (parseOption p). apply tagInvariant_option, Hinv.
Qed.

Lemma tagInvariant_parts (i : nat) (field : StructField) (parts : list string)
    (f : dataSchemaField) :
  tagInvariant i field f -> tagInvariant i field (fold_left parseFieldTag_part parts f).
Proof.
  revert f. induction parts as [|p parts IH]; intros f Hinv; [exact Hinv|].
  apply IH, tagInvariant_part, Hinv.
Qed.

Lemma tagInvariant_parseFieldTag (i : nat) (field : StructField) (tag : string) :
  let f := parseFieldTag (newDataSchemaField i field) tag in
  tagInvariant i field f /\ (IndexType f <> NONE -> indexName f <> "").
Proof.
  cbn zeta. unfold parseFieldTag.
  pose proof (tagInvariant_parts i field (strings_Split tag " ") _ (tagInvariant_new i field))
    as Hinv.
  set (f := fold_left parseFieldTag_part (strings_Split tag " ") (newDataSchemaField i field))
    in *.
  unfold parseFieldTag_indexName.
  destruct (negb (IndexType f =? NONE)%Z && (indexName f =? "")%string) eqn:E.
  - apply andb_true_iff in E as [Htype Hname].
    apply negb_true_iff, Z.eqb_neq in Htype.
    destruct Hinv as (HN & HT & HI & Hrange & Hnone & Hpk & Hser).
    apply String.eqb_eq in Hname.
    split; [|intros _; cbn; discriminate].
    assert (IndexType f <> PRIMARY_KEY) as Hother.
    { intros Hp. destruct (Hpk Hp) as [Hprimary _]. rewrite Hprimary in Hname. discriminate. }
    unfold tagInvariant. cbn. repeat split; auto; contradiction.
  - split; [exact Hinv|]. intros Htype.
    apply andb_false_iff in E as [E|E].
    + apply negb_false_iff, Z.eqb_eq in E. contradiction.
    + apply String.eqb_neq in E. exact E.
Qed.

Lemma tagInvariant_described (i : nat) (field : StructField) (tag : string) :
  let f := loadDataSchemaInfo_field i field tag in
  tagInvariant i field f /\ (IndexType f <> NONE -> indexName f <> "")
  /\ DataStoreType f <> "" /\ (ColumnName f = "" -> StructField_Name field = "").
Proof.
  cbn zeta. unfold loadDataSchemaInfo_field.
  destruct (tagInvariant_parseFieldTag i field tag) as [Hinv Hnamed]. cbn zeta in *.
  set (f := parseFieldTag (newDataSchemaField i field) tag) in *.
  set (g := if (ColumnName f =? "")%string
            then set_ColumnName (StructField_Name field) f else f).
  assert (tagInvariant i field g /\ (IndexType g <> NONE -> indexName g <> "")
          /\ (ColumnName g = "" -> StructField_Name field = "")) as (Hg & Hgnamed & Hgcol).
  { subst g. destruct (String.eqb_spec (ColumnName f) "") as [Hcol|Hcol].
    - split; [exact Hinv|split; [exact Hnamed|intros E; exact E]].
    - split; [exact Hinv|split; [exact Hnamed|intros E; contradiction]]. }
  clearbody g.
  destruct (String.eqb_spec (DataStoreType g) "") as [Htype|Htype].
  - split; [exact Hg|split; [exact Hgnamed|split; [apply kindStoreType_nonempty|exact Hgcol]]].
  - split; [exact Hg|split; [exact Hgnamed|split; [exact Htype|exact Hgcol]]].
Qed.

(** X1.  An option [name(parameter)] of a struct tag is taken apart at its
    first opening parenthesis.  Writing the parameter with a backslash
    before every closing parenthesis and every backslash gives it back
    unchanged, whatever follows the closing parenthesis; an option without
    parenthesis has the empty parameter; and a parameter free of
    backslashes and closing parentheses may lack the closing
    parenthesis. *)
Theorem parseOption_quoted_parameter (name s rest : string) :
  hasByte "(" name = false ->
  parseOption (name +:+ "(" +:+ quoteOptionParameter s +:+ ")" +:+ rest) = (name, s)
  /\ parseOption name = (name, "")
  /\ (hasByte ")" s = false -> hasByte "\" s = false ->
      parseOption (name +:+ "(" +:+ s) = (name, s)).
Proof.
  intros Hname. repeat apply conj.
  - replace (name +:+ "(" +:+ quoteOptionParameter s +:+ ")" +:+ rest)
      with (name +:+ String "(" (quoteOptionParameter s +:+ String ")" rest)) by str_eq.
    rewrite parseOption_split, escapeOptionParameter_quoted by exact Hname. reflexivity.
  - unfold parseOption. apply index_hasByte in Hname. rewrite Hname. reflexivity.
  - intros Hp Hb.
    replace (name +:+ "(" +:+ s) with (name +:+ String "(" s) by str_eq.
    rewrite parseOption_split, escapeOptionParameter_plain by assumption. reflexivity.
Qed.

Lemma parseOption_quoted_parameter_witness :
  parseOption "comment(f(x\) \\ y)ignored" = ("comment", "f(x) \ y")
  /\ parseOption "comment" = ("comment", "")
  /\ parseOption "def(0" = ("def", "0").
Proof.
  destruct (parseOption_quoted_parameter "comment" "f(x) \ y" "ignored") as (Hquoted & Hbare & _);
    [reflexivity|].
  destruct (parseOption_quoted_parameter "def" "0" "") as (_ & _ & Hopen); [reflexivity|].
  repeat apply conj; [exact Hquoted|exact Hbare|apply Hopen; reflexivity].
Defined.

(** X2.  The first word of a [db] tag is the column name, whatever the
    word is: the words after it are read as options of a field that
    already has this column name, and a tag of a single word (even the
    name of an option such as [pk] or [int]) only names the column, the
    type being the one of the field's kind. *)
Theorem first_word_names_the_column (i : nat) (field : StructField) (first rest : string) :
  first <> "" -> hasByte " " first = false ->
  parseFieldTag (newDataSchemaField i field) (first +:+ " " +:+ rest)
  = parseFieldTag (set_ColumnName first (newDataSchemaField i field)) rest
  /\ ColumnName (loadDataSchemaInfo_field i field (first +:+ " " +:+ rest)) = first
  /\ loadDataSchemaInfo_field i field first
     = set_DataStoreType (kindStoreType (StructField_Kind field) (StructField_Elem field))
         (set_ColumnName first (newDataSchemaField i field)).
Proof.
  intros Hfirst Hword.
  assert (parseFieldTag (newDataSchemaField i field) (first +:+ " " +:+ rest)
          = parseFieldTag (set_ColumnName first (newDataSchemaField i field)) rest) as Hparse.
  { replace (first +:+ " " +:+ rest) with (first +:+ String " " rest) by str_eq.
    apply parseFieldTag_first_word; [reflexivity|exact Hfirst|exact Hword]. }
  repeat apply conj.
  - exact Hparse.
  - unfold loadDataSchemaInfo_field. rewrite Hparse.
    assert (ColumnName (parseFieldTag (set_ColumnName first (newDataSchemaField i field)) rest)
            = first) as Hcol.
    { unfold parseFieldTag.
      rewrite parseFieldTag_indexName_ColumnName, parseFieldTag_parts_ColumnName;
        [reflexivity|exact Hfirst]. }
    set (f := parseFieldTag (set_ColumnName first (newDataSchemaField i field)) rest) in *.
    cbn zeta.
    destruct (String.eqb_spec (ColumnName f) "") as [E|_];
      [rewrite Hcol in E; contradiction|].
    destruct (DataStoreType f =? "")%string; exact Hcol.
  - unfold loadDataSchemaInfo_field.
    rewrite parseFieldTag_one_word by (reflexivity || assumption).
    unfold parseFieldTag_indexName. cbn.
    destruct (String.eqb_spec first "") as [E|_]; [contradiction|]. reflexivity.
Qed.

Lemma first_word_names_the_column_witness :
  ColumnName (loadDataSchemaInfo_field 0 (tagged "ID" reflect_Int "pk ai") "pk ai") = "pk"
  /\ IsPrimaryKey (loadDataSchemaInfo_field 0 (tagged "ID" reflect_Int "pk ai") "pk ai") = false
  /\ loadDataSchemaInfo_field 0 (tagged "ID" reflect_Int "pk") "pk"
     = mkDataSchemaField "ID" reflect_Int 0 "pk" false false false "bigint(20)" "" 0 "" 0 "" "".
Proof.
  destruct (first_word_names_the_column 0 (tagged "ID" reflect_Int "pk ai") "pk" "ai")
    as (_ & Hcolumn & _); [discriminate|reflexivity|].
  destruct (first_word_names_the_column 0 (tagged "ID" reflect_Int "pk") "pk" "")
    as (_ & _ & Hone); [discriminate|reflexivity|].
  repeat apply conj; [exact Hcolumn|reflexivity|exact Hone].
Defined.

Lemma strings_Split_not_blank (s : string) :
  Forall (fun p => p = "") (strings_Split s " ") -> blank s = true.
Proof.
  induction s as [|b s IH]; intros Hparts; [reflexivity|].
  cbn [strings_Split] in Hparts. cbn [blank].
  destruct (b =? " ")%char.
  - apply Forall_cons in Hparts as [_ Hparts]. apply IH, Hparts.
  - destruct (strings_Split s " ") as [|part parts];
      apply Forall_cons in Hparts as [Hpart _]; discriminate Hpart.
Qed.

Lemma strings_Split_no_separator (sep : ascii) (s : string) :
  Forall (fun p => hasByte sep p = false) (strings_Split s sep).
Proof.
  induction s as [|b s IH]; [repeat constructor|].
  cbn [strings_Split]. rewrite (Ascii.eqb_sym b sep).
  destruct (sep =? b)%char eqn:Hb.
  - constructor; [reflexivity|exact IH].
  - destruct (strings_Split s sep) as [|part parts].
    + repeat constructor. cbn [hasByte]. rewrite (Ascii.eqb_sym b sep), Hb. reflexivity.
    + apply Forall_cons in IH as [Hpart Hparts].
      constructor; [|exact Hparts].
      cbn [hasByte]. rewrite (Ascii.eqb_sym b sep), Hb. exact Hpart.
Qed.

Lemma first_word_found (s : string) :
  blank s = false ->
  exists word,
    find (fun p => negb (p =? "")%string) (strings_Split s " ") = Some word
    /\ word <> "" /\ hasByte " " word = false.
Proof.
  intros Hs.
  destruct (find (fun p => negb (p =? "")%string) (strings_Split s " ")) as [word|] eqn:Hfind.
  - exists word. split; [reflexivity|].
    apply find_some in Hfind as [Hin Hword]. split.
    + intros ->. discriminate Hword.
    + pose proof (strings_Split_no_separator " " s) as Hparts.
      rewrite List.Forall_forall in Hparts. apply Hparts, Hin.
  - assert (blank s = true) as Hblank; [|congruence].
    apply strings_Split_not_blank, List.Forall_forall. intros p Hp.
    pose proof (find_none _ _ Hfind p Hp) as Hempty. cbn beta in Hempty.
    destruct (String.eqb_spec p "") as [E|_]; [exact E|discriminate Hempty].
Qed.

Lemma parseFieldTag_parts_first_word (parts : list string) (field : dataSchemaField)
    (word : string) :
  ColumnName field = "" ->
  find (fun p => negb (p =? "")%string) parts = Some word ->
  ColumnName (fold_left parseFieldTag_part parts field) = word.
Proof.
  intros Hunnamed. induction parts as [|p parts IH]; [discriminate|].
  cbn [find fold_left]. unfold parseFieldTag_part at 2.
  destruct (String.eqb_spec p "") as [->|Hp]; cbn [negb].
  - exact IH.
  - intros [= <-]. rewrite Hunnamed. cbn [String.eqb].
    rewrite parseFieldTag_parts_ColumnName; [reflexivity|exact Hp].
Qed.

(** X3.  The column name is taken from the name of the struct field when,
    and only when, the tag holds no word at all.  For an empty tag, or one
    of blanks only, the description of the field is the fresh one with the
    field's name as column name and the type of the field's kind.  For
    every other tag the column name is the first word of the tag (the
    first non-empty part between blanks), whatever the name of the struct
    field is. *)
Theorem blank_tag_uses_field_name (i : nat) (field : StructField) (tag : string) :
  (blank tag = true ->
   loadDataSchemaInfo_field i field tag
   = set_DataStoreType (kindStoreType (StructField_Kind field) (StructField_Elem field))
       (set_ColumnName (StructField_Name field) (newDataSchemaField i field)))
  /\ (blank tag = false ->
      exists word,
        find (fun p => negb (p =? "")%string) (strings_Split tag " ") = Some word
        /\ word <> "" /\ hasByte " " word = false
        /\ ColumnName (parseFieldTag (newDataSchemaField i field) tag) = word
        /\ ColumnName (loadDataSchemaInfo_field i field tag) = word).
Proof.
  split.
  - intros Hblank. unfold loadDataSchemaInfo_field, parseFieldTag.
    rewrite parseFieldTag_parts_empty by (apply strings_Split_blank, Hblank).
    reflexivity.
  - intros Hword. destruct (first_word_found tag Hword) as (word & Hfind & Hne & Hplain).
    exists word.
    assert (ColumnName (parseFieldTag (newDataSchemaField i field) tag) = word) as Hcol.
    { unfold parseFieldTag. rewrite parseFieldTag_indexName_ColumnName.
      apply parseFieldTag_parts_first_word; [reflexivity|exact Hfind]. }
    split; [exact Hfind|]. split; [exact Hne|]. split; [exact Hplain|].
    split; [exact Hcol|].
    unfold loadDataSchemaInfo_field.
    set (f := parseFieldTag (newDataSchemaField i field) tag) in *.
    cbn zeta.
    destruct (String.eqb_spec (ColumnName f) "") as [E|_];
      [rewrite Hcol in E; contradiction|].
    destruct (DataStoreType f =? "")%string; exact Hcol.
Qed.

Lemma blank_tag_uses_field_name_witness :
  loadDataSchemaInfo_field 2 (tagged "Age" reflect_Uint8 "  ") "  "
  = mkDataSchemaField "Age" reflect_Uint8 2 "Age" false false false "int(11) unsigned" ""
      0 "" 0 "" ""
  /\ ColumnName (loadDataSchemaInfo_field 2 (tagged "Age" reflect_Uint8 "  age int") "  age int")
     = "age".
Proof.
  destruct (blank_tag_uses_field_name 2 (tagged "Age" reflect_Uint8 "  ") "  ")
    as [Hblank _].
  destruct (blank_tag_uses_field_name 2 (tagged "Age" reflect_Uint8 "  age int") "  age int")
    as [_ Hword].
  split; [exact (Hblank eq_refl)|].
  destruct (Hword eq_refl) as (word & Hfind & _ & _ & _ & Hcolumn).
  injection Hfind as <-. exact Hcolumn.
Defined.

(** X4.  Every description that [loadDataSchemaInfo] stores keeps the name,
    kind and position of its struct field and has a column type; its
    column name is empty only if the field name is; its index type is one
    of the four constants; it has an index name exactly when it belongs to
    an index; and a field whose index type is [PRIMARY_KEY] has the index
    name [PRIMARY] and the primary-key flag. *)
Theorem described_field_invariants (i : nat) (field : StructField) (tag : string) :
  let f := loadDataSchemaInfo_field i field tag in
  Name f = StructField_Name field
  /\ FieldType f = StructField_Kind field
  /\ FieldIndex f = i
  /\ DataStoreType f <> ""
  /\ (ColumnName f = "" -> StructField_Name field = "")
  /\ (IndexType f = NONE \/ IndexType f = INDEX \/ IndexType f = UNIQUE
      \/ IndexType f = PRIMARY_KEY)
  /\ (IndexType f = NONE <-> indexName f = "")
  /\ (IndexType f = PRIMARY_KEY -> indexName f = "PRIMARY" /\ IsPrimaryKey f = true)
  /\ (SerializeMethod f = NONE \/ SerializeMethod f = ARRAY \/ SerializeMethod f = JSON
      \/ SerializeMethod f = YAML).
Proof.
  cbn zeta.
  destruct (tagInvariant_described i field tag)
    as ((HN & HT & HI & Hrange & Hnone & Hpk & Hser) & Hnamed & Htype & Hcol).
  cbn zeta in *. repeat apply conj; try assumption.
  intros Hempty. destruct (Z.eq_dec (IndexType (loadDataSchemaInfo_field i field tag)) NONE)
    as [E|E]; [exact E|]. apply Hnamed in E. contradiction.
Qed.

(** X5.  The option [unsigned] is appended to the column type that the
    tag has named before it: after a type it gives an unsigned type;
    before a type it is lost, the type option overwriting it; and without
    any type option the column type is the bare text [ unsigned], the type
    of the field's kind not being used. *)
Theorem unsigned_follows_the_type (i : nat) (field : StructField) (column : string) :
  column <> "" -> hasByte " " column = false ->
  DataStoreType (loadDataSchemaInfo_field i field (column +:+ " int unsigned"))
  = "int(11) unsigned"
  /\ DataStoreType (loadDataSchemaInfo_field i field (column +:+ " unsigned int")) = "int(11)"
  /\ DataStoreType (loadDataSchemaInfo_field i field (column +:+ " unsigned")) = " unsigned".
Proof.
  intros Hcolumn Hword.
  assert (Hwords : forall rest,
             DataStoreType (loadDataSchemaInfo_field i field (column +:+ String " " rest))
             = let f := parseFieldTag (set_ColumnName column (newDataSchemaField i field)) rest in
               if (DataStoreType f =? "")%string
               then kindStoreType (StructField_Kind field) (StructField_Elem field)
               else DataStoreType f).
  { intros rest. unfold loadDataSchemaInfo_field.
    rewrite parseFieldTag_first_word by (reflexivity || assumption). cbn zeta.
    destruct (ColumnName _ =? "")%string; destruct (DataStoreType _ =? "")%string eqn:E;
      cbn; rewrite ?E; reflexivity. }
  assert (Hnamed : ColumnName (set_ColumnName column (newDataSchemaField i field)) <> "")
    by exact Hcolumn.
  repeat apply conj.
  - replace (column +:+ " int unsigned") with (column +:+ String " " "int unsigned") by str_eq.
    rewrite Hwords. unfold parseFieldTag.
    change (strings_Split "int unsigned" " ") with ["int"; "unsigned"]. cbn [fold_left].
    rewrite (parseFieldTag_part_option _ "int") by (exact Hnamed || discriminate).
    rewrite (parseFieldTag_part_option _ "unsigned") by (exact Hnamed || discriminate).
    reflexivity.
  - replace (column +:+ " unsigned int") with (column +:+ String " " "unsigned int") by str_eq.
    rewrite Hwords. unfold parseFieldTag.
    change (strings_Split "unsigned int" " ") with ["unsigned"; "int"]. cbn [fold_left].
    rewrite (parseFieldTag_part_option _ "unsigned") by (exact Hnamed || discriminate).
    rewrite (parseFieldTag_part_option _ "int") by (exact Hnamed || discriminate).
    reflexivity.
  - replace (column +:+ " unsigned") with (column +:+ String " " "unsigned") by str_eq.
    rewrite Hwords. unfold parseFieldTag.
    change (strings_Split "unsigned" " ") with ["unsigned"]. cbn [fold_left].
    rewrite (parseFieldTag_part_option _ "unsigned") by (exact Hnamed || discriminate).
    reflexivity.
Qed.

Lemma unsigned_follows_the_type_witness :
  DataStoreType (loadDataSchemaInfo_field 0 (tagged "N" reflect_Uint32 "n unsigned") "n unsigned")
  = " unsigned"
  /\ DataStoreType (loadDataSchemaInfo_field 0 (tagged "N" reflect_Uint32 "n unsigned int")
                      "n unsigned int") = "int(11)".
Proof.
  destruct (unsigned_follows_the_type 0 (tagged "N" reflect_Uint32 "n unsigned") "n")
    as (_ & Hlost & Hbare); [discriminate|reflexivity|].
  split; [exact Hbare|exact Hlost].
Defined.

(** ** The description of a struct type *)

Lemma loadDataSchemaInfo_loop_spec (fields : list StructField) :
  forall (i : nat) (info : dataSchemaInfo) (before : list (option dataSchemaField)),
    Fields info = before ++ replicate (List.length fields) None ->
    List.length before = i ->
    let entries :=
      imap (fun j field => option_map (loadDataSchemaInfo_field (i + j) field)
                             (StructField_db field)) fields in
    let result := loadDataSchemaInfo_loop i fields info in
    Fields result = before ++ entries
    /\ ByColumName result
       = fold_left (fun m f => <[ColumnName f := f]> m) (omap id entries) (ByColumName info)
    /\ AIField result
       = fold_left (fun a f => if IsAutoincrement f then Some f else a) (omap id entries)
           (AIField info).
Proof.
  induction fields as [|field rest IH]; intros i info before Hfields Hlength.
  - cbn. rewrite Hfields. cbn. repeat split.
  - cbn zeta. cbn [loadDataSchemaInfo_loop].
    set (entry := option_map (loadDataSchemaInfo_field i field) (StructField_db field)).
    set (info' := match StructField_db field with
                  | Some tag => _
                  | None => info
                  end).
    assert (Fields info' = (before ++ [entry]) ++ replicate (List.length rest) None) as Hstep.
    { subst info' entry. rewrite <- app_assoc. cbn [List.length replicate] in Hfields.
      destruct (StructField_db field) as [tag|]; cbn; [|exact Hfields].
      rewrite Hfields, <- Hlength.
      rewrite (insert_app_r_alt before _ (List.length before)) by lia.
      rewrite Nat.sub_diag. reflexivity. }
    destruct (IH (S i) info' (before ++ [entry]) Hstep) as (HF & HB & HA).
    { rewrite length_app. cbn. lia. }
    cbn zeta in HF, HB, HA.
    assert (imap (fun j f => option_map (loadDataSchemaInfo_field (i + j) f) (StructField_db f))
              (field :: rest)
            = entry :: imap (fun j f => option_map (loadDataSchemaInfo_field (S i + j) f)
                                          (StructField_db f)) rest) as Himap.
    { cbn [imap]. rewrite Nat.add_0_r. f_equal. apply imap_ext. intros j f _. cbn.
      replace (i + S j)%nat with (S (i + j)) by lia. reflexivity. }
    rewrite Himap, HF, HB, HA, <- app_assoc.
    split; [reflexivity|].
    subst info' entry. destruct (StructField_db field) as [tag|]; cbn; split; reflexivity.
Qed.

Lemma fold_insert_last (l : list dataSchemaField) :
  forall (m : gmap string dataSchemaField) (column : string),
    fold_left (fun m f => <[ColumnName f := f]> m) l m !! column
    = match last (List.filter (fun f => (ColumnName f =? column)%string) l) with
      | Some f => Some f
      | None => m !! column
      end.
Proof.
  induction l as [|f l IH]; intros m column; [reflexivity|].
  cbn [fold_left List.filter]. rewrite IH.
  destruct (String.eqb_spec (ColumnName f) column) as [E|E].
  - rewrite last_cons.
    destruct (last (List.filter _ l)); [reflexivity|].
    rewrite E. apply lookup_insert_eq.
  - destruct (last (List.filter _ l)); [reflexivity|].
    apply lookup_insert_ne, E.
Qed.

Lemma fold_last_filter {A : Type} (p : A -> bool) (l : list A) :
  forall a : option A,
    fold_left (fun a x => if p x then Some x else a) l a
    = match last (List.filter p l) with
      | Some x => Some x
      | None => a
      end.
Proof.
  induction l as [|x l IH]; intros a; [reflexivity|].
  cbn [fold_left List.filter]. rewrite IH.
  destruct (p x); [|reflexivity].
  rewrite last_cons. destruct (last (List.filter p l)); reflexivity.
Qed.

Lemma loadDataSchemaInfo_Fields (v : list StructField) :
  Fields (loadDataSchemaInfo v)
  = imap (fun i field => option_map (loadDataSchemaInfo_field i field) (StructField_db field)) v.
Proof.
  unfold loadDataSchemaInfo.
  destruct (loadDataSchemaInfo_loop_spec v 0
              {| Fields := replicate (List.length v) None; ByColumName := ∅; AIField := None |}
              [] eq_refl eq_refl) as (HF & _).
  exact HF.
Qed.

Lemma described_Fields (v : list StructField) :
  omap id (Fields (loadDataSchemaInfo v)) = described v.
Proof. rewrite loadDataSchemaInfo_Fields. reflexivity. Qed.

(** X6.  [loadDataSchemaInfo] describes a struct type field by field:
    [Fields] has one entry per field of the struct, at the position of the
    field, [nil] for a field without [db] tag; [ByColumName] finds for a
    column name the last tagged field that has this column name, and
    nothing for a name that no tagged field has; [AIField] is the last
    tagged field marked [ai], and [nil] without such a field. *)
Theorem loadDataSchemaInfo_describes (v : list StructField) :
  let info := loadDataSchemaInfo v in
  List.length (Fields info) = List.length v
  /\ (forall i field,
         v !! i = Some field ->
         Fields info !! i
         = Some (option_map (loadDataSchemaInfo_field i field) (StructField_db field)))
  /\ (forall column,
         ByColumName info !! column
         = last (List.filter (fun f => (ColumnName f =? column)%string) (described v)))
  /\ AIField info = last (List.filter IsAutoincrement (described v)).
Proof.
  cbn zeta.
  destruct (loadDataSchemaInfo_loop_spec v 0
              {| Fields := replicate (List.length v) None; ByColumName := ∅; AIField := None |}
              [] eq_refl eq_refl) as (HF & HB & HA).
  cbn zeta in HF, HB, HA. cbn [app] in HF.
  fold (loadDataSchemaInfo v) in HF, HB, HA.
  repeat apply conj.
  - rewrite HF. apply length_imap.
  - intros i field Hfield. rewrite HF, list_lookup_imap, Hfield. reflexivity.
  - intros column. rewrite HB. cbn [ByColumName]. rewrite fold_insert_last.
    unfold described. cbn [Nat.add].
    destruct (last _); [reflexivity|apply lookup_empty].
  - rewrite HA. cbn [AIField]. rewrite fold_last_filter.
    unfold described. cbn [Nat.add]. destruct (last _); reflexivity.
Qed.

(** ** GetSchema *)

Lemma GetSchema_fold (l : list (option dataSchemaField)) :
  forall ret : Schema,
    let sc := fold_left GetSchema_step l ret in
    Schema_Name sc = Schema_Name ret
    /\ Schema_Engine sc = Schema_Engine ret
    /\ Schema_Collate sc = Schema_Collate ret
    /\ Schema_Comment sc = Schema_Comment ret
    /\ Schema_Fields sc = Schema_Fields ret ++ map GetSchema_Field (omap id l)
    /\ Schema_Indices sc = fold_left GetSchema_index (omap id l) (Schema_Indices ret).
Proof.
  induction l as [|[field|] l IH]; intros ret.
  - cbn. rewrite app_nil_r. repeat split.
  - cbn zeta. cbn [fold_left].
    destruct (IH (GetSchema_step ret (Some field))) as (HN & HE & HC & HM & HF & HI).
    cbn zeta in *. rewrite HN, HE, HC, HM, HF, HI. cbn. rewrite <- app_assoc.
    repeat split.
  - cbn zeta. cbn [fold_left]. apply IH.
Qed.

Lemma GetSchema_append_None (indices : list Index) (name column : string) :
  GetSchema_append indices name column = None <->
  (forall index, In index indices -> Index_Name index <> name).
Proof.
  induction indices as [|index rest IH]; cbn [GetSchema_append].
  - split; [intros _ index []|reflexivity].
  - destruct (String.eqb_spec (Index_Name index) name) as [E|E].
    + split; [discriminate|]. intros H. exfalso. apply (H index); [left; reflexivity|exact E].
    + destruct (GetSchema_append rest name column) eqn:Hrest; cbn.
      * split; [discriminate|]. intros H.
        assert (Some l = None) as Hnone
          by (apply IH; intros i Hi; apply H; right; exact Hi).
        discriminate Hnone.
      * split; [|reflexivity]. intros _ i [<-|Hi]; [exact E|].
        apply (proj1 IH eq_refl), Hi.
Qed.

Lemma GetSchema_append_Some (indices indices' : list Index) (name column : string) :
  GetSchema_append indices name column = Some indices' ->
  exists before index after,
    indices = before ++ index :: after
    /\ Index_Name index = name
    /\ (forall i, In i before -> Index_Name i <> name)
    /\ indices' = before ++ appendColumn column index :: after.
Proof.
  revert indices'. induction indices as [|index rest IH]; intros indices';
    cbn [GetSchema_append]; [discriminate|].
  destruct (String.eqb_spec (Index_Name index) name) as [E|E].
  - intros [= <-]. exists [], index, rest. repeat split; [exact E|intros i []].
  - destruct (GetSchema_append rest name column) as [found|]; [|discriminate].
    cbn. intros [= <-].
    destruct (IH found eq_refl) as (before & i & after & -> & Hname & Hbefore & ->).
    exists (index :: before), i, after. repeat split; [exact Hname|].
    intros j [<-|Hj]; [exact E|apply Hbefore, Hj].
Qed.

Lemma filter_snoc {A : Type} (p : A -> bool) (l : list A) (x : A) :
  List.filter p (l ++ [x]) = List.filter p l ++ (if p x then [x] else []).
Proof. rewrite List.filter_app. cbn. destruct (p x); reflexivity. Qed.

Lemma inIndex_name (name : string) (f : dataSchemaField) :
  inIndex name f = true <-> IndexType f <> NONE /\ indexName f = name.
Proof.
  unfold inIndex. rewrite andb_true_iff, negb_true_iff, Z.eqb_neq, String.eqb_eq.
  reflexivity.
Qed.

Lemma inIndex_other (name : string) (f : dataSchemaField) :
  indexName f <> name -> inIndex name f = false.
Proof.
  intros Hne. destruct (inIndex name f) eqn:E; [|reflexivity].
  apply inIndex_name in E as [_ E]. contradiction.
Qed.

Lemma grouped_step (fs : list dataSchemaField) (indices : list Index) (f : dataSchemaField) :
  grouped fs indices -> grouped (fs ++ [f]) (GetSchema_index indices f).
Proof.
  intros (Hnames & Hmembers & Hcovered). unfold GetSchema_index.
  destruct (Z.eqb_spec (IndexType f) NONE) as [Hnone|Hindexed]; cbn [negb].
  - repeat split.
    + exact Hnames.
    + intros index Hindex.
      destruct (Hmembers index Hindex) as (first & others & Hfilter & Hrest).
      exists first, others. split; [|exact Hrest].
      rewrite filter_snoc, Hfilter.
      replace (inIndex (Index_Name index) f) with false
        by (unfold inIndex; rewrite Hnone; reflexivity).
      apply app_nil_r.
    + intros g Hg Hgi. apply in_app_or in Hg as [Hg|[<-|[]]]; [|contradiction].
      apply Hcovered; assumption.
  - destruct (GetSchema_append indices (indexName f) (ColumnName f)) as [indices'|] eqn:Happend.
    + apply GetSchema_append_Some in Happend
        as (before & index & after & -> & Hname & Hbefore & ->).
      assert (map Index_Name (before ++ appendColumn (ColumnName f) index :: after)
              = map Index_Name (before ++ index :: after)) as Hsame
        by (rewrite !map_app; reflexivity).
      assert (forall i, In i before \/ In i after -> Index_Name i <> indexName f) as Hothers.
      { intros i [Hi|Hi]; [apply Hbefore, Hi|].
        rewrite map_app in Hnames. cbn [map] in Hnames.
        apply NoDup_app in Hnames as (_ & _ & Hnames).
        apply NoDup_cons in Hnames as [Hnames _]. intros E. apply Hnames.
        apply list_elem_of_In. rewrite Hname, <- E. apply in_map, Hi. }
      repeat split.
      * rewrite Hsame. exact Hnames.
      * intros i Hi. apply in_app_or in Hi as [Hi|[<-|Hi]].
        -- destruct (Hmembers i) as (first & others & Hfilter & Hrest);
             [apply in_or_app; left; exact Hi|].
           exists first, others. split; [|exact Hrest].
           rewrite filter_snoc, Hfilter, inIndex_other, app_nil_r; [reflexivity|].
           intros E. apply (Hothers i); [left; exact Hi|symmetry; exact E].
        -- destruct (Hmembers index) as (first & others & Hfilter & Hcolumns & Hkind);
             [apply in_or_app; right; left; reflexivity|].
           exists first, (others ++ [f]). cbn [appendColumn Index_Name Index_Columns
             Index_Primary Index_Unique].
           split; [|split; [|exact Hkind]].
           ++ rewrite filter_snoc, Hfilter.
              replace (inIndex (Index_Name index) f) with true; [reflexivity|].
              symmetry. apply inIndex_name. split; [exact Hindexed|symmetry; exact Hname].
           ++ rewrite Hcolumns. cbn [map]. rewrite map_app. reflexivity.
        -- destruct (Hmembers i) as (first & others & Hfilter & Hrest);
             [apply in_or_app; right; right; exact Hi|].
           exists first, others. split; [|exact Hrest].
           rewrite filter_snoc, Hfilter, inIndex_other, app_nil_r; [reflexivity|].
           intros E. apply (Hothers i); [right; exact Hi|symmetry; exact E].
      * intros g Hg Hgi. apply in_app_or in Hg as [Hg|[<-|[]]].
        -- destruct (Hcovered g Hg Hgi) as (i & Hi & Hiname).
           apply in_app_or in Hi as [Hi|[<-|Hi]].
           ++ exists i. split; [apply in_or_app; left; exact Hi|exact Hiname].
           ++ exists (appendColumn (ColumnName f) index).
              split; [apply in_or_app; right; left; reflexivity|exact Hiname].
           ++ exists i. split; [apply in_or_app; right; right; exact Hi|exact Hiname].
        -- exists (appendColumn (ColumnName f) index).
           split; [apply in_or_app; right; left; reflexivity|exact Hname].
    + pose proof (proj1 (GetSchema_append_None _ _ _) Happend) as Hfresh.
      repeat split.
      * rewrite map_app. cbn [map GetSchema_Index Index_Name].
        apply NoDup_app. split; [exact Hnames|split].
        -- intros name Hname Hnew. apply list_elem_of_In in Hname.
           apply list_elem_of_singleton in Hnew. subst name.
           apply in_map_iff in Hname as (i & Hiname & Hi). apply (Hfresh i Hi Hiname).
        -- apply NoDup_singleton.
      * intros i Hi. apply in_app_or in Hi as [Hi|[<-|[]]].
        -- destruct (Hmembers i Hi) as (first & others & Hfilter & Hrest).
           exists first, others. split; [|exact Hrest].
           rewrite filter_snoc, Hfilter, inIndex_other, app_nil_r; [reflexivity|].
           intros E. apply (Hfresh i Hi). symmetry. exact E.
        -- exists f, []. cbn [GetSchema_Index Index_Name Index_Columns Index_Primary
             Index_Unique map].
           split; [|repeat split].
           rewrite filter_snoc.
           replace (inIndex (indexName f) f) with true
             by (symmetry; apply inIndex_name; split; [exact Hindexed|reflexivity]).
           replace (List.filter (inIndex (indexName f)) fs) with (@nil dataSchemaField);
             [reflexivity|].
           symmetry. apply filter_none. intros g Hg.
           destruct (inIndex (indexName f) g) eqn:E; [|reflexivity].
           apply inIndex_name in E as [Hgi Hgname].
           destruct (Hcovered g Hg Hgi) as (i & Hi & Hiname).
           exfalso. apply (Hfresh i Hi). rewrite Hiname. exact Hgname.
      * intros g Hg Hgi. apply in_app_or in Hg as [Hg|[<-|[]]].
        -- destruct (Hcovered g Hg Hgi) as (i & Hi & Hiname).
           exists i. split; [apply in_or_app; left; exact Hi|exact Hiname].
        -- exists (GetSchema_Index f).
           split; [apply in_or_app; right; left; reflexivity|reflexivity].
Qed.

Lemma grouped_fold (l fs : list dataSchemaField) (indices : list Index) :
  grouped fs indices -> grouped (fs ++ l) (fold_left GetSchema_index l indices).
Proof.
  revert fs indices. induction l as [|f l IH]; intros fs indices Hgrouped.
  - rewrite app_nil_r. exact Hgrouped.
  - cbn [fold_left]. replace (fs ++ f :: l) with ((fs ++ [f]) ++ l)
      by (rewrite <- app_assoc; reflexivity).
    apply IH, grouped_step, Hgrouped.
Qed.

Lemma grouped_nil : grouped [] [].
Proof.
  repeat split; [constructor|intros index []|intros f []].
Qed.

Lemma GetSchema_struct (type : list StructField) :
  exists sc,
    GetSchema (any_struct type) = Some sc
    /\ Schema_Name sc = "" /\ Schema_Engine sc = "" /\ Schema_Collate sc = ""
    /\ Schema_Comment sc = ""
    /\ Schema_Fields sc = map GetSchema_Field (described type)
    /\ grouped (described type) (Schema_Indices sc).
Proof.
  eexists. split; [reflexivity|].
  destruct (GetSchema_fold (Fields (loadDataSchemaInfo type)) (mkSchema "" [] [] "" "" ""))
    as (HN & HE & HC & HM & HF & HI).
  cbn zeta in *.
  split; [exact HN|]. split; [exact HE|]. split; [exact HC|]. split; [exact HM|].
  split; [rewrite HF, described_Fields; reflexivity|].
  rewrite HI, described_Fields. apply (grouped_fold (described type) [] []), grouped_nil.
Qed.

Lemma described_In (v : list StructField) (f : dataSchemaField) :
  In f (described v) ->
  exists i field tag,
    v !! i = Some field /\ StructField_db field = Some tag
    /\ f = loadDataSchemaInfo_field i field tag.
Proof.
  intros Hf. apply list_elem_of_In in Hf. unfold described in Hf.
  apply list_elem_of_omap in Hf as (entry & Hentry & Hsome). cbn in Hsome. subst entry.
  apply elem_of_lookup_imap in Hentry as (i & field & Heq & Hfield).
  destruct (StructField_db field) as [tag|] eqn:Htag; [|discriminate].
  injection Heq as ->. exists i, field, tag. repeat split; assumption.
Qed.

Lemma GetSchema_followPointer (v : any) : GetSchema v = GetSchema (followPointer v).
Proof.
  induction v as [type|target IH| |]; try reflexivity.
  unfold GetSchema in *. cbn [followPointer]. exact IH.
Qed.

Lemma followPointer_idempotent (v : any) : followPointer (followPointer v) = followPointer v.
Proof. induction v; try reflexivity. exact IHv. Qed.

Lemma GetSchema_grouped (v : any) (type : list StructField) (sc : Schema) :
  followPointer v = any_struct type -> GetSchema v = Some sc ->
  Schema_Fields sc = map GetSchema_Field (described type)
  /\ grouped (described type) (Schema_Indices sc).
Proof.
  intros Hv Hsc. rewrite GetSchema_followPointer, Hv in Hsc.
  destruct (GetSchema_struct type) as (sc' & Hsc' & _ & _ & _ & _ & HF & HG).
  rewrite Hsc in Hsc'. injection Hsc' as <-. split; assumption.
Qed.

Lemma tagged_count {A : Type} (describe : nat -> StructField -> string -> A)
    (type : list StructField) :
  List.length (omap id (imap (fun i field => option_map (describe i field)
                                               (StructField_db field)) type))
  = List.length (List.filter (fun field => bool_decide (is_Some (StructField_db field))) type).
Proof.
  revert describe. induction type as [|field rest IH]; intros describe; [reflexivity|].
  cbn [imap omap List.filter].
  specialize (IH (fun i => describe (S i))).
  destruct (StructField_db field) as [tag|]; cbn; rewrite <- IH; reflexivity.
Qed.

Example GetSchema_test_struct :
  GetSchema (any_pointer (any_struct test_struct)) = Some test_schema.
Proof. vm_compute. reflexivity. Qed.

(** X7.  [GetSchema] looks through pointers; it returns [nil] for a nil
    pointer and for any value that is not a struct; for a struct it
    returns a schema that has one column per tagged field, in the order of
    the struct, the fields without [db] tag being left out, and whose
    table name, engine, collation and comment are empty. *)
Theorem GetSchema_columns (v : any) :
  GetSchema (any_pointer v) = GetSchema v
  /\ GetSchema any_nil = None
  /\ GetSchema any_other = None
  /\ (forall type,
         followPointer v = any_struct type ->
         exists sc,
           GetSchema v = Some sc
           /\ Schema_Name sc = "" /\ Schema_Engine sc = "" /\ Schema_Collate sc = ""
           /\ Schema_Comment sc = ""
           /\ Schema_Fields sc = map GetSchema_Field (described type)
           /\ List.length (Schema_Fields sc)
              = List.length (List.filter (fun field => bool_decide (is_Some (StructField_db field)))
                               type))
  /\ ((forall type, followPointer v <> any_struct type) -> GetSchema v = None).
Proof.
  repeat apply conj; try reflexivity.
  - intros type Hv.
    destruct (GetSchema_struct type) as (sc & Hsc & HN & HE & HC & HM & HF & _).
    exists sc. rewrite GetSchema_followPointer, Hv.
    repeat (split; [assumption|]).
    rewrite HF, length_map. apply tagged_count.
  - intros Hv. rewrite GetSchema_followPointer.
    destruct (followPointer v) as [type| | |] eqn:E; try reflexivity.
    + exfalso. apply (Hv type). reflexivity.
    + exfalso. clear Hv. induction v; try discriminate. apply IHv, E.
Qed.

(** X8.  The indexes of the schema that [GetSchema] returns are the groups
    of the tagged fields by index name: the names of the indexes are
    pairwise distinct; an index holds, in the order of the struct, the
    columns of the fields that belong to an index of its name, and is
    primary or unique as the first of these fields says; and every field
    that belongs to an index is in the index of that name. *)
Theorem GetSchema_groups_by_index_name (v : any) (type : list StructField) (sc : Schema) :
  followPointer v = any_struct type -> GetSchema v = Some sc ->
  NoDup (map Index_Name (Schema_Indices sc))
  /\ (forall index, In index (Schema_Indices sc) ->
        exists first others,
          List.filter (inIndex (Index_Name index)) (described type) = first :: others
          /\ Index_Columns index = map ColumnName (first :: others)
          /\ Index_Primary index = (IndexType first =? PRIMARY_KEY)%Z
          /\ Index_Unique index = (IndexType first =? UNIQUE)%Z)
  /\ (forall f, In f (described type) -> IndexType f <> NONE ->
        exists index, In index (Schema_Indices sc) /\ Index_Name index = indexName f).
Proof.
  intros Hv Hsc. exact (proj2 (GetSchema_grouped v type sc Hv Hsc)).
Qed.

Lemma GetSchema_groups_by_index_name_witness :
  NoDup (map Index_Name (Schema_Indices test_schema))
  /\ exists first others,
       List.filter (inIndex "idx") (described test_struct) = first :: others
       /\ [ "idx1"; "idx2" ] = map ColumnName (first :: others).
Proof.
  destruct (GetSchema_groups_by_index_name (any_pointer (any_struct test_struct)) test_struct
              test_schema eq_refl GetSchema_test_struct) as (Hnames & Hmembers & _).
  split; [exact Hnames|].
  destruct (Hmembers (mkIndex "idx" ["idx1"; "idx2"] false true))
    as (first & others & Hfilter & Hcolumns & _); [cbn; tauto|].
  exists first, others. split; [exact Hfilter|exact Hcolumns].
Defined.

Lemma GetSchema_index_sound (v : any) (type : list StructField) (sc : Schema) (index : Index) :
  followPointer v = any_struct type -> GetSchema v = Some sc ->
  In index (Schema_Indices sc) ->
  Index_Name index <> ""
  /\ Index_Columns index <> []
  /\ (forall column, In column (Index_Columns index) -> hasField sc column = true)
  /\ (Index_Primary index = true -> Index_Name index = "PRIMARY" /\ Index_Unique index = false).
Proof.
  intros Hv Hsc Hindex.
  destruct (GetSchema_grouped v type sc Hv Hsc) as (HF & _ & Hmembers & _).
  destruct (Hmembers index Hindex) as (first & others & Hfilter & Hcolumns & Hprimary & Hunique).
  assert (forall g, In g (first :: others) ->
                    In g (described type) /\ IndexType g <> NONE
                    /\ indexName g = Index_Name index) as Hmember.
  { intros g Hg. rewrite <- Hfilter in Hg. apply filter_In in Hg as [Hg Hin].
    apply inIndex_name in Hin. tauto. }
  destruct (Hmember first) as (Hfirst & Hindexed & Hname); [left; reflexivity|].
  destruct (described_In type first Hfirst) as (i & field & tag & _ & _ & ->).
  destruct (tagInvariant_described i field tag)
    as ((_ & _ & _ & _ & _ & Hpk & _) & Hnamed & _). cbn zeta in *.
  repeat apply conj.
  - rewrite <- Hname. apply Hnamed, Hindexed.
  - rewrite Hcolumns. discriminate.
  - intros column Hcolumn. rewrite Hcolumns in Hcolumn.
    apply in_map_iff in Hcolumn as (g & <- & Hg).
    destruct (Hmember g Hg) as (Hdescribed & _).
    unfold hasField. apply existsb_exists. exists (GetSchema_Field g).
    split; [rewrite HF; apply in_map, Hdescribed|apply String.eqb_refl].
  - intros Hp. rewrite Hprimary in Hp. apply Z.eqb_eq in Hp. split.
    + rewrite <- Hname. apply Hpk, Hp.
    + rewrite Hunique, Hp. reflexivity.
Qed.

(** X9.  Every index of a schema that [GetSchema] returns has a name, has
    at least one column, and lists only columns of the schema; an index
    that is primary is named [PRIMARY] and is not unique; at most one
    index is primary.  So the schema has neither the index without column
    nor the index without name. *)
Theorem GetSchema_indexes_sound (v : any) (type : list StructField) (sc : Schema) :
  followPointer v = any_struct type -> GetSchema v = Some sc ->
  (forall index, In index (Schema_Indices sc) ->
     Index_Name index <> ""
     /\ Index_Columns index <> []
     /\ (forall column, In column (Index_Columns index) -> hasField sc column = true)
     /\ (Index_Primary index = true -> Index_Name index = "PRIMARY" /\ Index_Unique index = false))
  /\ (List.length (List.filter Index_Primary (Schema_Indices sc)) <= 1)%nat.
Proof.
  intros Hv Hsc. split.
  - intros index Hindex. exact (GetSchema_index_sound v type sc index Hv Hsc Hindex).
  - destruct (GetSchema_grouped v type sc Hv Hsc) as (_ & Hnames & _).
    apply (one_of_a_name Index_Name Index_Primary "PRIMARY"); [exact Hnames|].
    intros index Hindex Hp.
    apply (GetSchema_index_sound v type sc index Hv Hsc Hindex), Hp.
Qed.

Lemma GetSchema_indexes_sound_witness :
  Forall (fun index => Index_Name index <> "" /\ Index_Columns index <> [])
    (Schema_Indices test_schema)
  /\ (List.length (List.filter Index_Primary (Schema_Indices test_schema)) <= 1)%nat.
Proof.
  destruct (GetSchema_indexes_sound (any_pointer (any_struct test_struct)) test_struct
              test_schema eq_refl GetSchema_test_struct) as (Hsound & Hone).
  split; [|exact Hone].
  apply Forall_forall. intros index Hindex. apply list_elem_of_In in Hindex.
  destruct (Hsound index Hindex) as (Hname & Hcolumns & _). split; assumption.
Defined.

(** X10.  A schema that [GetSchema] returns is well-formed as soon as its
    column names are pairwise distinct and its index named [PRIMARY], if
    it has one, is the primary key.  This also holds once the caller has
    set the table name, the engine, the collation and the comment, and
    reconciling such a schema with itself then plans no statement. *)
Theorem GetSchema_wellFormed (v : any) (type : list StructField) (sc D : Schema)
    (escape : string -> string) :
  followPointer v = any_struct type -> GetSchema v = Some sc ->
  NoDup (map Field_Name (Schema_Fields sc)) ->
  (forall index, In index (Schema_Indices sc) ->
                 Index_Name index = "PRIMARY" -> Index_Primary index = true) ->
  Schema_Fields D = Schema_Fields sc -> Schema_Indices D = Schema_Indices sc ->
  wellFormed D = true /\ changeList escape D D = [].
Proof.
  intros Hv Hsc Hcolumns Hprimary HF HI.
  assert (wellFormed D = true) as Hwf.
  { destruct (GetSchema_grouped v type sc Hv Hsc) as (_ & Hnames & _).
    unfold wellFormed. rewrite HF, HI.
    rewrite !andb_true_iff. repeat split.
    - apply bool_decide_eq_true. exact Hcolumns.
    - apply bool_decide_eq_true. exact Hnames.
    - apply forallb_forall. intros index Hindex.
      destruct (GetSchema_index_sound v type sc index Hv Hsc Hindex) as (Hname & _).
      destruct (Index_Primary index) eqn:Hp; [reflexivity|]. cbn [orb].
      apply negb_true_iff, orb_false_iff. split.
      + apply String.eqb_neq, Hname.
      + apply String.eqb_neq. intros E. apply Hprimary in E; [|exact Hindex]. congruence.
    - apply Nat.leb_le.
      apply (one_of_a_name Index_Name Index_Primary "PRIMARY"); [exact Hnames|].
      intros index Hindex Hp.
      apply (GetSchema_index_sound v type sc index Hv Hsc Hindex), Hp. }
  split; [exact Hwf|apply changeList_self, Hwf].
Qed.

Lemma GetSchema_wellFormed_witness :
  let declared := mkSchema "test2" (Schema_Fields test_schema) (Schema_Indices test_schema)
                    "InnoDB" "utf8mb4_general_ci" "" in
  wellFormed declared = true /\ changeList backslashEscape declared declared = [].
Proof.
  apply (GetSchema_wellFormed (any_pointer (any_struct test_struct)) test_struct test_schema
           _ backslashEscape eq_refl GetSchema_test_struct).
  - apply (bool_decide_eq_true_1 _). vm_compute. reflexivity.
  - intros index Hindex Hname. cbn in Hindex.
    destruct Hindex as [<-|[<-|[<-|[]]]]; [reflexivity|discriminate Hname|discriminate Hname].
  - reflexivity.
  - reflexivity.
Defined.

(** ** The statements of Insert and Update *)

Lemma followed_join (sep x : string) (xs : list string) :
  followed sep (x :: xs) = join sep (x :: xs) +:+ sep.
Proof.
  revert x. induction xs as [|y xs IH]; intros x.
  - cbn. str_eq.
  - change (followed sep (x :: y :: xs)) with (x +:+ sep +:+ followed sep (y :: xs)).
    rewrite IH. change (join sep (x :: y :: xs)) with (x +:+ sep +:+ join sep (y :: xs)).
    str_eq.
Qed.

Lemma cutLast_app (s t : string) : cutLast (String.length t) (s +:+ t) = Value s.
Proof.
  unfold cutLast. rewrite length_append.
  replace (String.length t <=? String.length s + String.length t)%nat with true
    by (symmetry; apply Nat.leb_le; lia).
  replace (String.length s + String.length t - String.length t)%nat with (String.length s)
    by lia.
  rewrite substring_0_length. reflexivity.
Qed.

Lemma join_quote (columns : list string) :
  columns <> [] -> "`" +:+ join "`,`" columns +:+ "`" = join "," (map quote columns).
Proof.
  destruct columns as [|x xs]; [contradiction|]. intros _.
  revert x. induction xs as [|y xs IH]; intros x.
  - reflexivity.
  - change (join "`,`" (x :: y :: xs)) with (x +:+ "`,`" +:+ join "`,`" (y :: xs)).
    change (join "," (map quote (x :: y :: xs)))
      with (quote x +:+ "," +:+ join "," (map quote (y :: xs))).
    rewrite <- IH. unfold quote. str_eq.
Qed.

Lemma described_known (v : list StructField) (f : dataSchemaField) :
  In f (described v) ->
  exists g, ByColumName (loadDataSchemaInfo v) !! ColumnName f = Some g
            /\ In g (described v) /\ ColumnName g = ColumnName f.
Proof.
  intros Hf.
  destruct (loadDataSchemaInfo_loop_spec v 0
              {| Fields := replicate (List.length v) None; ByColumName := ∅; AIField := None |}
              [] eq_refl eq_refl) as (_ & HB & _).
  cbn zeta in HB. fold (loadDataSchemaInfo v) in HB. rewrite HB, fold_insert_last.
  cbn [Nat.add]. fold (described v).
  destruct (last (List.filter _ (described v))) as [g|] eqn:Hlast.
  - exists g. split; [reflexivity|].
    apply last_Some in Hlast as (before & Hlast).
    assert (In g (List.filter (fun f0 => (ColumnName f0 =? ColumnName f)%string) (described v)))
      as Hg by (rewrite Hlast; apply in_or_app; right; left; reflexivity).
    apply filter_In in Hg as [Hg Hname]. apply String.eqb_eq in Hname. split; assumption.
  - exfalso. apply last_None in Hlast.
    assert (In f (List.filter (fun f0 => (ColumnName f0 =? ColumnName f)%string) (described v)))
      as Hin by (apply filter_In; split; [exact Hf|apply String.eqb_refl]).
    rewrite Hlast in Hin. destruct Hin.
Qed.

Lemma ByColumName_described (v : list StructField) (column : string) (f : dataSchemaField) :
  ByColumName (loadDataSchemaInfo v) !! column = Some f ->
  In f (described v) /\ ColumnName f = column.
Proof.
  destruct (loadDataSchemaInfo_loop_spec v 0
              {| Fields := replicate (List.length v) None; ByColumName := ∅; AIField := None |}
              [] eq_refl eq_refl) as (_ & HB & _).
  cbn zeta in HB. fold (loadDataSchemaInfo v) in HB. rewrite HB, fold_insert_last.
  cbn [Nat.add]. fold (described v).
  destruct (last (List.filter _ (described v))) as [g|] eqn:Hlast;
    [|cbn [ByColumName]; rewrite lookup_empty; discriminate].
  intros [= ->]. apply last_Some in Hlast as (before & Hlast).
  assert (In f (List.filter (fun f0 => (ColumnName f0 =? column)%string) (described v)))
    as Hf by (rewrite Hlast; apply in_or_app; right; left; reflexivity).
  apply filter_In in Hf as [Hf Hname]. apply String.eqb_eq in Hname. split; assumption.
Qed.

Lemma untagged_Fields (v : list StructField) :
  (exists field, In field v /\ StructField_db field = None) ->
  In None (Fields (loadDataSchemaInfo v)).
Proof.
  intros (field & Hfield & Htag). rewrite loadDataSchemaInfo_Fields.
  apply list_elem_of_In, list_elem_of_lookup in Hfield as (i & Hi).
  apply list_elem_of_In, list_elem_of_lookup. exists i.
  rewrite list_lookup_imap, Hi. cbn. rewrite Htag. reflexivity.
Qed.

Lemma tagged_entries {A : Type} (describe : nat -> StructField -> string -> A)
    (v : list StructField) :
  (forall field, In field v -> StructField_db field <> None) ->
  imap (fun i field => option_map (describe i field) (StructField_db field)) v
  = map Some (omap id (imap (fun i field => option_map (describe i field)
                                              (StructField_db field)) v)).
Proof.
  revert describe. induction v as [|field rest IH]; intros describe Htagged; [reflexivity|].
  cbn [imap omap].
  assert (forall f, In f rest -> StructField_db f <> None) as Hrest
    by (intros f Hf; apply Htagged; right; exact Hf).
  specialize (IH (fun i => describe (S i)) Hrest).
  destruct (StructField_db field) as [tag|] eqn:Htag;
    [|exfalso; apply (Htagged field); [left; reflexivity|exact Htag]].
  cbn. f_equal. exact IH.
Qed.

Lemma tagged_Fields (v : list StructField) :
  (forall field, In field v -> StructField_db field <> None) ->
  Fields (loadDataSchemaInfo v) = map Some (described v).
Proof.
  intros Htagged. rewrite loadDataSchemaInfo_Fields. unfold described.
  apply tagged_entries, Htagged.
Qed.

Lemma nil_entry_or_all {A : Type} (l : list (option A)) :
  In None l \/ l = map Some (omap id l).
Proof.
  induction l as [|[x|] l [IH|IH]].
  - right. reflexivity.
  - left. right. exact IH.
  - right. cbn. f_equal. exact IH.
  - left. left. reflexivity.
  - left. left. reflexivity.
Qed.

Lemma Update_columns_None (fields : list (option dataSchemaField)) (columns : list string) :
  In None fields -> Update_columns fields columns = Panic.
Proof.
  revert columns. induction fields as [|[f|] rest IH]; intros columns Hnil.
  - destruct Hnil.
  - destruct Hnil as [Hnil|Hnil]; [discriminate|].
    cbn [Update_columns]. destruct (_ || _); apply IH, Hnil.
  - reflexivity.
Qed.

Lemma Update_pks_None (fields : list (option dataSchemaField)) (pks : list dataSchemaField) :
  In None fields -> Update_pks fields pks = Panic.
Proof.
  revert pks. induction fields as [|[f|] rest IH]; intros pks Hnil.
  - destruct Hnil.
  - destruct Hnil as [Hnil|Hnil]; [discriminate|].
    cbn [Update_pks]. destruct (IsPrimaryKey f); apply IH, Hnil.
  - reflexivity.
Qed.

Lemma Update_columns_tagged (fs : list dataSchemaField) (columns : list string) :
  Update_columns (map Some fs) columns
  = Value (columns ++ map ColumnName
                        (List.filter (fun f => negb (IsPrimaryKey f || IsAutoincrement f)) fs)).
Proof.
  revert columns. induction fs as [|f fs IH]; intros columns.
  - cbn. rewrite app_nil_r. reflexivity.
  - cbn [map Update_columns List.filter]. destruct (_ || _); cbn [negb].
    + apply IH.
    + rewrite IH, <- app_assoc. reflexivity.
Qed.

Lemma Update_pks_tagged (fs pks : list dataSchemaField) :
  Update_pks (map Some fs) pks = Value (pks ++ List.filter IsPrimaryKey fs).
Proof.
  revert pks. induction fs as [|f fs IH]; intros pks.
  - cbn. rewrite app_nil_r. reflexivity.
  - cbn [map Update_pks List.filter]. destruct (IsPrimaryKey f).
    + rewrite IH, <- app_assoc. reflexivity.
    + apply IH.
Qed.

Lemma trimLast_set (table : string) (set : list string) :
  trimLast (("update `" +:+ table +:+ "` set ") +:+ followed "," (map assignment set))
  = Value ("update " +:+ quote table +:+ " set"
             +:+ match set with
                 | [] => ""
                 | _ => " " +:+ join "," (map assignment set)
                 end).
Proof.
  destruct set as [|c cs].
  - cbn [map followed fold_right].
    replace (("update `" +:+ table +:+ "` set ") +:+ "")
      with (("update " +:+ quote table +:+ " set") +:+ String " " "")
      by (unfold quote; str_eq).
    rewrite trimLast_snoc. f_equal; str_eq.
  - cbn [map]. rewrite followed_join.
    replace (("update `" +:+ table +:+ "` set ")
               +:+ join "," (assignment c :: map assignment cs) +:+ ",")
      with (("update " +:+ quote table +:+ " set" +:+ " "
               +:+ join "," (assignment c :: map assignment cs)) +:+ String "," "")
      by (unfold quote; str_eq).
    rewrite trimLast_snoc. reflexivity.
Qed.

Lemma cutLast_where (head : string) (pks : list string) :
  cutLast 5 ((head +:+ " where ") +:+ followed " and " (map assignment pks))
  = Value (head +:+ match pks with
                    | [] => " w"
                    | _ => " where " +:+ join " and " (map assignment pks)
                    end).
Proof.
  destruct pks as [|k ks].
  - cbn [map followed fold_right].
    replace ((head +:+ " where ") +:+ "") with ((head +:+ " w") +:+ "here ") by str_eq.
    apply (cutLast_app _ "here ").
  - cbn [map]. rewrite followed_join.
    replace ((head +:+ " where ") +:+ join " and " (assignment k :: map assignment ks) +:+ " and ")
      with ((head +:+ " where " +:+ join " and " (assignment k :: map assignment ks))
              +:+ " and ") by str_eq.
    apply (cutLast_app _ " and ").
Qed.

Section RowStatements.
Variable value : Type.
Variable assertStrings : value -> option (list string).
Variable ofString : string -> value.
Variable json_Marshal : value -> outcome string.
Variable yaml_Marshal : value -> outcome string.
Variable ErrUnknownColumn : error.

Local Abbreviation serialized' :=
  (serialized value assertStrings ofString json_Marshal yaml_Marshal).
Local Abbreviation Insert_loop' :=
  (Insert_loop value assertStrings ofString json_Marshal yaml_Marshal).
Local Abbreviation Insert_sql' :=
  (Insert_sql value assertStrings ofString json_Marshal yaml_Marshal).
Local Abbreviation Update_set' :=
  (Update_set value assertStrings ofString json_Marshal yaml_Marshal ErrUnknownColumn).
Local Abbreviation Update_sql' :=
  (Update_sql value assertStrings ofString json_Marshal yaml_Marshal ErrUnknownColumn).

Lemma marshalled_no_failure (m : outcome string) (e : error) : marshalled m <> Failure e.
Proof. destruct m; discriminate. Qed.

Lemma Field_Interface_no_failure (elem : Struct value) (i : nat) (e : error) :
  Field_Interface elem i <> Failure e.
Proof.
  unfold Field_Interface.
  destruct (Struct_Type elem !! i) as [field|]; [|discriminate].
  destruct (Struct_Fields elem !! i); [|discriminate].
  destruct (StructField_IsExported field); discriminate.
Qed.

Lemma serialized_no_failure (elem : Struct value) (f : dataSchemaField) (e : error) :
  serialized' elem f <> Failure e.
Proof.
  unfold serialized.
  pose proof (Field_Interface_no_failure elem (FieldIndex f)) as Hread.
  destruct (SerializeMethod f =? NONE)%Z; [apply Hread|].
  destruct (Field_Interface elem (FieldIndex f)) as [x|e'|];
    [|exfalso; apply (Hread e'); reflexivity|].
  - unfold bind.
    destruct (SerializeMethod f =? ARRAY)%Z; [destruct (assertStrings x); discriminate|].
    destruct (SerializeMethod f =? JSON)%Z;
      [destruct (json_Marshal x); discriminate|].
    destruct (SerializeMethod f =? YAML)%Z;
      [destruct (yaml_Marshal x); discriminate|].
    discriminate.
  - unfold bind. repeat (destruct (_ =? _)%Z; [discriminate|]). discriminate.
Qed.

Lemma Insert_loop_None (elem : Struct value) (fields : list (option dataSchemaField))
    (columns values : list string) (args : list value) :
  In None fields -> Insert_loop' elem fields columns values args = Panic.
Proof.
  revert columns values args.
  induction fields as [|[f|] rest IH]; intros columns values args Hnil.
  - destruct Hnil.
  - destruct Hnil as [Hnil|Hnil]; [discriminate|].
    cbn [Insert_loop]. destruct (IsAutoincrement f); [apply IH, Hnil|].
    destruct (serialized' elem f) as [a|e|] eqn:Harg; unfold bind.
    + apply IH, Hnil.
    + exfalso. apply (serialized_no_failure elem f e), Harg.
    + reflexivity.
  - reflexivity.
Qed.

Lemma Insert_loop_tagged (elem : Struct value) (fs : list dataSchemaField)
    (columns values : list string) (args : list value) :
  (forall f, In f fs -> IsAutoincrement f = false -> exists a, serialized' elem f = Value a) ->
  let kept := List.filter (fun f => negb (IsAutoincrement f)) fs in
  exists args',
    Insert_loop' elem (map Some fs) columns values args
    = Value (columns ++ map ColumnName kept, values ++ map (fun _ => "?") kept, args ++ args')
    /\ Forall2 (fun f a => serialized' elem f = Value a) kept args'.
Proof.
  revert columns values args. induction fs as [|f fs IH]; intros columns values args Hread.
  - exists []. cbn. rewrite !app_nil_r. split; [reflexivity|constructor].
  - assert (forall g, In g fs -> IsAutoincrement g = false ->
                      exists a, serialized' elem g = Value a) as Hrest
      by (intros g Hg; apply Hread; right; exact Hg).
    cbn [map Insert_loop List.filter]. destruct (IsAutoincrement f) eqn:Hai; cbn [negb].
    + apply IH, Hrest.
    + destruct (Hread f) as (a & Ha); [left; reflexivity|exact Hai|].
      rewrite Ha. unfold bind.
      destruct (IH (columns ++ [ColumnName f]) (values ++ ["?"]) (args ++ [a]) Hrest)
        as (args' & Hloop & Hargs).
      exists (a :: args'). rewrite Hloop, <- !app_assoc.
      split; [reflexivity|]. constructor; assumption.
Qed.

Lemma Update_set_followed (schema : dataSchemaInfo) (elem : Struct value)
    (columns : list string) (sql : string) (args : list value) :
  (forall column, In column columns ->
     exists f a, ByColumName schema !! column = Some f /\ serialized' elem f = Value a) ->
  exists args',
    Update_set' schema elem columns sql args
    = Value (sql +:+ followed "," (map assignment columns), args ++ args')
    /\ List.length args' = List.length columns.
Proof.
  revert sql args. induction columns as [|column rest IH]; intros sql args Hknown.
  - exists []. cbn. rewrite app_nil_r, append_nil_r. split; reflexivity.
  - destruct (Hknown column) as (f & a & Hf & Ha); [left; reflexivity|].
    cbn [Update_set]. rewrite Hf, Ha. unfold bind.
    destruct (IH (sql +:+ "`" +:+ column +:+ "`=?,") (args ++ [a])) as (args' & Hset & Hlen).
    { intros c Hc. apply Hknown. right. exact Hc. }
    exists (a :: args'). rewrite Hset, <- app_assoc. split; [|cbn; rewrite Hlen; reflexivity].
    f_equal. f_equal. cbn [map followed fold_right]. unfold assignment, quote. str_eq.
Qed.

Lemma Update_set_unknown (schema : dataSchemaInfo) (elem : Struct value)
    (columns : list string) (sql : string) (args : list value) :
  match Update_set' schema elem columns sql args with
  | Value _ => forall column, In column columns -> ByColumName schema !! column <> None
  | Failure e =>
      exists column,
        In column columns /\ ByColumName schema !! column = None
        /\ e = Wrap ErrUnknownColumn ("Unknown column " +:+ column)
  | Panic => True
  end.
Proof.
  revert sql args. induction columns as [|column rest IH]; intros sql args.
  - cbn. intros column [].
  - cbn [Update_set].
    destruct (ByColumName schema !! column) as [f|] eqn:Hf.
    + destruct (serialized' elem f) as [a|e|] eqn:Ha; unfold bind.
      * specialize (IH (sql +:+ "`" +:+ column +:+ "`=?,") (args ++ [a])).
        destruct (Update_set' schema elem rest _ _) as [r|e|].
        -- intros c [<-|Hc]; [rewrite Hf; discriminate|apply IH, Hc].
        -- destruct IH as (c & Hc & Hnone & He). exists c.
           split; [right; exact Hc|split; assumption].
        -- exact I.
      * exfalso. apply (serialized_no_failure elem f e), Ha.
      * exact I.
    + exists column. split; [left; reflexivity|split; [exact Hf|reflexivity]].
Qed.

Lemma Update_where_followed (elem : Struct value) (pks : list dataSchemaField)
    (sql : string) (args : list value) :
  (forall pk, In pk pks -> exists a, Field_Interface elem (FieldIndex pk) = Value a) ->
  exists args',
    Update_where elem pks sql args
    = Value (sql +:+ followed " and " (map assignment (map ColumnName pks)), args ++ args')
    /\ List.length args' = List.length pks.
Proof.
  revert sql args. induction pks as [|pk rest IH]; intros sql args Hread.
  - exists []. cbn. rewrite app_nil_r, append_nil_r. split; reflexivity.
  - destruct (Hread pk) as (a & Ha); [left; reflexivity|].
    cbn [Update_where]. rewrite Ha. unfold bind.
    destruct (IH (sql +:+ "`" +:+ ColumnName pk +:+ "`=? and ") (args ++ [a]))
      as (args' & Hwhere & Hlen).
    { intros g Hg. apply Hread. right. exact Hg. }
    exists (a :: args'). rewrite Hwhere, <- app_assoc.
    split; [|cbn; rewrite Hlen; reflexivity].
    f_equal. f_equal. cbn [map followed fold_right]. unfold assignment, quote. str_eq.
Qed.

Lemma Update_where_no_failure (elem : Struct value) (pks : list dataSchemaField)
    (sql : string) (args : list value) (e : error) :
  Update_where elem pks sql args <> Failure e.
Proof.
  revert sql args. induction pks as [|pk rest IH]; intros sql args; [discriminate|].
  cbn [Update_where].
  destruct (Field_Interface elem (FieldIndex pk)) as [a|e'|] eqn:Ha; unfold bind.
  - apply IH.
  - exfalso. apply (Field_Interface_no_failure elem (FieldIndex pk) e'), Ha.
  - discriminate.
Qed.

Lemma serialized_reads (elem : Struct value) (i : nat) (field : StructField) (tag : string)
    (a : value) :
  serialized' elem (loadDataSchemaInfo_field i field tag) = Value a ->
  exists x, Field_Interface elem i = Value x.
Proof.
  destruct (tagInvariant_described i field tag) as ((_ & _ & HI & _ & _ & _ & Hser) & _).
  cbn zeta in *. set (f := loadDataSchemaInfo_field i field tag) in *.
  unfold serialized. rewrite HI.
  destruct (Field_Interface elem i) as [x|e|]; [exists x; reflexivity| |].
  - unfold bind. destruct Hser as [-> | [-> | [-> | ->]]]; cbn; discriminate.
  - unfold bind. destruct Hser as [-> | [-> | [-> | ->]]]; cbn; discriminate.
Qed.

Lemma bind_Value {A B : Type} (m : outcome A) (k : A -> outcome B) (b : B) :
  bind m k = Value b -> exists a, m = Value a /\ k a = Value b.
Proof. destruct m as [a| |]; [|discriminate..]. intros Hk. exists a. split; [reflexivity|exact Hk]. Qed.

Lemma bind_Failure {A B : Type} (m : outcome A) (k : A -> outcome B) (e : error) :
  bind m k = Failure e -> m = Failure e \/ exists a, m = Value a /\ k a = Failure e.
Proof.
  destruct m as [a|e'|]; [|intros [= ->]; left; reflexivity|discriminate].
  intros Hk. right. exists a. split; [reflexivity|exact Hk].
Qed.

Lemma Update_columns_no_failure (fields : list (option dataSchemaField))
    (columns : list string) (e : error) :
  Update_columns fields columns <> Failure e.
Proof.
  revert columns. induction fields as [|[f|] rest IH]; intros columns; try discriminate.
  cbn [Update_columns]. destruct (_ || _); apply IH.
Qed.

Lemma Update_pks_no_failure (fields : list (option dataSchemaField))
    (pks : list dataSchemaField) (e : error) :
  Update_pks fields pks <> Failure e.
Proof.
  revert pks. induction fields as [|[f|] rest IH]; intros pks; try discriminate.
  cbn [Update_pks]. destruct (IsPrimaryKey f); apply IH.
Qed.

Lemma Update_columns_described (v : list StructField) (columns : list string) :
  Update_columns (Fields (loadDataSchemaInfo v)) [] = Value columns ->
  forall column, In column columns -> ByColumName (loadDataSchemaInfo v) !! column <> None.
Proof.
  intros Hcolumns column Hcolumn.
  destruct (nil_entry_or_all (Fields (loadDataSchemaInfo v))) as [Hnil|HF].
  - rewrite Update_columns_None in Hcolumns by exact Hnil. discriminate.
  - rewrite described_Fields in HF.
    rewrite HF, Update_columns_tagged in Hcolumns. injection Hcolumns as <-.
    cbn [app] in Hcolumn. apply in_map_iff in Hcolumn as (f & <- & Hf).
    apply filter_In in Hf as [Hf _].
    destruct (described_known v f Hf) as (g & -> & _). discriminate.
Qed.

(** X11.  [Insert] and [Update] need a [db] tag on every field of the
    struct: as soon as one field has none, both panic on the [nil] entry
    of the description before they have built a statement (whereas
    [GetSchema] leaves such fields out). *)
Theorem untagged_field_panics (table : string) (columns : list string) (elem : Struct value) :
  (exists field, In field (Struct_Type elem) /\ StructField_db field = None) ->
  Insert_sql' table elem = Panic /\ Update_sql' table columns elem = Panic.
Proof.
  intros Huntagged. apply untagged_Fields in Huntagged. split.
  - unfold Insert_sql. rewrite Insert_loop_None by exact Huntagged. reflexivity.
  - unfold Update_sql.
    destruct (List.length columns =? 0)%nat.
    + rewrite Update_columns_None by exact Huntagged. reflexivity.
    + unfold bind at 1. rewrite Update_pks_None by exact Huntagged. reflexivity.
Qed.

(** X12.  For a struct whose fields are all tagged and whose fields
    other than the auto-increment ones can be read and serialized,
    [Insert] builds [INSERT INTO `table` (columns) VALUES (?,...)] over the
    columns that are not marked [ai], in the order of the struct, with one
    question mark and one argument per column, the argument being the
    serialized value of the field.  Without any such column the column list
    is a pair of backticks and the value list is empty.  [Insert] returns
    no error before it has called the database. *)
Theorem Insert_statement (table : string) (elem : Struct value) :
  (forall field, In field (Struct_Type elem) -> StructField_db field <> None) ->
  (forall f, In f (described (Struct_Type elem)) -> IsAutoincrement f = false ->
             exists a, serialized' elem f = Value a) ->
  let inserted :=
    List.filter (fun f => negb (IsAutoincrement f)) (described (Struct_Type elem)) in
  (exists args,
      Insert_sql' table elem = Value (insertStatement table (map ColumnName inserted), args)
      /\ Forall2 (fun f a => serialized' elem f = Value a) inserted args)
  /\ (inserted = [] -> insertStatement table (map ColumnName inserted)
                       = "INSERT INTO " +:+ quote table +:+ " (``) VALUES ()")
  /\ (forall e, Insert_sql' table elem <> Failure e).
Proof.
  intros Htagged Hread inserted. repeat apply conj.
  - destruct (Insert_loop_tagged elem (described (Struct_Type elem)) [] [] [] Hread)
      as (args & Hloop & Hargs).
    exists args. split; [|exact Hargs].
    unfold Insert_sql. rewrite tagged_Fields by exact Htagged.
    rewrite Hloop. cbn [app]. fold inserted. clear Hloop Hargs. clearbody inserted.
    f_equal. f_equal. unfold insertStatement.
    replace (map (fun _ : string => "?") (map ColumnName inserted))
      with (map (fun _ : dataSchemaField => "?") inserted) by (rewrite map_map; reflexivity).
    destruct (map ColumnName inserted) as [|c cs]; [cbn [join]; unfold quote; str_eq|].
    rewrite <- join_quote by discriminate. unfold quote. str_eq.
  - intros ->. reflexivity.
  - intros e. unfold Insert_sql. rewrite tagged_Fields by exact Htagged.
    destruct (Insert_loop_tagged elem (described (Struct_Type elem)) [] [] [] Hread)
      as (args & -> & _). discriminate.
Qed.

(** X13.  For a struct whose fields are all tagged and can be read and
    serialized, and for column names that the description knows, [Update]
    builds [update `table` set `c`=?,... where `k`=? and ...]: the columns
    set are those named by the caller or, when the caller names none, the
    columns that are neither primary key nor auto-increment; the condition
    ranges over the columns marked [pk]; there is one argument per
    question mark.  When no field is marked [pk] the statement ends with
    [ w] in place of a condition, and when there is no column to set,
    [where] follows [set] directly. *)
Theorem Update_statement (table : string) (columns : list string) (elem : Struct value) :
  (forall field, In field (Struct_Type elem) -> StructField_db field <> None) ->
  (forall f, In f (described (Struct_Type elem)) -> exists a, serialized' elem f = Value a) ->
  (forall column, In column columns ->
                  ByColumName (loadDataSchemaInfo (Struct_Type elem)) !! column <> None) ->
  let set :=
    match columns with
    | [] => map ColumnName
              (List.filter (fun f => negb (IsPrimaryKey f || IsAutoincrement f))
                 (described (Struct_Type elem)))
    | _ => columns
    end in
  let pks := map ColumnName (List.filter IsPrimaryKey (described (Struct_Type elem))) in
  exists args,
    Update_sql' table columns elem = Value (updateStatement table set pks, args)
    /\ List.length args = (List.length set + List.length pks)%nat.
Proof.
  intros Htagged Hread Hknown set pks.
  assert (forall column, In column set ->
            exists f a, ByColumName (loadDataSchemaInfo (Struct_Type elem)) !! column = Some f
                        /\ serialized' elem f = Value a) as Hset.
  { intros column Hcolumn.
    assert (exists f, ByColumName (loadDataSchemaInfo (Struct_Type elem)) !! column = Some f)
      as (f & Hf).
    { subst set. destruct columns as [|c cs].
      - apply in_map_iff in Hcolumn as (g & <- & Hg). apply filter_In in Hg as [Hg _].
        destruct (described_known _ g Hg) as (f & Hf & _). exists f. exact Hf.
      - specialize (Hknown column Hcolumn).
        destruct (ByColumName _ !! column) as [f|]; [exists f; reflexivity|contradiction]. }
    destruct (ByColumName_described _ _ _ Hf) as (Hdescribed & _).
    destruct (Hread f Hdescribed) as (a & Ha). exists f, a. split; assumption. }
  assert (forall pk, In pk (List.filter IsPrimaryKey (described (Struct_Type elem))) ->
            exists a, Field_Interface elem (FieldIndex pk) = Value a) as Hpks.
  { intros pk Hpk. apply filter_In in Hpk as [Hpk _].
    destruct (Hread pk Hpk) as (a & Ha).
    destruct (described_In _ _ Hpk) as (i & field & tag & _ & _ & ->).
    destruct (tagInvariant_described i field tag) as ((_ & _ & HI & _) & _).
    cbn zeta in HI. rewrite HI. apply (serialized_reads elem i field tag a Ha). }
  unfold Update_sql. rewrite tagged_Fields by exact Htagged.
  rewrite Update_columns_tagged, Update_pks_tagged. cbn [app].
  assert ((if (List.length columns =? 0)%nat
           then Value (map ColumnName
                         (List.filter (fun f => negb (IsPrimaryKey f || IsAutoincrement f))
                            (described (Struct_Type elem))))
           else Value columns) = Value set) as ->
    by (subst set; destruct columns; reflexivity).
  unfold bind at 1. unfold bind at 1.
  destruct (Update_set_followed (loadDataSchemaInfo (Struct_Type elem)) elem set
              ("update `" +:+ table +:+ "` set ") [] Hset) as (args1 & -> & Hlen1).
  unfold bind at 1. cbn [fst snd app].
  rewrite trimLast_set. unfold bind at 1.
  destruct (Update_where_followed elem (List.filter IsPrimaryKey (described (Struct_Type elem)))
              (("update " +:+ quote table +:+ " set"
                  +:+ match set with
                      | [] => ""
                      | _ => " " +:+ join "," (map assignment set)
                      end) +:+ " where ") args1 Hpks) as (args2 & -> & Hlen2).
  unfold bind at 1. cbn [fst snd]. fold pks.
  exists (args1 ++ args2). split.
  - rewrite cutLast_where. unfold updateStatement. f_equal. f_equal. str_eq.
  - rewrite length_app, Hlen1, Hlen2. subst pks. rewrite !length_map. reflexivity.
Qed.

(** X14.  The only error that [Update] returns before it has called the
    database is the one for a column name given by the caller that the
    description of the struct does not know: [ErrUnknownColumn] wrapped
    with the text [Unknown column] and the name.  With such a name among
    the columns, [Update] never gets as far as a statement. *)
Theorem Update_unknown_column (table : string) (columns : list string) (elem : Struct value) :
  (forall e,
      Update_sql' table columns elem = Failure e ->
      exists column,
        In column columns
        /\ ByColumName (loadDataSchemaInfo (Struct_Type elem)) !! column = None
        /\ e = Wrap ErrUnknownColumn ("Unknown column " +:+ column))
  /\ (forall column,
         In column columns ->
         ByColumName (loadDataSchemaInfo (Struct_Type elem)) !! column = None ->
         forall r, Update_sql' table columns elem <> Value r).
Proof.
  split.
  - intros e He. unfold Update_sql in He.
    apply bind_Failure in He as [He|(set & Hcolumns & He)].
    { destruct (List.length columns =? 0)%nat; [|discriminate].
      exfalso. apply (Update_columns_no_failure _ _ _ He). }
    apply bind_Failure in He as [He|(pks & _ & He)];
      [exfalso; apply (Update_pks_no_failure _ _ _ He)|].
    apply bind_Failure in He as [He|(found & _ & He)].
    + pose proof (Update_set_unknown (loadDataSchemaInfo (Struct_Type elem)) elem set
                    ("update `" +:+ table +:+ "` set ") []) as Hset.
      rewrite He in Hset. destruct Hset as (column & Hcolumn & Hnone & ->).
      destruct columns as [|c cs]; cbn [List.length Nat.eqb] in Hcolumns.
      * exfalso.
        apply (Update_columns_described (Struct_Type elem) set Hcolumns column Hcolumn Hnone).
      * injection Hcolumns as <-. exists column. repeat split; assumption.
    + apply bind_Failure in He as [He|(sql & _ & He)];
        [unfold trimLast in He; destruct (String.length _); discriminate|].
      apply bind_Failure in He as [He|(reached & _ & He)];
        [exfalso; apply (Update_where_no_failure _ _ _ _ _ He)|].
      apply bind_Failure in He as [He|(cut & _ & He)]; [|discriminate].
      unfold cutLast in He. destruct (_ <=? _)%nat; discriminate.
  - intros column Hcolumn Hnone r Hr. unfold Update_sql in Hr.
    destruct columns as [|c cs]; [destruct Hcolumn|]. cbn [List.length Nat.eqb] in Hr.
    unfold bind at 1 in Hr.
    apply bind_Value in Hr as (pks & _ & Hr).
    apply bind_Value in Hr as (found & Hfound & _).
    pose proof (Update_set_unknown (loadDataSchemaInfo (Struct_Type elem)) elem (c :: cs)
                  ("update `" +:+ table +:+ "` set ") []) as Hset.
    rewrite Hfound in Hset. apply (Hset column Hcolumn Hnone).
Qed.

(** X15.  The option [arr] without parameter leaves the delimiter empty:
    the elements of the slice are then written to the column one after
    the other with nothing between them.  With [arr(,)] the delimiter is
    the comma. *)
Theorem arr_without_delimiter (i : nat) (field : StructField) (column : string)
    (elem : Struct value) (x : value) (a : list string) :
  column <> "" -> hasByte " " column = false ->
  let f := loadDataSchemaInfo_field i field (column +:+ " arr") in
  SerializeMethod f = ARRAY
  /\ SerializeDelimiter f = ""
  /\ SerializeDelimiter (loadDataSchemaInfo_field i field (column +:+ " arr(,)")) = ","
  /\ (Field_Interface elem i = Value x -> assertStrings x = Some a ->
      serialized' elem f = Value (ofString (join "" a))).
Proof.
  intros Hcolumn Hword.
  set (base := set_ColumnName column (newDataSchemaField i field)).
  assert (Hone : forall word g,
             word <> "" -> hasByte " " word = false ->
             parseFieldTag_indexName
               (parseFieldTag_option base (fst (parseOption word)) (snd (parseOption word))) = g ->
             ColumnName g = column -> DataStoreType g = "" ->
             loadDataSchemaInfo_field i field (column +:+ String " " word)
             = set_DataStoreType
                 (kindStoreType (StructField_Kind field) (StructField_Elem field)) g).
  { intros word g Hne Hplain Hg Hcol Htype. unfold loadDataSchemaInfo_field.
    rewrite parseFieldTag_first_word by (reflexivity || assumption).
    unfold parseFieldTag. rewrite strings_Split_plain by exact Hplain. cbn [fold_left].
    rewrite parseFieldTag_part_option by (exact Hcolumn || exact Hne).
    fold base. rewrite Hg. cbn zeta. rewrite Hcol.
    destruct (String.eqb_spec column "") as [E|_]; [contradiction|].
    rewrite Htype. reflexivity. }
  cbn zeta.
  replace (column +:+ " arr") with (column +:+ String " " "arr") by str_eq.
  replace (column +:+ " arr(,)") with (column +:+ String " " "arr(,)") by str_eq.
  rewrite (Hone "arr" (set_SerializeDelimiter "" (set_SerializeMethod ARRAY base)))
    by (discriminate || reflexivity).
  rewrite (Hone "arr(,)" (set_SerializeDelimiter "," (set_SerializeMethod ARRAY base)))
    by (discriminate || reflexivity).
  repeat apply conj; try reflexivity.
  intros Hx Ha. unfold serialized. cbn. rewrite Hx. unfold bind. rewrite Ha. reflexivity.
Qed.

End RowStatements.

Lemma untagged_field_panics_witness :
  let elem := mkStruct (test_struct ++ [mkStructField "Seen" reflect_Bool reflect_Invalid true None])
                (Struct_Fields test_row ++ ["yes"]) in
  Insert_sql string test_strings id test_Marshal test_Marshal "test2" elem = Panic
  /\ Update_sql string test_strings id test_Marshal test_Marshal test_ErrUnknownColumn
       "test2" [] elem = Panic.
Proof.
  apply (untagged_field_panics string test_strings id test_Marshal test_Marshal
           test_ErrUnknownColumn).
  exists (mkStructField "Seen" reflect_Bool reflect_Invalid true None).
  split; [cbn; tauto|reflexivity].
Defined.

Lemma Insert_statement_witness :
  exists args,
    Insert_sql string test_strings id test_Marshal test_Marshal "test2" test_row
    = Value ("INSERT INTO `test2` (`name`,`age`,`idx1`,`idx2`,`comment`,`arr`,`json`,`yaml`) VALUES (?,?,?,?,?,?,?,?)",
             args).
Proof.
  destruct (Insert_statement string test_strings id test_Marshal test_Marshal "test2" test_row)
    as ((args & Hsql & _) & _).
  - intros field Hfield. cbn in Hfield.
    repeat (destruct Hfield as [<-|Hfield]; [discriminate|]). destruct Hfield.
  - intros f Hf _. vm_compute in Hf.
    repeat (destruct Hf as [<-|Hf]; [eexists; vm_compute; reflexivity|]). destruct Hf.
  - exists args. exact Hsql.
Defined.

Lemma Update_statement_witness :
  exists args,
    Update_sql string test_strings id test_Marshal test_Marshal test_ErrUnknownColumn
      "test2" ["age"] test_row
    = Value ("update `test2` set `age`=? where `id`=?", args)
    /\ List.length args = 2%nat.
Proof.
  destruct (Update_statement string test_strings id test_Marshal test_Marshal
              test_ErrUnknownColumn "test2" ["age"] test_row) as (args & Hsql & Hlen).
  - intros field Hfield. cbn in Hfield.
    repeat (destruct Hfield as [<-|Hfield]; [discriminate|]). destruct Hfield.
  - intros f Hf. vm_compute in Hf.
    repeat (destruct Hf as [<-|Hf]; [eexists; vm_compute; reflexivity|]). destruct Hf.
  - intros column [<-|[]]. vm_compute. discriminate.
  - exists args. split; [exact Hsql|exact Hlen].
Defined.

Lemma arr_without_delimiter_witness :
  let f := loadDataSchemaInfo_field 6
             (mkStructField "Arr" reflect_Slice reflect_String true (Some "arr arr")) "arr arr" in
  SerializeDelimiter f = ""
  /\ serialized string test_strings id test_Marshal test_Marshal test_row f = Value "abc".
Proof.
  destruct (arr_without_delimiter string test_strings id test_Marshal test_Marshal 6
              (mkStructField "Arr" reflect_Slice reflect_String true (Some "arr arr")) "arr"
              test_row "a,b,c" ["a"; "b"; "c"])
    as (_ & Hdelimiter & _ & Hjoined); [discriminate|reflexivity|].
  split; [exact Hdelimiter|apply Hjoined; reflexivity].
Defined.

(** ** What ReadFromDB returns, and when it fails *)

Lemma columns_loop_failure (rows : list (error + ColumnsRow)) (fields : list Field)
    (e : error) :
  columns_loop rows fields = Failure e ->
  exists cause, In (inl cause) rows /\ e = Wrap cause "Scan table columns failed".
Proof.
  revert fields. induction rows as [|[cause|r] rows IH]; intros fields; cbn [columns_loop].
  - discriminate.
  - intros [= <-]. exists cause. split; [left; reflexivity|reflexivity].
  - intros Hloop. destruct (IH _ Hloop) as (cause & Hcause & ->).
    exists cause. split; [right; exact Hcause|reflexivity].
Qed.

Lemma indexs_loop_failure (rows : list (error + StatisticsRow))
    (idxMap : gmap string nat) (indexs : list Index) (e : error) :
  indexs_loop rows idxMap indexs = Failure e ->
  exists cause, In (inl cause) rows /\ e = Wrap cause "Scan table indexs failed".
Proof.
  revert idxMap indexs.
  induction rows as [|[cause|r] rows IH]; intros idxMap indexs; cbn [indexs_loop].
  - discriminate.
  - intros [= <-]. exists cause. split; [left; reflexivity|reflexivity].
  - intros Hloop.
    assert (exists cause, In (inl cause) rows /\ e = Wrap cause "Scan table indexs failed")
      as (cause & Hcause & ->).
    { destruct (idxMap !! INDEX_NAME r) as [i|].
      - destruct (indexs !! i) as [index|]; [|discriminate]. apply (IH _ _ Hloop).
      - apply (IH _ _ Hloop). }
    exists cause. split; [right; exact Hcause|reflexivity].
Qed.

Lemma columns_loop_rows (rows : list ColumnsRow) (fields : list Field) :
  columns_loop (map inr rows) fields = Value (fields ++ map scanColumn rows).
Proof.
  revert fields. induction rows as [|r rows IH]; intros fields; cbn [map columns_loop].
  - rewrite app_nil_r. reflexivity.
  - rewrite IH, <- app_assoc. reflexivity.
Qed.

Lemma indexs_loop_grouped (rows : list (error + StatisticsRow)) :
  forall (seen : list StatisticsRow) (idxMap : gmap string nat) (indexs result : list Index),
    indexedBy idxMap indexs -> rowsGrouped seen indexs ->
    indexs_loop rows idxMap indexs = Value result ->
    exists scanned,
      rows = map inr scanned
      /\ rowsGrouped (seen ++ scanned) result
      /\ exists idxMap', indexedBy idxMap' result.
Proof.
  induction rows as [|[cause|r] rows IH]; intros seen idxMap indexs result Hinv Hgrouped;
    cbn [indexs_loop].
  - intros [= <-]. exists []. rewrite app_nil_r.
    split; [reflexivity|split; [exact Hgrouped|exists idxMap; exact Hinv]].
  - discriminate.
  - destruct Hgrouped as [Hmembers Hcovered].
    assert (Hstep : forall idxMap' indexs',
               indexedBy idxMap' indexs' -> rowsGrouped (seen ++ [r]) indexs' ->
               indexs_loop rows idxMap' indexs' = Value result ->
               exists scanned,
                 inr r :: rows = map inr scanned
                 /\ rowsGrouped (seen ++ scanned) result
                 /\ exists idxMap'', indexedBy idxMap'' result).
    { intros idxMap' indexs' Hinv' Hgrouped' Hloop.
      destruct (IH _ _ _ _ Hinv' Hgrouped' Hloop) as (scanned & -> & Hresult & Hmap).
      exists (r :: scanned). rewrite <- app_assoc in Hresult.
      split; [reflexivity|split; [exact Hresult|exact Hmap]]. }
    destruct (idxMap !! INDEX_NAME r) as [i|] eqn:Hi.
    + destruct (indexs !! i) as [index|] eqn:Hindex; [|discriminate].
      apply Hstep; [apply indexedBy_append; assumption|].
      destruct Hinv as [Hmap _].
      assert (Index_Name index = INDEX_NAME r) as Hname.
      { apply Hmap in Hi as (index0 & Hindex0 & Hname0). congruence. }
      assert (Hother : forall j other, j <> i -> indexs !! j = Some other ->
                                       Index_Name other <> INDEX_NAME r).
      { intros j other Hne Hj E. apply Hne.
        assert (idxMap !! INDEX_NAME r = Some j) as Hj'
          by (apply Hmap; exists other; split; assumption).
        congruence. }
      assert (In index indexs) as Hin
        by (apply list_elem_of_In, list_elem_of_lookup; exists i; exact Hindex).
      split.
      * intros found Hfound.
        apply list_elem_of_In, list_elem_of_lookup in Hfound as [j Hj].
        destruct (decide (j = i)) as [->|Hne].
        -- rewrite list_lookup_insert_eq in Hj by (eapply lookup_lt_Some; exact Hindex).
           injection Hj as <-.
           destruct (Hmembers index Hin) as (first & others & Hfilter & Hcolumns & Hunique).
           exists first, (others ++ [r]).
           cbn [appendColumn Index_Name Index_Columns Index_Unique].
           split; [|split; [|exact Hunique]].
           ++ rewrite filter_snoc, Hfilter, Hname, String.eqb_refl. reflexivity.
           ++ rewrite Hcolumns. cbn [map]. rewrite map_app. reflexivity.
        -- rewrite list_lookup_insert_ne in Hj by (intros E; apply Hne; symmetry; exact E).
           assert (In found indexs) as Hfound
             by (apply list_elem_of_In, list_elem_of_lookup; exists j; exact Hj).
           destruct (Hmembers found Hfound) as (first & others & Hfilter & Hrest).
           exists first, others. split; [|exact Hrest].
           rewrite filter_snoc, Hfilter.
           destruct (String.eqb_spec (INDEX_NAME r) (Index_Name found)) as [E|_];
             [exfalso; apply (Hother j found Hne Hj); symmetry; exact E|].
           apply app_nil_r.
      * intros r' Hr'.
        assert (exists old, In old indexs /\ Index_Name old = INDEX_NAME r')
          as (old & Hold & Holdname).
        { apply in_app_or in Hr' as [Hr'|[<-|[]]]; [apply Hcovered, Hr'|].
          exists index. split; [exact Hin|exact Hname]. }
        apply list_elem_of_In, list_elem_of_lookup in Hold as [j Hj].
        destruct (decide (j = i)) as [->|Hne].
        -- exists (appendColumn (INDEX_COLUMN r) index). split.
           ++ apply list_elem_of_In, list_elem_of_lookup. exists i.
              apply list_lookup_insert_eq. eapply lookup_lt_Some. exact Hindex.
           ++ cbn [appendColumn Index_Name]. congruence.
        -- exists old. split; [|exact Holdname].
           apply list_elem_of_In, list_elem_of_lookup. exists j.
           rewrite list_lookup_insert_ne by (intros E; apply Hne; symmetry; exact E).
           exact Hj.
    + apply Hstep; [apply indexedBy_new; assumption|].
      destruct Hinv as [Hmap _].
      assert (Hfresh : forall other, In other indexs -> Index_Name other <> INDEX_NAME r).
      { intros other Hother E.
        apply list_elem_of_In, list_elem_of_lookup in Hother as [j Hj].
        assert (idxMap !! INDEX_NAME r = Some j) as Hj'
          by (apply Hmap; exists other; split; assumption).
        congruence. }
      split.
      * intros found Hfound. apply in_app_or in Hfound as [Hfound|[<-|[]]].
        -- destruct (Hmembers found Hfound) as (first & others & Hfilter & Hrest).
           exists first, others. split; [|exact Hrest].
           rewrite filter_snoc, Hfilter.
           destruct (String.eqb_spec (INDEX_NAME r) (Index_Name found)) as [E|_];
             [exfalso; apply (Hfresh found Hfound); symmetry; exact E|].
           apply app_nil_r.
        -- exists r, []. cbn [newIndex Index_Name Index_Columns Index_Unique map].
           split; [|split; [reflexivity|]].
           ++ rewrite filter_snoc, String.eqb_refl.
              rewrite filter_none; [reflexivity|].
              intros r' Hr'.
              destruct (String.eqb_spec (INDEX_NAME r') (INDEX_NAME r)) as [E|_];
                [|reflexivity].
              destruct (Hcovered r' Hr') as (other & Hother & Hname).
              exfalso. apply (Hfresh other Hother). congruence.
           ++ destruct (INDEX_NAME r =? "PRIMARY")%string; reflexivity.
      * intros r' Hr'. apply in_app_or in Hr' as [Hr'|[<-|[]]].
        -- destruct (Hcovered r' Hr') as (other & Hother & Hname).
           exists other. split; [apply in_or_app; left; exact Hother|exact Hname].
        -- exists (newIndex (INDEX_NAME r) (INDEX_COLUMN r) (NON_UNIQUE r)).
           split; [apply in_or_app; right; left; reflexivity|reflexivity].
Qed.

Lemma indexedBy_empty : indexedBy ∅ [].
Proof.
  split; [|constructor]. intros name i. split.
  - rewrite lookup_empty. discriminate.
  - intros (index & Hindex & _). discriminate.
Qed.

Lemma indexs_loop_rows (rows : list StatisticsRow) :
  forall (idxMap : gmap string nat) (indexs : list Index),
    (forall name i, idxMap !! name = Some i -> (i < List.length indexs)%nat) ->
    exists result, indexs_loop (map inr rows) idxMap indexs = Value result.
Proof.
  intros idxMap indexs Hrange.
  pose proof (indexs_loop_no_panic (map inr rows) idxMap indexs Hrange) as Hpanic.
  destruct (indexs_loop (map inr rows) idxMap indexs) as [result|e|] eqn:Hloop.
  - exists result. reflexivity.
  - apply indexs_loop_failure in Hloop as (cause & Hcause & _).
    apply in_map_iff in Hcause as (r & Hr & _). discriminate.
  - contradiction.
Qed.

(** X16.  An error that [ReadFromDB] returns is the error of one of its
    six steps, wrapped with the message of that step: the database name,
    the table row (unless the error is [sql.ErrNoRows], which means that
    the table does not exist), the column query, the scan of a column row,
    the index query, the scan of an index row. *)
Theorem ReadFromDB_errors {DB : Type} `{Database DB} (db : DB) (name : string) (e : error) :
  ReadFromDB db name = Failure e ->
  exists cause,
    (QueryRow_DATABASE db = inl cause /\ e = Wrap cause "Get database name failed")
    \/ exists dbName,
         QueryRow_DATABASE db = inr dbName
         /\ ((QueryRow_TABLES db dbName name = inl cause /\ cause <> ErrNoRows
              /\ e = Wrap cause "Get table info failed")
             \/ (Query_COLUMNS db dbName name = inl cause
                 /\ e = Wrap cause "Get table columns failed")
             \/ (exists rows, Query_COLUMNS db dbName name = inr rows
                              /\ In (inl cause) rows
                              /\ e = Wrap cause "Scan table columns failed")
             \/ (Query_STATISTICS db dbName name = inl cause
                 /\ e = Wrap cause "Get table indexs failed")
             \/ (exists rows, Query_STATISTICS db dbName name = inr rows
                              /\ In (inl cause) rows
                              /\ e = Wrap cause "Scan table indexs failed")).
Proof.
  unfold ReadFromDB.
  destruct (QueryRow_DATABASE db) as [cause|dbName];
    [intros [= <-]; exists cause; left; split; reflexivity|].
  destruct (QueryRow_TABLES db dbName name) as [cause|t] eqn:Htable.
  { intros He.
    assert (cause <> ErrNoRows /\ e = Wrap cause "Get table info failed") as [Hcause ->].
    { destruct cause; [discriminate He|injection He as <-; split; [discriminate|reflexivity]..]. }
    exists cause. right. exists dbName. split; [reflexivity|].
    left. split; [exact Htable|split; [exact Hcause|reflexivity]]. }
  destruct (Query_COLUMNS db dbName name) as [cause|rows] eqn:Hcolumns.
  { intros [= <-]. exists cause. right. exists dbName. split; [reflexivity|].
    right. left. split; [exact Hcolumns|reflexivity]. }
  destruct (columns_loop rows []) as [fields|e'|] eqn:Hfields; unfold bind at 1.
  - destruct (Query_STATISTICS db dbName name) as [cause|stats] eqn:Hstats.
    { intros [= <-]. exists cause. right. exists dbName. split; [reflexivity|].
      right. right. right. left. split; [exact Hstats|reflexivity]. }
    destruct (indexs_loop stats ∅ []) as [indexs|e'|] eqn:Hindexs; unfold bind;
      [discriminate| |discriminate].
    intros [= <-]. apply indexs_loop_failure in Hindexs as (cause & Hcause & ->).
    exists cause. right. exists dbName. split; [reflexivity|].
    right. right. right. right. exists stats.
    split; [exact Hstats|split; [exact Hcause|reflexivity]].
  - intros [= <-]. apply columns_loop_failure in Hfields as (cause & Hcause & ->).
    exists cause. right. exists dbName. split; [reflexivity|].
    right. right. left. exists rows.
    split; [exact Hcolumns|split; [exact Hcause|reflexivity]].
  - discriminate.
Qed.

Lemma ReadFromDB_errors_witness :
  ReadFromDB offline "users"
  = Failure (Wrap (DriverError "connection refused") "Get database name failed")
  /\ exists cause,
       QueryRow_DATABASE offline = inl cause
       /\ Wrap (DriverError "connection refused") "Get database name failed"
          = Wrap cause "Get database name failed".
Proof.
  assert (ReadFromDB offline "users"
          = Failure (Wrap (DriverError "connection refused") "Get database name failed"))
    as Hread by reflexivity.
  split; [exact Hread|].
  destruct (ReadFromDB_errors offline "users" _ Hread)
    as (cause & [Hcause|(dbName & Hname & _)]); [|discriminate Hname].
  exists cause. exact Hcause.
Defined.

(** X17.  [ReadFromDB] returns a schema exactly when its four queries and
    all the scans succeed and the table exists.  The schema then has the
    name asked for, the engine, collation and comment of the table row,
    and one field per column row, in the order of the rows: nullable when
    the row says [YES], auto-increment when its extra text is
    [auto_increment], with the empty default for a NULL default. *)
Theorem ReadFromDB_columns {DB : Type} `{Database DB} (db : DB) (name : string) :
  (forall A,
      ReadFromDB db name = Value (Some A) ->
      exists dbName table columns statistics,
        QueryRow_DATABASE db = inr dbName
        /\ QueryRow_TABLES db dbName name = inr table
        /\ Query_COLUMNS db dbName name = inr (map inr columns)
        /\ Query_STATISTICS db dbName name = inr (map inr statistics)
        /\ Schema_Name A = name
        /\ Schema_Engine A = ENGINE table
        /\ Schema_Collate A = TABLE_COLLATION table
        /\ Schema_Comment A = TABLE_COMMENT table
        /\ Schema_Fields A = map scanColumn columns)
  /\ (forall dbName table columns statistics,
         QueryRow_DATABASE db = inr dbName ->
         QueryRow_TABLES db dbName name = inr table ->
         Query_COLUMNS db dbName name = inr (map inr columns) ->
         Query_STATISTICS db dbName name = inr (map inr statistics) ->
         exists A, ReadFromDB db name = Value (Some A)).
Proof.
  split.
  - intros A. unfold ReadFromDB.
    destruct (QueryRow_DATABASE db) as [e|dbName]; [discriminate|].
    destruct (QueryRow_TABLES db dbName name) as [[| |]|table] eqn:Htable; try discriminate.
    destruct (Query_COLUMNS db dbName name) as [e|rows] eqn:Hcolumns; [discriminate|].
    destruct (columns_loop rows []) as [fields|e|] eqn:Hfields; unfold bind at 1;
      [|discriminate..].
    destruct (Query_STATISTICS db dbName name) as [e|stats] eqn:Hstats; [discriminate|].
    destruct (indexs_loop stats ∅ []) as [indexs|e|] eqn:Hindexs; unfold bind;
      [|discriminate..].
    intros [= <-].
    apply columns_loop_scanned in Hfields as (columns & -> & ->).
    destruct (indexs_loop_grouped stats [] ∅ [] indexs indexedBy_empty) as (scanned & -> & _);
      [split; [intros index []|intros r []]|exact Hindexs|].
    exists dbName, table, columns, scanned.
    split; [reflexivity|]. split; [exact Htable|]. split; [exact Hcolumns|].
    split; [exact Hstats|]. repeat split; reflexivity.
  - intros dbName table columns statistics Hname Htable Hcolumns Hstats.
    unfold ReadFromDB. rewrite Hname, Htable, Hcolumns, columns_loop_rows.
    unfold bind at 1. rewrite Hstats.
    destruct (indexs_loop_rows statistics ∅ []) as (indexs & ->).
    { intros n i Hi. rewrite lookup_empty in Hi. discriminate. }
    eexists. reflexivity.
Qed.

(** X18.  The indexes that [ReadFromDB] returns are the groups of the
    catalog rows by index name: their names are pairwise distinct; an
    index holds the columns of the rows that carry its name in the order
    in which the query delivers them, whatever their sequence numbers; it
    is primary exactly when it is named [PRIMARY], and unique when it is
    not primary and its first row is marked as unique; every row has its
    index. *)
Theorem ReadFromDB_groups_rows {DB : Type} `{Database DB} (db : DB) (name : string)
    (A : Schema) :
  ReadFromDB db name = Value (Some A) ->
  exists dbName statistics,
    QueryRow_DATABASE db = inr dbName
    /\ Query_STATISTICS db dbName name = inr (map inr statistics)
    /\ NoDup (map Index_Name (Schema_Indices A))
    /\ (forall index, In index (Schema_Indices A) ->
          exists first others,
            List.filter (fun r => (INDEX_NAME r =? Index_Name index)%string) statistics
            = first :: others
            /\ Index_Columns index = map INDEX_COLUMN (first :: others)
            /\ Index_Primary index = (Index_Name index =? "PRIMARY")%string
            /\ Index_Unique index
               = negb (Index_Name index =? "PRIMARY")%string && (NON_UNIQUE first =? 0)%Z)
    /\ (forall r, In r statistics ->
          exists index, In index (Schema_Indices A) /\ Index_Name index = INDEX_NAME r).
Proof.
  unfold ReadFromDB.
  destruct (QueryRow_DATABASE db) as [e|dbName]; [discriminate|].
  destruct (QueryRow_TABLES db dbName name) as [[| |]|table]; try discriminate.
  destruct (Query_COLUMNS db dbName name) as [e|rows]; [discriminate|].
  destruct (columns_loop rows []) as [fields|e|]; unfold bind at 1; [|discriminate..].
  destruct (Query_STATISTICS db dbName name) as [e|stats] eqn:Hstats; [discriminate|].
  destruct (indexs_loop stats ∅ []) as [indexs|e|] eqn:Hindexs; unfold bind;
    [|discriminate..].
  intros [= <-]. cbn [Schema_Indices].
  destruct (indexs_loop_grouped stats [] ∅ [] indexs indexedBy_empty)
    as (scanned & -> & [Hmembers Hcovered] & idxMap & Hinv);
    [split; [intros index []|intros r []]|exact Hindexs|].
  cbn [app] in Hmembers, Hcovered.
  exists dbName, scanned. split; [reflexivity|]. split; [exact Hstats|].
  repeat apply conj.
  - apply (indexedBy_NoDup idxMap), Hinv.
  - intros index Hindex.
    destruct (Hmembers index Hindex) as (first & others & Hfilter & Hcolumns & Hunique).
    exists first, others. repeat apply conj; try assumption.
    destruct Hinv as [_ Hprimary]. rewrite Forall_forall in Hprimary.
    apply Hprimary, list_elem_of_In, Hindex.
  - exact Hcovered.
Qed.

Lemma ReadFromDB_groups_rows_witness :
  exists first others,
    List.filter (fun r => (INDEX_NAME r =? "idx_ab")%string) (scripted_statistics people_db)
    = first :: others
    /\ [ "b"; "a" ] = map INDEX_COLUMN (first :: others).
Proof.
  assert (ReadFromDB people_db "people" = Value (Some (people age_declared ["b"; "a"])))
    as Hread by reflexivity.
  destruct (ReadFromDB_groups_rows people_db "people" _ Hread)
    as (dbName & statistics & _ & Hstats & _ & Hmembers & _).
  assert (statistics = scripted_statistics people_db) as ->.
  { injection Hstats as Hstats.
    destruct statistics as [|a [|b [|c rest]]]; try discriminate Hstats.
    cbn in Hstats. unfold people_db. cbn [scripted_statistics]. congruence. }
  destruct (Hmembers (mkIndex "idx_ab" ["b"; "a"] false false))
    as (first & others & Hfilter & Hcolumns & _); [left; reflexivity|].
  exists first, others. split; [exact Hfilter|exact Hcolumns].
Defined.

(** ** Reading back, failing, comparing, looking up *)

(** X19.  When the catalog of a table has pairwise distinct column names
    and no index row without index name, the schema that [ReadFromDB]
    returns is well-formed, and [Update] with that very schema executes no
    statement and returns no error. *)
Theorem read_back_is_stable {DB : Type} `{Database DB}
    (escape : string -> string) (A : Schema) (w : world DB) :
  (forall dbName rows,
      Query_COLUMNS (conn w) dbName (Schema_Name A) = inr (map inr rows) ->
      NoDup (map COLUMN_NAME rows)) ->
  (forall dbName rows r,
      Query_STATISTICS (conn w) dbName (Schema_Name A) = inr rows -> In (inr r) rows ->
      INDEX_NAME r <> "") ->
  ReadFromDB (conn w) (Schema_Name A) = Value (Some A) ->
  wellFormed A = true /\ Schema_Update escape A w = (w, Value tt).
Proof.
  intros Hcolumns Hnames Hread. split.
  - apply (ReadFromDB_wellFormed (conn w) (Schema_Name A) A Hcolumns Hnames Hread).
  - apply Update_read_back; assumption.
Qed.

Lemma read_back_is_stable_witness :
  wellFormed users = true
  /\ Schema_Update backslashEscape users (start users_db) = (start users_db, Value tt).
Proof.
  apply (read_back_is_stable backslashEscape users (start users_db)).
  - intros dbName rows Hrows. injection Hrows as Hrows.
    destruct rows as [|a [|b [|c rest]]]; try discriminate Hrows.
    cbn in Hrows. injection Hrows as <- <-. apply (bool_decide_eq_true_1 _). reflexivity.
  - intros dbName rows r Hrows Hr. injection Hrows as <-.
    cbn in Hr. destruct Hr as [[= <-]|[[= <-]|[]]]; discriminate.
  - reflexivity.
Defined.

(** X20.  When [Update] returns an error, either reading the table has
    failed, and then nothing has been executed and the error is the one of
    [ReadFromDB]; or a statement of the plan (the CREATE statement for a
    table that does not exist, the change list otherwise) has been refused
    by the database: the statements before it have been executed and stay
    executed, the refused statement is the last one sent, the statements
    after it are not sent, and the error is the one of the database,
    unwrapped. *)
Theorem Update_stops_at_first_error {DB : Type} `{Database DB}
    (escape : string -> string) (sc : Schema) (w w' : world DB) (e : error) :
  Schema_Update escape sc w = (w', Failure e) ->
  (ReadFromDB (conn w) (Schema_Name sc) = Failure e /\ w' = w)
  \/ exists plan done sql rest db,
       (ReadFromDB (conn w) (Schema_Name sc) = Value None
        /\ plan = [createStatement escape sc]
        \/ exists cur, ReadFromDB (conn w) (Schema_Name sc) = Value (Some cur)
                       /\ plan = changeList escape sc cur)
       /\ plan = done ++ sql :: rest
       /\ runStatements done w = (mkWorld db (executed w ++ done), Value tt)
       /\ ExecContext db sql = (conn w', Some e)
       /\ executed w' = executed w ++ done ++ [sql].
Proof.
  unfold Schema_Update.
  destruct (ReadFromDB (conn w) (Schema_Name sc)) as [[cur|]|e'|] eqn:Hread.
  - rewrite Update_alter_changeList. intros Hrun. right.
    destruct (runStatements_first_failure _ _ _ _ Hrun)
      as (done & sql & rest & db & Hplan & Hdone & Hsql & Htrace).
    exists (changeList escape sc cur), done, sql, rest, db.
    split; [right; exists cur; split; reflexivity|].
    split; [exact Hplan|split; [exact Hdone|split; [exact Hsql|exact Htrace]]].
  - rewrite Schema_Create_createStatement, <- runStatements_one. intros Hrun. right.
    destruct (runStatements_first_failure _ _ _ _ Hrun)
      as (done & sql & rest & db & Hplan & Hdone & Hsql & Htrace).
    exists [createStatement escape sc], done, sql, rest, db.
    split; [left; split; reflexivity|].
    split; [exact Hplan|split; [exact Hdone|split; [exact Hsql|exact Htrace]]].
  - intros [= <- <-]. left. split; reflexivity.
  - discriminate.
Qed.

Lemma Update_stops_at_first_error_witness :
  Schema_Update backslashEscape users_with_age (start strict_users_db)
  = (mkWorld strict_users_db
       [ "ALTER TABLE `users` COMMENT = 'members'";
         "ALTER TABLE `users` ADD `age` int(11) NOT NULL DEFAULT 0" ],
     Failure (DriverError "rejected"))
  /\ exists done rest,
       changeList backslashEscape users_with_age users
       = done ++ "ALTER TABLE `users` ADD `age` int(11) NOT NULL DEFAULT 0" :: rest
       /\ rest = [ "ALTER TABLE `users` ADD `city` varchar(64) NULL" ].
Proof.
  assert (Schema_Update backslashEscape users_with_age (start strict_users_db)
          = (mkWorld strict_users_db
               [ "ALTER TABLE `users` COMMENT = 'members'";
                 "ALTER TABLE `users` ADD `age` int(11) NOT NULL DEFAULT 0" ],
             Failure (DriverError "rejected"))) as Hrun by (vm_compute; reflexivity).
  split; [exact Hrun|].
  destruct (Update_stops_at_first_error backslashEscape users_with_age _ _ _ Hrun)
    as [[Hread _]|(plan & done & sql & rest & db & _ & _ & _ & _ & _)];
    [discriminate Hread|].
  exists [ "ALTER TABLE `users` COMMENT = 'members'" ],
    [ "ALTER TABLE `users` ADD `city` varchar(64) NULL" ].
  split; [vm_compute; reflexivity|reflexivity].
Defined.

Lemma sameIndexb_sym (a b : Index) : sameIndexb a b = sameIndexb b a.
Proof.
  unfold sameIndexb.
  rewrite (String.eqb_sym (Index_Name a) (Index_Name b)).
  destruct (Index_Primary a), (Index_Primary b), (Index_Unique a), (Index_Unique b);
    cbn; try reflexivity;
    destruct (Index_Name b =? Index_Name a)%string; cbn; try reflexivity;
    apply bool_decide_ext; split; intros E; symmetry; exact E.
Qed.

(** X21.  [Field.Equal] and [Index.Equal] are equivalence relations: each
    is reflexive, gives the same answer in both directions, and is
    transitive.  [Index.Equal] returns an answer for every pair of
    indexes: it never reads a column out of range, since it compares the
    columns only after the two lengths have been found equal. *)
Theorem Equal_equivalence :
  (forall f, Field_Equal f f = true)
  /\ (forall f g, Field_Equal f g = Field_Equal g f)
  /\ (forall f g h, Field_Equal f g = true -> Field_Equal g h = true -> Field_Equal f h = true)
  /\ (forall a b, exists r, Index_Equal a b = Some r)
  /\ (forall a, Index_Equal a a = Some true)
  /\ (forall a b, Index_Equal a b = Index_Equal b a)
  /\ (forall a b c, Index_Equal a b = Some true -> Index_Equal b c = Some true ->
                    Index_Equal a c = Some true).
Proof.
  repeat apply conj.
  - apply Field_Equal_refl.
  - intros f g.
    destruct (Field_Equal f g) eqn:Hfg, (Field_Equal g f) eqn:Hgf; try reflexivity.
    + apply Field_Equal_sameField in Hfg as (H1 & H2 & H3 & H4 & H5 & H6).
      assert (Field_Equal g f = true) as E
        by (apply Field_Equal_sameField; repeat split; symmetry; assumption).
      congruence.
    + apply Field_Equal_sameField in Hgf as (H1 & H2 & H3 & H4 & H5 & H6).
      assert (Field_Equal f g = true) as E
        by (apply Field_Equal_sameField; repeat split; symmetry; assumption).
      congruence.
  - intros f g h Hfg Hgh.
    apply Field_Equal_sameField in Hfg as (H1 & H2 & H3 & H4 & H5 & H6).
    apply Field_Equal_sameField in Hgh as (G1 & G2 & G3 & G4 & G5 & G6).
    apply Field_Equal_sameField. repeat split; etransitivity; eassumption.
  - intros a b. exists (sameIndexb a b). apply Index_Equal_sameIndexb.
  - intros a. rewrite Index_Equal_sameIndexb, sameIndexb_refl. reflexivity.
  - intros a b. rewrite !Index_Equal_sameIndexb, sameIndexb_sym. reflexivity.
  - intros a b c. rewrite !Index_Equal_sameIndexb. intros [= Hab] [= Hbc]. f_equal.
    apply sameIndexb_sameIndex in Hab as (H1 & H2 & H3 & H4).
    apply sameIndexb_sameIndex in Hbc as (G1 & G2 & G3 & G4).
    apply sameIndexb_sameIndex. repeat split.
    + congruence.
    + intros Hp. rewrite (H2 Hp). apply G2. congruence.
    + congruence.
    + congruence.
Qed.

(** X22.  [Schema.Field] returns the first field of the schema that has
    the name asked for, and [nil] exactly when no field has it;
    [Schema.Index], asked for a name other than [PRIMARY] and the empty
    name, returns the first index of that name, and [nil] exactly when no
    index has it. *)
Theorem lookups_return_first_match (sc : Schema) (name : string) :
  match Schema_Field sc name with
  | Some field =>
      exists before after,
        Schema_Fields sc = before ++ field :: after
        /\ Field_Name field = name
        /\ (forall f, In f before -> Field_Name f <> name)
  | None => forall f, In f (Schema_Fields sc) -> Field_Name f <> name
  end
  /\ (name <> "PRIMARY" -> name <> "" ->
      match Schema_Index sc name with
      | Some index =>
          exists before after,
            Schema_Indices sc = before ++ index :: after
            /\ Index_Name index = name
            /\ (forall i, In i before -> Index_Name i <> name)
      | None => forall i, In i (Schema_Indices sc) -> Index_Name i <> name
      end).
Proof.
  split.
  - unfold Schema_Field. induction (Schema_Fields sc) as [|f fields IH]; cbn [Field_loop].
    + intros f [].
    + destruct (String.eqb_spec (Field_Name f) name) as [E|E].
      * exists [], fields. repeat split; [exact E|intros g []].
      * destruct (Field_loop fields name) as [field|].
        -- destruct IH as (before & after & -> & Hname & Hbefore).
           exists (f :: before), after. repeat split; [exact Hname|].
           intros g [<-|Hg]; [exact E|apply Hbefore, Hg].
        -- intros g [<-|Hg]; [exact E|apply IH, Hg].
  - intros Hprimary Hempty. unfold Schema_Index.
    destruct (String.eqb_spec name "PRIMARY") as [E|_]; [contradiction|].
    assert (forall index, Index_matches name index = (Index_Name index =? name)%string)
      as Hmatches.
    { intros index. unfold Index_matches.
      destruct (String.eqb_spec name "") as [E|_]; [contradiction|].
      cbn [andb]. apply orb_false_r. }
    induction (Schema_Indices sc) as [|i indices IH]; cbn [Index_loop].
    + intros i [].
    + rewrite Hmatches. destruct (String.eqb_spec (Index_Name i) name) as [E|E].
      * exists [], indices. repeat split; [exact E|intros j []].
      * destruct (Index_loop indices name) as [index|].
        -- destruct IH as (before & after & -> & Hname & Hbefore).
           exists (i :: before), after. repeat split; [exact Hname|].
           intros j [<-|Hj]; [exact E|apply Hbefore, Hj].
        -- intros j [<-|Hj]; [exact E|apply IH, Hj].
Qed.

(** ** Which columns Update drops *)

Lemma append_inj_l (s a b : string) : s +:+ a = s +:+ b -> a = b.
Proof.
  induction s as [|c s IH]; [rewrite !append_nil_l; auto|].
  rewrite !append_String. intros [= E]. apply IH, E.
Qed.

Lemma append_inj_r (a b : string) (c : ascii) :
  a +:+ String c "" = b +:+ String c "" -> a = b.
Proof.
  revert b. induction a as [|x a IH]; intros [|y b]; rewrite ?append_String, ?append_nil_l.
  - reflexivity.
  - intros [= _ E]. destruct b; discriminate E.
  - intros [= _ E]. destruct a; discriminate E.
  - intros [= -> E]. f_equal. apply IH, E.
Qed.

Lemma quote_inj (a b : string) : quote a = quote b -> a = b.
Proof.
  unfold quote. rewrite !append_String, !append_nil_l. intros [= E].
  apply (append_inj_r a b "`"), E.
Qed.

Ltac differs H := autorewrite with str in H; discriminate H.

Lemma drop_column_in_changeList (escape : string -> string) (D A : Schema) (column : string) :
  In (alter D +:+ " DROP " +:+ quote column) (changeList escape D A) <->
  hasField A column = true /\ hasField D column = false.
Proof.
  split.
  - intros Hin. unfold changeList in Hin.
    apply in_app_or in Hin as [Hin|Hin]; [|apply in_app_or in Hin as [Hin|Hin]];
      [| |apply in_app_or in Hin as [Hin|Hin]; [|apply in_app_or in Hin as [Hin|Hin]]].
    + exfalso. unfold attributeChange in Hin.
      destruct (_ && _ && _) eqn:Hsame; [destruct Hin|].
      destruct Hin as [E|[]]. apply append_inj_l in E. unfold changedAttributes in E.
      destruct (Schema_Engine D =? Schema_Engine A)%string;
        destruct (Schema_Collate D =? Schema_Collate A)%string;
        destruct (Schema_Comment D =? Schema_Comment A)%string;
        try discriminate Hsame; differs E.
    + unfold fieldDrops in Hin. apply in_map_iff in Hin as (field & E & Hfield).
      apply filter_In in Hfield as [Hfield Habsent].
      unfold dropFieldStatement in E. apply append_inj_l, append_inj_l, quote_inj in E.
      subst column. split; [|apply negb_true_iff, Habsent].
      unfold hasField. apply existsb_exists. exists field.
      split; [exact Hfield|apply String.eqb_refl].
    + exfalso. unfold fieldChanges in Hin.
      apply list_elem_of_In, list_elem_of_omap in Hin as (field & _ & E).
      unfold fieldStatement in E.
      destruct (Schema_Field A (Field_Name field)) as [fd|].
      * destruct (Field_Equal fd field); [discriminate E|].
        injection E as E. apply append_inj_l in E. differs E.
      * injection E as E. apply append_inj_l in E. differs E.
    + exfalso. unfold indexDrops in Hin. apply in_map_iff in Hin as (index & E & _).
      unfold dropIndexStatement in E. apply append_inj_l in E. unfold quote in E. differs E.
    + exfalso. unfold indexChanges in Hin.
      apply list_elem_of_In, list_elem_of_omap in Hin as (index & _ & E).
      unfold indexStatement in E.
      destruct (Schema_Index A (Index_Name index)) as [idx|].
      * destruct (sameIndexb idx index); [discriminate E|].
        injection E as E. unfold replaceIndexStatement, dropClause in E.
        apply append_inj_l in E. unfold quote in E.
        destruct (Index_Primary index); differs E.
      * injection E as E. unfold addIndexStatement in E.
        apply append_inj_l in E. differs E.
  - intros [Hexisting Habsent]. unfold hasField in Hexisting.
    apply existsb_exists in Hexisting as (field & Hfield & Hname).
    apply String.eqb_eq in Hname. subst column.
    unfold changeList. apply in_or_app. right. apply in_or_app. left.
    unfold fieldDrops. apply in_map_iff. exists field. split; [reflexivity|].
    apply filter_In. split; [exact Hfield|]. rewrite Habsent. reflexivity.
Qed.

(** X23.  [Update] drops a column only if the table has it and the
    declared schema does not: the statement [ALTER TABLE `t` DROP `c`] is
    in the change list exactly when [c] is a column of the existing table
    and no field of the declared schema is named [c]; so a run of
    [Update] on an existing table sends this statement for no other
    column. *)
Theorem Update_drops_only_undeclared_columns {DB : Type} `{Database DB}
    (escape : string -> string) (D A : Schema) (column : string) :
  let drop := alter D +:+ " DROP " +:+ quote column in
  (In drop (changeList escape D A) <-> hasField A column = true /\ hasField D column = false)
  /\ (forall w,
         ReadFromDB (conn w) (Schema_Name D) = Value (Some A) ->
         In drop (executed (fst (Schema_Update escape D w))) ->
         In drop (executed w) \/ (hasField A column = true /\ hasField D column = false)).
Proof.
  cbn zeta. split; [apply drop_column_in_changeList|].
  intros w Hread Hsent. unfold Schema_Update in Hsent. rewrite Hread in Hsent.
  rewrite Update_alter_changeList in Hsent.
  destruct (runStatements_trace (changeList escape D A) w)
    as (done & rest & Hplan & Htrace & _).
  rewrite Htrace in Hsent. apply in_app_or in Hsent as [Hsent|Hsent]; [left; exact Hsent|].
  right. apply (drop_column_in_changeList escape). rewrite Hplan.
  apply in_or_app. left. exact Hsent.
Qed.

(** ** Blanks in option parameters *)

Lemma hasByte_append (c : ascii) (s t : string) :
  hasByte c (s +:+ t) = hasByte c s || hasByte c t.
Proof.
  induction s as [|b s IH]; [reflexivity|].
  rewrite append_String. cbn [hasByte]. rewrite IH. apply orb_assoc.
Qed.

Lemma lastByte_snoc (s : string) (c : ascii) : lastByte (s +:+ String c "") = Some c.
Proof.
  induction s as [|b s IH]; [reflexivity|].
  rewrite append_String. cbn [lastByte].
  destruct (s +:+ String c "") eqn:E; [destruct s; discriminate E|exact IH].
Qed.

Lemma parseFieldTag_option_closing (field : dataSchemaField) (b param : string) :
  parseFieldTag_option field (b +:+ ")") param = field.
Proof.
  unfold parseFieldTag_option.
  repeat lazymatch goal with
         | |- context [(?x =? ?name)%string] =>
             destruct (String.eqb_spec x name) as [E|_];
             [apply (f_equal lastByte) in E; rewrite lastByte_snoc in E; discriminate E|]
         end.
  reflexivity.
Qed.

Lemma quoteOptionParameter_plain (s : string) :
  hasByte ")" s = false -> hasByte "\" s = false -> quoteOptionParameter s = s.
Proof.
  induction s as [|c s IH]; [reflexivity|].
  cbn [hasByte quoteOptionParameter]. intros Hp Hb.
  apply orb_false_iff in Hp as [Hp Hp'], Hb as [Hb Hb'].
  rewrite Hp, Hb, IH by assumption. reflexivity.
Qed.

(** X24.  A parameter ends at the first blank: the tag is cut into words
    at the blanks before the options are read, so that of
    [comment(a b)] only [a] becomes the comment, and the rest, a word
    that ends with the closing parenthesis, is not an option and is
    ignored.  The field is described as if the tag said [comment(a)]. *)
Theorem parameter_ends_at_blank (i : nat) (field : StructField) (column a b : string) :
  column <> "" -> hasByte " " column = false ->
  hasByte " " a = false -> hasByte ")" a = false -> hasByte "\" a = false ->
  hasByte " " b = false -> hasByte "(" b = false ->
  loadDataSchemaInfo_field i field (column +:+ " comment(" +:+ a +:+ " " +:+ b +:+ ")")
  = loadDataSchemaInfo_field i field (column +:+ " comment(" +:+ a +:+ ")")
  /\ Comment (loadDataSchemaInfo_field i field
                (column +:+ " comment(" +:+ a +:+ " " +:+ b +:+ ")")) = a.
Proof.
  intros Hcolumn Hword Ha Hclosing Hslash Hb Hopen.
  set (base := set_ColumnName column (newDataSchemaField i field)).
  assert (ColumnName base <> "") as Hnamed by exact Hcolumn.
  assert (hasByte " " ("comment(" +:+ a) = false) as Hfirst
    by (rewrite hasByte_append, Ha; reflexivity).
  assert (hasByte " " (b +:+ ")") = false) as Hsecond
    by (rewrite hasByte_append, Hb; reflexivity).
  assert (parseOption ("comment(" +:+ a) = ("comment", a)) as Hopened.
  { replace ("comment(" +:+ a) with ("comment" +:+ String "(" a) by str_eq.
    rewrite parseOption_split, escapeOptionParameter_plain by (reflexivity || assumption).
    reflexivity. }
  assert (parseOption ("comment(" +:+ a +:+ ")") = ("comment", a)) as Hclosed.
  { replace ("comment(" +:+ a +:+ ")")
      with ("comment" +:+ String "(" (quoteOptionParameter a +:+ String ")" ""))
      by (rewrite quoteOptionParameter_plain by assumption; str_eq).
    rewrite parseOption_split, escapeOptionParameter_quoted by reflexivity. reflexivity. }
  assert (parseOption (b +:+ ")") = (b +:+ ")", "")) as Hignored.
  { unfold parseOption.
    replace (index 0 "(" (b +:+ ")")) with (@None nat); [reflexivity|].
    symmetry. apply index_hasByte. rewrite hasByte_append, Hopen. reflexivity. }
  assert (parseFieldTag (newDataSchemaField i field)
            (column +:+ " comment(" +:+ a +:+ " " +:+ b +:+ ")")
          = parseFieldTag_indexName (set_Comment a base)) as Hlong.
  { replace (column +:+ " comment(" +:+ a +:+ " " +:+ b +:+ ")")
      with (column +:+ String " " (("comment(" +:+ a) +:+ String " " (b +:+ ")")))
      by str_eq.
    rewrite parseFieldTag_first_word by (reflexivity || assumption). fold base.
    unfold parseFieldTag.
    rewrite strings_Split_word by exact Hfirst.
    rewrite strings_Split_plain by exact Hsecond. cbn [fold_left].
    rewrite (parseFieldTag_part_option base) by (exact Hnamed || discriminate).
    rewrite Hopened. cbn [fst snd].
    change (parseFieldTag_option base "comment" a) with (set_Comment a base).
    rewrite parseFieldTag_part_option;
      [|exact Hcolumn|destruct b; discriminate].
    rewrite Hignored. cbn [fst snd]. rewrite parseFieldTag_option_closing. reflexivity. }
  assert (parseFieldTag (newDataSchemaField i field) (column +:+ " comment(" +:+ a +:+ ")")
          = parseFieldTag_indexName (set_Comment a base)) as Hshort.
  { replace (column +:+ " comment(" +:+ a +:+ ")")
      with (column +:+ String " " ("comment(" +:+ a +:+ ")")) by str_eq.
    rewrite parseFieldTag_first_word by (reflexivity || assumption). fold base.
    unfold parseFieldTag.
    rewrite strings_Split_plain
      by (rewrite !hasByte_append, Ha; reflexivity).
    cbn [fold_left].
    rewrite (parseFieldTag_part_option base) by (exact Hnamed || discriminate).
    rewrite Hclosed. reflexivity. }
  unfold loadDataSchemaInfo_field. rewrite Hlong, Hshort.
  split; [reflexivity|].
  unfold parseFieldTag_indexName. cbn.
  destruct (String.eqb_spec column "") as [E|_]; [contradiction|]. reflexivity.
Qed.

Lemma parameter_ends_at_blank_witness :
  Comment (loadDataSchemaInfo_field 0 (tagged "Name" reflect_String "name comment(full name)")
             "name comment(full name)") = "full".
Proof.
  apply (parameter_ends_at_blank 0 (tagged "Name" reflect_String "name comment(full name)")
           "name" "full" "name"); (discriminate || reflexivity).
Defined.

(** ** Slices written and read back *)

Lemma strings_Split_join (sep : ascii) (a : list string) :
  a <> [] -> Forall (fun s => hasByte sep s = false) a ->
  strings_Split (join (String sep "") a) sep = a.
Proof.
  intros Hne Hplain. induction Hplain as [|x rest Hx Hrest IH]; [contradiction|].
  destruct rest as [|y rest].
  - cbn [join]. apply strings_Split_plain, Hx.
  - change (join (String sep "") (x :: y :: rest))
      with (x +:+ String sep "" +:+ join (String sep "") (y :: rest)).
    replace (x +:+ String sep "" +:+ join (String sep "") (y :: rest))
      with (x +:+ String sep (join (String sep "") (y :: rest))) by str_eq.
    rewrite strings_Split_word by exact Hx. f_equal. apply IH. discriminate.
Qed.

Section Slices.
Variable value : Type.
Variable assertStrings : value -> option (list string).
Variable ofString : string -> value.
Variable json_Marshal : value -> outcome string.
Variable yaml_Marshal : value -> outcome string.

(** X25.  For a field marked [arr] with a delimiter of one byte, [Insert]
    writes the elements of the slice joined by the delimiter, and
    splitting that text at the delimiter, as [ScanRrow] does, gives the
    slice back, provided that no element holds the delimiter and that the
    slice is not empty; an empty slice is written as the empty text and
    comes back as a slice of one empty string. *)
Theorem arr_round_trip (elem : Struct value) (f : dataSchemaField) (sep : ascii)
    (x : value) (a : list string) :
  SerializeMethod f = ARRAY -> SerializeDelimiter f = String sep "" ->
  Field_Interface elem (FieldIndex f) = Value x -> assertStrings x = Some a ->
  Forall (fun s => hasByte sep s = false) a ->
  serialized value assertStrings ofString json_Marshal yaml_Marshal elem f
  = Value (ofString (join (String sep "") a))
  /\ ScanRrow_Split f (join (String sep "") a)
     = Some match a with
            | [] => [""]
            | _ => a
            end.
Proof.
  intros Hmethod Hdelimiter Hx Ha Hplain. split.
  - unfold serialized. rewrite Hmethod, Hx, Hdelimiter. cbn. rewrite Ha. reflexivity.
  - unfold ScanRrow_Split. rewrite Hdelimiter. f_equal.
    destruct a as [|s rest]; [reflexivity|].
    apply strings_Split_join; [discriminate|exact Hplain].
Qed.

End Slices.

Lemma arr_round_trip_witness :
  let f := loadDataSchemaInfo_field 6
             (mkStructField "Arr" reflect_Slice reflect_String true (Some "arr text arr(,)"))
             "arr text arr(,)" in
  serialized string test_strings id test_Marshal test_Marshal test_row f = Value "a,b,c"
  /\ ScanRrow_Split f "a,b,c" = Some ["a"; "b"; "c"].
Proof.
  apply (arr_round_trip string test_strings id test_Marshal test_Marshal test_row _ ","
           "a,b,c" ["a"; "b"; "c"]); try reflexivity.
  repeat constructor.
Defined.

(** The statement that [Create] builds for the schema of the test struct,
    once the caller has named the table. *)
Example Create_test_schema :
  Create_sql backslashEscape
    (mkSchema "test2" (Schema_Fields test_schema) (Schema_Indices test_schema)
       "InnoDB" "utf8mb4_general_ci" "")
  = Value "CREATE TABLE IF NOT EXISTS `test2` (`id` int(11) NOT NULL AUTO_INCREMENT,`name` varchar(255) NOT NULL,`age` int(11) NOT NULL DEFAULT 0,`idx1` bigint(20) NOT NULL,`idx2` bigint(20) NOT NULL,`comment` varchar(64) NULL,`arr` text NOT NULL,`json` text NOT NULL,`yaml` text NOT NULL,PRIMARY KEY (`id`),UNIQUE KEY `idx_Name` (`name`),UNIQUE KEY `idx` (`idx1`,`idx2`)) ENGINE=InnoDB COLLATE=utf8mb4_general_ci".
Proof. vm_compute. reflexivity. Qed.

(** ** The properties at work *)

Lemma loadDataSchemaInfo_describes_witness :
  List.length (Fields (loadDataSchemaInfo shadowed_struct)) = 3%nat
  /\ option_map Name (ByColumName (loadDataSchemaInfo shadowed_struct) !! "x") = Some "B"
  /\ ByColumName (loadDataSchemaInfo shadowed_struct) !! "z" = None
  /\ option_map Name (AIField (loadDataSchemaInfo shadowed_struct)) = Some "C".
Proof.
  destruct (loadDataSchemaInfo_describes shadowed_struct) as (Hlength & _ & Hcolumn & Hai).
  repeat apply conj.
  - exact Hlength.
  - rewrite Hcolumn. reflexivity.
  - rewrite Hcolumn. reflexivity.
  - rewrite Hai. reflexivity.
Defined.

Lemma GetSchema_columns_witness :
  exists sc,
    GetSchema (any_pointer (any_struct test_struct)) = Some sc
    /\ Schema_Name sc = ""
    /\ List.length (Schema_Fields sc) = 9%nat.
Proof.
  destruct (GetSchema_columns (any_pointer (any_struct test_struct)))
    as (_ & _ & _ & Hstruct & _).
  destruct (Hstruct test_struct eq_refl) as (sc & Hsc & Hname & _ & _ & _ & _ & Hlength).
  exists sc. split; [exact Hsc|split; [exact Hname|exact Hlength]].
Defined.

Lemma Update_unknown_column_witness :
  Update_sql string test_strings id test_Marshal test_Marshal test_ErrUnknownColumn
    "test2" ["age"; "nope"] test_row
  = Failure (Wrap test_ErrUnknownColumn "Unknown column nope")
  /\ exists column,
       In column ["age"; "nope"]
       /\ ByColumName (loadDataSchemaInfo test_struct) !! column = None.
Proof.
  assert (Update_sql string test_strings id test_Marshal test_Marshal test_ErrUnknownColumn
            "test2" ["age"; "nope"] test_row
          = Failure (Wrap test_ErrUnknownColumn "Unknown column nope")) as Hfailure
    by (vm_compute; reflexivity).
  split; [exact Hfailure|].
  destruct (Update_unknown_column string test_strings id test_Marshal test_Marshal
              test_ErrUnknownColumn "test2" ["age"; "nope"] test_row) as [Herror _].
  destruct (Herror _ Hfailure) as (column & Hcolumn & Hnone & _).
  exists column. split; [exact Hcolumn|exact Hnone].
Defined.

Lemma ReadFromDB_columns_witness :
  exists columns,
    Query_COLUMNS users_db "test" "users" = inr (map inr columns)
    /\ Schema_Fields users = map scanColumn columns.
Proof.
  destruct (ReadFromDB_columns users_db "users") as [Hread _].
  assert (ReadFromDB users_db "users" = Value (Some users)) as Husers by reflexivity.
  destruct (Hread users Husers)
    as (dbName & table & columns & statistics & Hname & _ & Hcolumns & _ & _ & _ & _ & _
        & Hfields).
  injection Hname as <-.
  exists columns. split; [exact Hcolumns|exact Hfields].
Defined.

Lemma lookups_return_first_match_witness :
  (exists before after,
      Schema_Fields users = before ++ mkField "name" "varchar(64)" true false "" "" :: after
      /\ forall f, In f before -> Field_Name f <> "name")
  /\ forall f, In f (Schema_Fields users) -> Field_Name f <> "age".
Proof.
  split.
  - destruct (proj1 (lookups_return_first_match users "name"))
      as (before & after & Hfields & _ & Hbefore).
    exists before, after. split; [exact Hfields|exact Hbefore].
  - exact (proj1 (lookups_return_first_match users "age")).
Defined.

Lemma Update_drops_only_undeclared_columns_witness :
  In "ALTER TABLE `test` DROP `titleX`" (changeList backslashEscape rename_desired rename_actual)
  /\ ~ In "ALTER TABLE `test` DROP `name`"
         (changeList backslashEscape rename_desired rename_actual).
Proof.
  split.
  - apply (proj1 (Update_drops_only_undeclared_columns (DB := Scripted) backslashEscape
                    rename_desired rename_actual "titleX")).
    split; reflexivity.
  - intros Hin.
    apply (proj1 (Update_drops_only_undeclared_columns (DB := Scripted) backslashEscape
                    rename_desired rename_actual "name")) in Hin.
    destruct Hin as [_ Hin]. discriminate Hin.
Defined.

